(** * contract-filler-cli: the ingestion pipeline of [contractfillercli.py]

    A shallow embedding of [normalize_header], [format_date] and of the
    generator [read_data] with its nested helpers ([normalize_row],
    [is_valid], [emit_row], [record_invalid_sink], the four readers and the
    driver), followed by the properties of the specification that concern
    them; then [build_filename] and, of [fill_contract], the loops that
    replace placeholders and the paths it derives, with further properties
    of the whole.  [add_logo_to_pdf], [main] and the files [fill_contract]
    reads and writes are left out.

    Python values are modelled as follows:
    - a [str] is the list of its Unicode code points;
    - a [dict] is an association list in insertion order, written through
      [dict_set], which overwrites in place as Python does;
    - a generator is described by what a caller that drains it observes:
      the items yielded, the value carried by [StopIteration], the
      exception that leaves it, the log records and the file the sink
      wrote; a caller that abandons the iteration is not modelled;
    - [iter_wrap] is left out: with or without tqdm it hands on the items
      it is given, and only the warning of a failed import is kept;
    - a document is what [fill_contract] visits of it: the paragraphs of the
      body and of the cells of its tables, each by the text of its runs;
      the text of a paragraph is the text of its runs, joined, and no cell
      is visited twice; assigning the text of a run raises for a character
      XML does not take, and the exception ends [fill_contract];
    - what the interpreter and its libraries supply (Unicode tables,
      [json.loads], [str()], the C library's [strftime]) is a [platform];
      what the readers find on disk is an [environment]. *)

From Stdlib Require Import List NArith ZArith Bool Lia String Ascii.
From Stdlib Require Import Permutation.
From Stdlib Require Import Floats.SpecFloat.
From Stdlib Require Import DecimalString.
Import ListNotations.

Set Implicit Arguments.
Set Warnings "-register-all".

(** ** Strings *)

Definition str := list N.

(** An ASCII literal as a [str]. *)
Definition lit (s : string) : str := map N_of_ascii (list_ascii_of_string s).

Fixpoint str_eqb (a b : str) : bool :=
  match a, b with
  | [], [] => true
  | x :: a', y :: b' => N.eqb x y && str_eqb a' b'
  | _, _ => false
  end.

Definition is_ascii (c : N) : bool := N.ltb c 128.

(** [str.isspace] for one code point: the list of
    [_PyUnicode_IsWhitespace]. *)
Definition py_isspace (c : N) : bool :=
  (N.leb 9 c && N.leb c 13) || (N.leb 28 c && N.leb c 32)
  || N.eqb c 133 || N.eqb c 160 || N.eqb c 5760
  || (N.leb 8192 c && N.leb c 8202)
  || N.eqb c 8232 || N.eqb c 8233 || N.eqb c 8239 || N.eqb c 8287
  || N.eqb c 12288.

Fixpoint lstrip (s : str) : str :=
  match s with
  | c :: s' => if py_isspace c then lstrip s' else s
  | [] => []
  end.

Definition rstrip (s : str) : str := rev (lstrip (rev s)).

(** [s.strip()] *)
Definition strip (s : str) : str := rstrip (lstrip s).

(** [s.lower()] on a code point of the ASCII range. *)
Definition ascii_lower (c : N) : N :=
  if N.leb 65 c && N.leb c 90 then (c + 32)%N else c.

Definition is_upper (c : N) : bool := N.leb 65 c && N.leb c 90.

(** [s.replace(old, new)] for one-character [old] and [new]. *)
Definition replace_char (old new : N) (s : str) : str :=
  map (fun c => if N.eqb c old then new else c) s.

(** [s.encode("ascii", "ignore").decode("ascii")] *)
Definition ascii_ignore (s : str) : str := filter is_ascii s.

Definition SPACE : N := 32.
Definition UNDERSCORE : N := 95.

(** A stripped string neither starts nor ends with white space. *)
Definition trimmed (s : str) : Prop :=
  match s with c :: _ => py_isspace c = false | [] => True end
  /\ match rev s with c :: _ => py_isspace c = false | [] => True end.

(** What [lower] then [replace(" ", "_")] make of one ASCII character. *)
Definition fold_char (c : N) : N :=
  if N.eqb (ascii_lower c) SPACE then UNDERSCORE else ascii_lower c.

(** A header is in normal form when [normalize_header] has nothing left to
    do on it. *)
Definition normal_form (s : str) : Prop :=
  forallb is_ascii s = true
  /\ (forall c, In c s -> c <> SPACE /\ is_upper c = false)
  /\ trimmed s.

(** ** Values *)

(** A [datetime.datetime]; the time of day is kept as microseconds. *)
Record datetime := mk_datetime {
  dt_year : Z;
  dt_month : Z;
  dt_day : Z;
  dt_micros : N
}.

(** The values a cell, a JSON document or a record field can hold. *)
Inductive value :=
| VNone
| VBool (b : bool)
| VInt (z : Z)
| VFloat (f : spec_float)
| VStr (s : str)
| VDate (d : datetime)
| VList (l : list value)
| VDict (d : list (str * value)).

(** [bool(v)] *)
Definition truthy (v : value) : bool :=
  match v with
  | VNone => false
  | VBool b => b
  | VInt z => negb (Z.eqb z 0)
  | VFloat (S754_zero _) => false
  | VFloat _ => true
  | VStr [] => false
  | VStr _ => true
  | VDate _ => true
  | VList [] => false
  | VList _ => true
  | VDict [] => false
  | VDict _ => true
  end.

(** ** Dictionaries (insertion ordered) *)

Section Dict.
Variable V : Type.

Definition dict := list (str * V).

(** [d.get(k)] *)
Fixpoint dict_get (d : dict) (k : str) : option V :=
  match d with
  | [] => None
  | (k', v) :: r => if str_eqb k' k then Some v else dict_get r k
  end.

(** [d[k] = v]: an existing key keeps its position. *)
Fixpoint dict_set (d : dict) (k : str) (v : V) : dict :=
  match d with
  | [] => [(k, v)]
  | (k', v') :: r =>
      if str_eqb k' k then (k', v) :: r else (k', v') :: dict_set r k v
  end.

Definition keys (d : dict) : list str := map fst d.

(** [k in d] *)
Definition dict_mem (d : dict) (k : str) : bool :=
  match dict_get d k with Some _ => true | None => false end.
End Dict.

Definition row := dict value.

(** A raw record as a reader produces it.  A key is [None] only for the
    [restkey] of [csv.DictReader]. *)
Definition raw_record := list (option str * value).

(** ** What the interpreter supplies *)

(** The exceptions the pipeline distinguishes; the argument is [str(e)]. *)
Inductive exn :=
| FileNotFoundError (msg : str)
| PermissionError (msg : str)
| ValueError (msg : str)
| TypeError (msg : str)
| OtherError (msg : str).

Record platform := mk_platform {
  (** [unicodedata.normalize("NFKD", s)] *)
  nfkd : str -> str;
  nfkd_ascii : forall s, forallb is_ascii s = true -> nfkd s = s;
  (** [s.lower()] *)
  str_lower : str -> str;
  str_lower_ascii :
    forall s, forallb is_ascii s = true -> str_lower s = map ascii_lower s;
  (** the digit value of a code point of category Nd, as [\d] of [re] and
      [int()] see it *)
  decimal_digit : N -> option N;
  decimal_digit_ascii :
    forall c, is_ascii c = true ->
      decimal_digit c
      = if N.leb 48 c && N.leb c 57 then Some (c - 48)%N else None;
  (** [str(v)] *)
  py_str : value -> str;
  py_str_str : forall s, py_str (VStr s) = s;
  (** does [strftime("%Y")] of the C library pad a year below 1000 *)
  strftime_pads_year : bool;
  (** [json.loads(s)]: the value, or [str(e)] of the exception *)
  json_loads : str -> str + value
}.

(** ** Header normalisation *)

Section Headers.
Variable P : platform.

(** [normalize_header(header)] *)
Definition normalize_header (header : str) : str :=
  match header with
  | [] => []
  | _ =>
      let header := ascii_ignore (nfkd P header) in
      replace_char SPACE UNDERSCORE (str_lower P (strip header))
  end.

(** [normalize_header] called with an absent ([None]) argument. *)
Definition normalize_header_opt (header : option str) : str :=
  match header with
  | None => []
  | Some h => normalize_header h
  end.
End Headers.

(** ** Dates: [format_date] *)

Section Dates.
Variable P : platform.

Definition in_range (lo hi c : N) : bool := N.leb lo c && N.leb c hi.

(** The value of an ASCII digit between the characters [lo] and [hi]. *)
Definition digit_in (lo hi c : N) : option Z :=
  if in_range lo hi c then Some (Z.of_N (c - 48)) else None.

(** [\d]: any decimal digit of Unicode, with the value [int()] gives it. *)
Definition re_digit (c : N) : option Z := option_map Z.of_N (decimal_digit P c).

Definition HYPHEN : N := 45.
Definition SLASH : N := 47.
Definition ZERO : N := 48.

(** [(?P<Y>\d\d\d\d)] *)
Definition match_Y (s : str) : option (Z * str) :=
  match s with
  | a :: b :: c :: d :: r =>
      match re_digit a, re_digit b, re_digit c, re_digit d with
      | Some a, Some b, Some c, Some d =>
          Some (1000 * a + 100 * b + 10 * c + d, r)%Z
      | _, _, _, _ => None
      end
  | _ => None
  end.

Definition match_hyphen (s : str) : option str :=
  match s with
  | c :: r => if N.eqb c HYPHEN then Some r else None
  | [] => None
  end.

(** [(?P<d>3[0-1]|[1-2]\d|0[1-9]|[1-9]| [1-9])]: nothing follows the
    group in the pattern, so the first alternative that matches wins. *)
Definition match_d (s : str) : option (Z * str) :=
  let one :=
    match s with
    | a :: r => option_map (fun a => (a, r)) (digit_in 49 57 a)
    | [] => None
    end in
  match s with
  | a :: b :: r =>
      match (if N.eqb a 51 then digit_in 48 49 b else None) with
      | Some b => Some (30 + b, r)%Z
      | None =>
      match digit_in 49 50 a, re_digit b with
      | Some a, Some b => Some (10 * a + b, r)%Z
      | _, _ =>
      match (if N.eqb a ZERO then digit_in 49 57 b else None) with
      | Some b => Some (b, r)
      | None =>
      match one with
      | Some res => Some res
      | None =>
      match (if N.eqb a SPACE then digit_in 49 57 b else None) with
      | Some b => Some (b, r)
      | None => None
      end end end end end
  | _ => one
  end.

(** What follows the month group: [-(?P<d>...)]. *)
Definition match_rest (m : Z) (s : str) : option (Z * Z * str) :=
  match match_hyphen s with
  | Some s' => option_map (fun '(d, r) => (m, d, r)) (match_d s')
  | None => None
  end.

Definition or_else {A} (x y : option A) : option A :=
  match x with Some _ => x | None => y end.

(** [(?P<m>1[0-2]|0[1-9]|[1-9])] followed by the rest of the pattern;
    the matcher backtracks into the next alternative when the rest
    fails. *)
Definition match_m (s : str) : option (Z * Z * str) :=
  let alt1 :=
    match s with
    | a :: b :: r =>
        if N.eqb a 49 then
          match digit_in 48 50 b with
          | Some b => match_rest (10 + b) r
          | None => None
          end
        else None
    | _ => None
    end in
  let alt2 :=
    match s with
    | a :: b :: r =>
        if N.eqb a ZERO then
          match digit_in 49 57 b with
          | Some b => match_rest b r
          | None => None
          end
        else None
    | _ => None
    end in
  let alt3 :=
    match s with
    | a :: r =>
        match digit_in 49 57 a with
        | Some a => match_rest a r
        | None => None
        end
    | [] => None
    end in
  or_else alt1 (or_else alt2 alt3).

Definition is_leap (y : Z) : bool :=
  (Z.eqb (y mod 4) 0 && negb (Z.eqb (y mod 100) 0)) || Z.eqb (y mod 400) 0.

Definition days_in_month (y m : Z) : Z :=
  if Z.eqb m 2 then (if is_leap y then 29 else 28)
  else if Z.eqb m 4 || Z.eqb m 6 || Z.eqb m 9 || Z.eqb m 11 then 30
  else 31.

(** The check of [datetime.date(year, month, day)]. *)
Definition valid_date (y m d : Z) : bool :=
  Z.leb 1 y && Z.leb y 9999 && Z.leb 1 m && Z.leb m 12
  && Z.leb 1 d && Z.leb d (days_in_month y m).

(** [datetime.strptime(s, "%Y-%m-%d")] *)
Definition strptime (s : str) : exn + datetime :=
  match match_Y s with
  | Some (y, s1) =>
      match match_hyphen s1 with
      | Some s2 =>
          match match_m s2 with
          | Some (m, d, []) =>
              if valid_date y m d then inr (mk_datetime y m d 0)
              else inl (ValueError (lit "day is out of range for month"))
          | Some (_, _, _ :: _) =>
              inl (ValueError (lit "unconverted data remains"))
          | None => inl (ValueError (lit "time data does not match format"))
          end
      | None => inl (ValueError (lit "time data does not match format"))
      end
  | None => inl (ValueError (lit "time data does not match format"))
  end.

Definition digit_char (z : Z) : N := (48 + Z.to_N (z mod 10))%N.

(** [%d] and [%m]: two digits. *)
Definition pad2 (z : Z) : str := [digit_char (z / 10); digit_char z].

Definition pad4 (z : Z) : str :=
  [digit_char (z / 1000); digit_char (z / 100); digit_char (z / 10);
   digit_char z].

Fixpoint drop_zeros (s : str) : str :=
  match s with
  | c :: (_ :: _) as r => if N.eqb c ZERO then drop_zeros r else s
  | _ => s
  end.

(** [%Y]: four digits from 1000 on; below, as the C library chooses. *)
Definition render_year (y : Z) : str :=
  if strftime_pads_year P then pad4 y else drop_zeros (pad4 y).

(** [d.strftime("%d/%m/%Y")] *)
Definition strftime (d : datetime) : str :=
  pad2 (dt_day d) ++ [SLASH] ++ pad2 (dt_month d) ++ [SLASH]
  ++ render_year (dt_year d).

(** [format_date(value)] *)
Definition format_date (v : value) : value :=
  match v with
  | VStr s =>
      match strptime s with
      | inr d => VStr (strftime d)
      | inl _ => VStr (py_str P v)
      end
  | VDate d => VStr (strftime d)
  | _ => v
  end.
End Dates.

(** ** Paths ([pathlib.PurePosixPath]) *)

Definition DOT : N := 46.

Record path := mk_path {
  anchor : str;
  parts : list str
}.

(** [s.split(sep)] *)
Fixpoint split_sep (sep : N) (s : str) : list str :=
  match s with
  | [] => [[]]
  | c :: r =>
      if N.eqb c sep then [] :: split_sep sep r
      else
        match split_sep sep r with
        | h :: t => (c :: h) :: t
        | [] => [[c]]
        end
  end.

(** [Path(s)]: empty and ["."] components are dropped; two leading slashes
    are kept apart from one or from three and more. *)
Definition Path (s : str) : path :=
  let root :=
    match s with
    | 47 :: 47 :: 47 :: _ => [SLASH]
    | 47 :: 47 :: _ => [SLASH; SLASH]
    | 47 :: _ => [SLASH]
    | _ => []
    end%N in
  mk_path root
    (filter (fun c => negb (str_eqb c [] || str_eqb c [DOT]))
       (split_sep SLASH s)).

(** [p.name] *)
Definition path_name (p : path) : str := last (parts p) [].

(** [name[name.rfind('.'):]], when the name holds a dot. *)
Fixpoint from_last_dot (name : str) : option str :=
  match name with
  | [] => None
  | c :: r =>
      match from_last_dot r with
      | Some s => Some s
      | None => if N.eqb c DOT then Some name else None
      end
  end.

(** [p.suffix]: [name[i:]] when [0 < i < len(name) - 1]. *)
Definition path_suffix (p : path) : str :=
  let name := path_name p in
  match from_last_dot name with
  | Some s =>
      if Nat.ltb (List.length s) (List.length name) && Nat.ltb 1 (List.length s) then s
      else []
  | None => []
  end.

(** [p.with_suffix(suffix)] for a well-formed [suffix]. *)
Definition with_suffix (p : path) (suffix : str) : exn + path :=
  let name := path_name p in
  match name with
  | [] => inl (ValueError (lit "path has an empty name"))
  | _ =>
      let old := path_suffix p in
      let stem := firstn (List.length name - List.length old) name in
      inr (mk_path (anchor p) (removelast (parts p) ++ [stem ++ suffix]))
  end.

(** ** JSON documents *)

Inductive json :=
| JNull
| JBool (b : bool)
| JInt (z : Z)
| JFloat (f : spec_float)
| JString (s : str)
| JArray (l : list json)
| JObject (fields : list (str * json)).

(** What [json.dumps] makes of a value; a [datetime] is not serialisable
    and raises [TypeError]. *)
Fixpoint to_json (v : value) : option json :=
  match v with
  | VNone => Some JNull
  | VBool b => Some (JBool b)
  | VInt z => Some (JInt z)
  | VFloat f => Some (JFloat f)
  | VStr s => Some (JString s)
  | VDate _ => None
  | VList l =>
      option_map JArray
        ((fix go (l : list value) : option (list json) :=
            match l with
            | [] => Some []
            | x :: r =>
                match to_json x, go r with
                | Some j, Some js => Some (j :: js)
                | _, _ => None
                end
            end) l)
  | VDict d =>
      option_map JObject
        ((fix go (d : list (str * value)) : option (list (str * json)) :=
            match d with
            | [] => Some []
            | (k, x) :: r =>
                match to_json x, go r with
                | Some j, Some js => Some ((k, j) :: js)
                | _, _ => None
                end
            end) d)
  end.

(** [json.dumps(rows)] for a list of dictionaries. *)
Definition json_dumps (rows : list row) : exn + json :=
  match to_json (VList (map VDict rows)) with
  | Some j => inr j
  | None => inl (TypeError (lit "Object of type datetime is not JSON serializable"))
  end.

(** ** Log records *)

Inductive level := ERROR | WARNING.

(** One constructor per message of [read_data]. *)
Inductive log_record :=
| LogTqdmMissing
| LogDateFormatter (dk : str) (e : exn)
| LogJsonNotDict (raw : value)
| LogFileNotFound (file_path : str)
| LogPermissionDenied (file_path : str)
| LogUnexpected (file_path : str) (e : exn)
| LogInvalidSaved (n : nat) (sink : path)
| LogSinkFailed (sink : path) (e : exn)
| LogPandasMissing (e : exn).

Definition log_level (r : log_record) : level :=
  match r with
  | LogTqdmMissing | LogDateFormatter _ _ | LogJsonNotDict _
  | LogInvalidSaved _ _ => WARNING
  | _ => ERROR
  end.

(** ** Arguments of [read_data] *)

(** The [date_formatter] argument: [None], a callable, a lookup table keyed
    by strings, or any other object with its truth value. *)
Inductive date_formatter :=
| DFNone
| DFCallable (f : value -> exn + value)
| DFTable (t : dict value)
| DFOther (truth : bool).

Definition df_truthy (df : date_formatter) : bool :=
  match df with
  | DFNone => false
  | DFCallable _ => true
  | DFTable [] => false
  | DFTable _ => true
  | DFOther b => b
  end.

Record options := mk_options {
  as_list : bool;
  return_dataframe : bool;
  normalize_headers : bool;
  column_map : option (dict str);
  required_fields : option (list str);
  date_fields : option (list str);
  date_formatter_arg : date_formatter;
  csv_encoding : str;
  csv_delimiter : str;
  invalid_sink_path : option str;
  progress : bool
}.

(** The defaults of the signature. *)
Definition default_options : options :=
  mk_options false false true None None None DFNone (lit "utf-8") (lit ",")
    (Some (lit "Errors/errors.json")) true.

(** ** What the readers find *)

(** A one-pass sequence that ends normally or by raising. *)
Record source (A : Type) := mk_source {
  items : list A;
  failure : option exn
}.

Record environment := mk_environment {
  (** the dictionaries [csv.DictReader] yields for a file opened with an
      encoding and a delimiter *)
  csv_open : path -> str -> str -> source raw_record;
  (** [openpyxl.load_workbook(...).active]: the cells of row 1 and the
      value tuples of the rows from 2 on *)
  xlsx_open : path -> exn + (list value * source (list value));
  (** [json.load] of the file *)
  json_open : path -> exn + value;
  (** the lines of the file *)
  jsonl_open : path -> source str;
  tqdm_available : bool;
  (** the exception of [import pandas], if it fails *)
  pandas_import : option exn;
  (** the exception of [sink.parent.mkdir], if it fails *)
  mkdir_parent : path -> option exn;
  (** the exception of [sink.write_text], if it fails *)
  write_text : path -> option exn
}.

(** ** The pipeline of [read_data] *)

(** The lists the closures of [read_data] append to, and the log. *)
Record state := mk_state {
  out_rows : list row;
  invalid_rows : list row;
  logs : list log_record
}.

Definition add_logs (st : state) (l : list log_record) : state :=
  mk_state (out_rows st) (invalid_rows st) (logs st ++ l).

Definition ERRORS_KEY : str := lit "_errors".
Definition RAW_KEY : str := lit "_raw".

(** [v.strip() if isinstance(v, str) else v] *)
Definition strip_value (v : value) : value :=
  match v with
  | VStr s => VStr (strip s)
  | _ => v
  end.

(** [any(values)] *)
Definition any_truthy (l : list value) : bool := existsb truthy l.

Section Pipeline.
Variable P : platform.
Variable o : options.

(** [colmap = {normalize_header(k): v for k, v in (column_map or {}).items()}] *)
Definition colmap : dict str :=
  fold_left (fun acc kv => dict_set acc (normalize_header P (fst kv)) (snd kv))
    (match column_map o with Some d => d | None => [] end) [].

(** [req = tuple(normalize_header(f) for f in (required_fields or ()))] *)
Definition req : list str :=
  map (normalize_header P)
    (match required_fields o with Some l => l | None => [] end).

(** [date_keys = tuple(normalize_header(f) for f in (date_fields or ()))] *)
Definition date_keys : list str :=
  map (normalize_header P)
    (match date_fields o with Some l => l | None => [] end).

(** [want_list = bool(as_list or return_dataframe)] *)
Definition want_list : bool := as_list o || return_dataframe o.

(** The key of [normalize_row] for a raw key [k]:
    [normalize_header(str(k)) if k else ""], then [colmap.get] when
    [colmap] is not empty. *)
Definition new_key (k : option str) : str :=
  let nk :=
    match k with
    | Some ((_ :: _) as s) => normalize_header P s
    | _ => []
    end in
  match colmap with
  | [] => nk
  | _ :: _ =>
      match dict_get colmap nk with
      | Some dest => dest
      | None => nk
      end
  end.

(** The first loop of [normalize_row]. *)
Definition build_row (raw : raw_record) : row :=
  fold_left (fun r kv => dict_set r (new_key (fst kv)) (strip_value (snd kv)))
    raw [].

(** The body of the [try] of [normalize_row]: the new value, [None] when
    the field is left alone, or the exception raised. *)
Definition apply_formatter (v : value) : exn + option value :=
  match date_formatter_arg o with
  | DFCallable f =>
      match f v with
      | inl e => inl e
      | inr v' => inr (Some v')
      end
  | DFTable t =>
      match v with
      | VStr s => inr (dict_get t s)
      | VList _ | VDict _ => inl (TypeError (lit "unhashable type"))
      | _ => inr None
      end
  | _ => inr None
  end.

Definition format_field (acc : row * list log_record) (dk : str)
  : row * list log_record :=
  let (r, lg) := acc in
  match dict_get r dk with
  | Some v =>
      if truthy v then
        match apply_formatter v with
        | inr (Some v') => (dict_set r dk v', lg)
        | inr None => (r, lg)
        | inl e => (r, lg ++ [LogDateFormatter dk e])
        end
      else (r, lg)
  | None => (r, lg)
  end.

(** [normalize_row(raw)], with the warnings it logs. *)
Definition normalize_row (raw : raw_record) : row * list log_record :=
  let r := build_row raw in
  if df_truthy (date_formatter_arg o)
     && match date_keys with [] => false | _ => true end
  then fold_left format_field date_keys (r, [])
  else (r, []).

(** [not row.get(f)] *)
Definition is_missing (r : row) (f : str) : bool :=
  match dict_get r f with
  | Some v => negb (truthy v)
  | None => true
  end.

(** [is_valid(row)] *)
Definition is_valid (r : row) : bool * list str :=
  let missing := filter (is_missing r) req in
  (match missing with [] => true | _ => false end, missing).

(** [emit_row(row)]: the state after it and the value it returns. *)
Definition emit_row (st : state) (r : row) : state * option row :=
  if want_list then
    (mk_state (out_rows st ++ [r]) (invalid_rows st) (logs st), None)
  else (st, Some r).

(** [record_invalid_sink(row, reason)] *)
Definition record_invalid_sink (st : state) (r : row) (reason : list str)
  : state :=
  let row_copy := dict_set r ERRORS_KEY (VList (map VStr reason)) in
  mk_state (out_rows st) (invalid_rows st ++ [row_copy]) (logs st).

(** [[f"missing: {m}" for m in missing]] *)
Definition missing_reasons (missing : list str) : list str :=
  map (fun m => lit "missing: " ++ m) missing.

(** The tail every reader's loop body shares: normalise, validate, then
    record or emit.  The second component is the item the reader yields. *)
Definition process (st : state) (raw : raw_record) : state * option row :=
  let (r, lg) := normalize_row raw in
  let st := add_logs st lg in
  let (ok, missing) := is_valid r in
  if negb ok then (record_invalid_sink st r (missing_reasons missing), None)
  else emit_row st r.

(** A reader's [for] loop: the state after the last item and the items
    yielded, in order. *)
Fixpoint run_loop (A : Type) (body : state -> A -> state * option row)
  (st : state) (l : list A) : state * list row :=
  match l with
  | [] => (st, [])
  | x :: rest =>
      let (st1, y) := body st x in
      let (st2, ys) := run_loop body st1 rest in
      (st2, match y with Some r => r :: ys | None => ys end)
  end.

(** What draining a reader leaves: the state, the items it yielded and the
    exception that ended it, if any. *)
Definition reader_result := (state * list row * option exn)%type.

Definition run_source (A : Type) (body : state -> A -> state * option row)
  (st : state) (src : source A) : reader_result :=
  let (st', ys) := run_loop body st (items src) in
  (st', ys, failure src).

(** [not raw or not any(raw.values())] *)
Definition csv_blank (raw : raw_record) : bool :=
  match raw with
  | [] => true
  | _ => negb (any_truthy (map snd raw))
  end.

Definition csv_body (st : state) (raw : raw_record) : state * option row :=
  if csv_blank raw then (st, None) else process st raw.

(** [not row_vals or not any(row_vals)] *)
Definition xlsx_blank (row_vals : list value) : bool :=
  match row_vals with
  | [] => true
  | _ => negb (any_truthy row_vals)
  end.

(** [headers = [("" if c.value is None else str(c.value)) for c in ws[1]]] *)
Definition xlsx_headers (cells : list value) : list str :=
  map (fun c => match c with VNone => [] | _ => py_str P c end) cells.

(** [dict(zip(headers, row_vals))], as the raw record [normalize_row]
    iterates over. *)
Definition zip_dict (headers : list str) (row_vals : list value) : raw_record :=
  map (fun kv => (Some (fst kv), snd kv))
    (fold_left (fun d kv => dict_set d (fst kv) (snd kv))
       (combine headers row_vals) []).

Definition xlsx_body (headers : list str) (st : state) (row_vals : list value)
  : state * option row :=
  if xlsx_blank row_vals then (st, None)
  else process st (zip_dict headers row_vals).

(** [raw.items()] of a JSON object. *)
Definition dict_items (d : list (str * value)) : raw_record :=
  map (fun kv => (Some (fst kv), snd kv)) d.

Definition json_body (st : state) (raw : value) : state * option row :=
  if negb (truthy raw) then (st, None)
  else
    match raw with
    | VDict d =>
        if negb (any_truthy (map snd d)) then (st, None)
        else process st (dict_items d)
    | _ => (add_logs st [LogJsonNotDict raw], None)
    end.

Definition jsonl_body (st : state) (line : str) : state * option row :=
  let line := strip line in
  match line with
  | [] => (st, None)
  | _ =>
      match json_loads P line with
      | inl e =>
          (record_invalid_sink st [(RAW_KEY, VStr line)]
             [lit "json_decode:" ++ e], None)
      | inr (VDict d) => process st (dict_items d)
      | inr _ =>
          (record_invalid_sink st [(RAW_KEY, VStr line)]
             [lit "json_not_object"], None)
      end
  end.

Variable E : environment.
Variable file_path : str.

Definition the_path : path := Path file_path.

(** [read_csv()] *)
Definition read_csv (st : state) : reader_result :=
  run_source csv_body st
    (csv_open E the_path (csv_encoding o) (csv_delimiter o)).

(** [read_xlsx()] *)
Definition read_xlsx (st : state) : reader_result :=
  match xlsx_open E the_path with
  | inl e => (st, [], Some e)
  | inr (cells, rows) => run_source (xlsx_body (xlsx_headers cells)) st rows
  end.

(** [read_json()] *)
Definition read_json (st : state) : reader_result :=
  match json_open E the_path with
  | inl e => (st, [], Some e)
  | inr data =>
      let items := match data with VList l => l | _ => [data] end in
      run_source json_body st (mk_source items None)
  end.

(** [read_jsonl()] *)
Definition read_jsonl (st : state) : reader_result :=
  run_source jsonl_body st (jsonl_open E the_path).
End Pipeline.

(** ** The driver *)

(** The value a [return] of [read_data] hands to [StopIteration]. *)
Inductive retval :=
| RNone
| RList (rows : list row)
| RDataFrame (rows : list row).

(** What a caller that drains the generator observes. *)
Record generator_run := mk_run {
  (** the items [for item in read_data(...)] receives, in order *)
  yielded : list row;
  (** [StopIteration.value] *)
  stop_value : retval;
  (** the exception that leaves the generator, if any *)
  raised : option exn;
  run_logs : list log_record;
  (** the document [sink.write_text] wrote, with its path *)
  written : option (path * json)
}.

(** What a call expression evaluates to. *)
Inductive pyobject :=
| OList (rows : list row)
| ODataFrame (rows : list row)
| OGenerator (g : generator_run).

Definition UNSUPPORTED : str :=
  lit "Unsupported file format. Use .csv, .xlsx, .json or .jsonl".

Section Driver.
Variable P : platform.
Variable E : environment.
Variable file_path : str.
Variable o : options.

(** [suffix = path.suffix.lower()] *)
Definition suffix : str := str_lower P (path_suffix (the_path file_path)).

(** The [if]/[elif] chain that picks the reader, drained. *)
Definition dispatch (st : state) : reader_result :=
  if str_eqb suffix (lit ".csv") then read_csv P o E file_path st
  else if str_eqb suffix (lit ".xlsx") then read_xlsx P o E file_path st
  else if str_eqb suffix (lit ".json") then read_json P o E file_path st
  else if str_eqb suffix (lit ".jsonl") then read_jsonl P o E file_path st
  else (st, [], Some (ValueError UNSUPPORTED)).

(** The three [except] clauses around the dispatch and the loop. *)
Definition handle (e : exn) : log_record :=
  match e with
  | FileNotFoundError _ => LogFileNotFound file_path
  | PermissionError _ => LogPermissionDenied file_path
  | _ => LogUnexpected file_path e
  end.

(** [Path(invalid_sink_path) if invalid_sink_path
     else path.with_suffix(".invalid.json")] *)
Definition sink_path : exn + path :=
  match invalid_sink_path o with
  | Some ((_ :: _) as s) => inr (Path s)
  | _ => with_suffix (the_path file_path) (lit ".invalid.json")
  end.

(** The [if invalid_rows:] block.  An exception of [with_suffix] or of
    [mkdir] is not caught. *)
Definition flush (st : state) : exn + (state * option (path * json)) :=
  match invalid_rows st with
  | [] => inr (st, None)
  | _ :: _ =>
      match sink_path with
      | inl e => inl e
      | inr sink =>
          match mkdir_parent E sink with
          | Some e => inl e
          | None =>
              match json_dumps (invalid_rows st) with
              | inl e => inr (add_logs st [LogSinkFailed sink e], None)
              | inr doc =>
                  match write_text E sink with
                  | Some e => inr (add_logs st [LogSinkFailed sink e], None)
                  | None =>
                      inr (add_logs st
                             [LogInvalidSaved (List.length (invalid_rows st)) sink],
                           Some (sink, doc))
                  end
              end
          end
      end
  end.

(** The [return] statements that end the body. *)
Definition finish (st : state) : state * retval :=
  if return_dataframe o then
    match pandas_import E with
    | Some e =>
        (add_logs st [LogPandasMissing e],
         RList (if as_list o then out_rows st else []))
    | None => (st, RDataFrame (out_rows st))
    end
  else if as_list o then (st, RList (out_rows st))
  else (st, RNone).

(** The body of [read_data], run to its end. *)
Definition read_data_body : generator_run :=
  let st0 :=
    mk_state [] []
      (if progress o && negb (tqdm_available E) then [LogTqdmMissing] else []) in
  let '(st1, items, ex) := dispatch st0 in
  (* [for _ in iterator: pass] against [for item in iterator: yield item] *)
  let ys := if want_list o then [] else items in
  let st2 :=
    match ex with
    | Some e => add_logs st1 [handle e]
    | None => st1
    end in
  match flush st2 with
  | inl e => mk_run ys RNone (Some e) (logs st2) None
  | inr (st3, w) =>
      let (st4, v) := finish st3 in
      mk_run ys v None (logs st4) w
  end.

(** [read_data(file_path, ...)]: the body holds a [yield], so the call
    builds a generator whatever the flags are. *)
Definition read_data : pyobject := OGenerator read_data_body.
End Driver.

(** [list(obj)] for what a call returned: the elements of a list, or the
    items a generator yields. *)
Definition py_list (obj : pyobject) : option (list row) :=
  match obj with
  | OList rows => Some rows
  | OGenerator g => Some (yielded g)
  | ODataFrame _ => None
  end.

(** ** The header normaliser as the specification words it *)

(** Every run of spaces becomes one separator. *)
Fixpoint collapse_spaces (s : str) : str :=
  match s with
  | [] => []
  | c :: r =>
      if N.eqb c SPACE then
        match r with
        | c' :: _ =>
            if N.eqb c' SPACE then collapse_spaces r
            else UNDERSCORE :: collapse_spaces r
        | [] => [UNDERSCORE]
        end
      else c :: collapse_spaces r
  end.

(** Decompose, drop what is not ASCII, trim, lowercase, then replace each
    run of spaces by a single separator. *)
Definition normalize_header_spec (P : platform) (header : str) : str :=
  match header with
  | [] => []
  | _ => collapse_spaces (str_lower P (strip (ascii_ignore (nfkd P header))))
  end.

(** Two spaces side by side. *)
Fixpoint has_space_run (s : str) : bool :=
  match s with
  | c :: (c' :: _) as r => (N.eqb c SPACE && N.eqb c' SPACE) || has_space_run r
  | _ => false
  end.

(** [count(c)] *)
Definition count_char (c : N) (s : str) : nat :=
  List.length (filter (N.eqb c) s).

(** [small] can be obtained from [big] by deleting elements. *)
Inductive subsequence (A : Type) : list A -> list A -> Prop :=
| subseq_nil : subsequence [] []
| subseq_skip x small big : subsequence small big -> subsequence small (x :: big)
| subseq_keep x small big :
    subsequence small big -> subsequence (x :: small) (x :: big).

(** ** The validator and the sink as the specification words them *)

(** Every required name maps to a present, truthy value. *)
Definition required_present (P : platform) (o : options) (r : row) : Prop :=
  forall f, In f (req P o) ->
    exists v, dict_get r f = Some v /\ truthy v = true.

(** A field counts as missing when absent or present with a falsy value. *)
Definition field_missing (r : row) (f : str) : Prop :=
  dict_get r f = None \/ exists v, dict_get r f = Some v /\ truthy v = false.

(** The entry the sink holds for a record rejected for [missing] fields. *)
Definition rejected_entry (P : platform) (o : options) (r : row) : row :=
  dict_set r ERRORS_KEY
    (VList (map VStr (missing_reasons (snd (is_valid P o r))))).

(** The records a format's reader hands to the validator: one canonical
    record per raw record that is neither blank nor malformed. *)
Definition canonical (P : platform) (o : options) (raws : list raw_record)
  : list row :=
  map (fun raw => fst (normalize_row P o raw)) raws.

Definition csv_raws (src : list raw_record) : list raw_record :=
  filter (fun raw => negb (csv_blank raw)) src.

Definition xlsx_raws (headers : list str) (src : list (list value))
  : list raw_record :=
  map (zip_dict headers) (filter (fun vals => negb (xlsx_blank vals)) src).

Definition json_raw (v : value) : option raw_record :=
  match v with
  | VDict d =>
      if truthy v && any_truthy (map snd d) then Some (dict_items d) else None
  | _ => None
  end.

Fixpoint filter_map (A B : Type) (f : A -> option B) (l : list A) : list B :=
  match l with
  | [] => []
  | x :: r =>
      match f x with
      | Some y => y :: filter_map f r
      | None => filter_map f r
      end
  end.

Definition jsonl_raw (P : platform) (line : str) : option raw_record :=
  match strip line with
  | [] => None
  | l =>
      match json_loads P l with
      | inr (VDict d) => Some (dict_items d)
      | _ => None
      end
  end.

(** What a drained reader holds for the caller: the private [out_rows]
    when materialising, the items it yielded when streaming. *)
Definition accepted (o : options) (res : reader_result) : list row :=
  let '(st, ys, _) := res in
  if want_list o then out_rows st else ys.

Definition rejected (res : reader_result) : list row :=
  let '(st, _, _) := res in invalid_rows st.

Definition EMPTY : state := mk_state [] [] [].

(** [json.dumps] of the fields of one dictionary. *)
Fixpoint fields_to_json (d : list (str * value)) : option (list (str * json)) :=
  match d with
  | [] => Some []
  | (k, x) :: r =>
      match to_json x, fields_to_json r with
      | Some j, Some js => Some ((k, j) :: js)
      | _, _ => None
      end
  end.

Definition serialisable (r : row) : bool :=
  match fields_to_json r with Some _ => true | None => false end.

(** The object the sink's document holds for a record and its reasons. *)
Definition sink_object (fields : list (str * json)) (reasons : list str)
  : json :=
  JObject (dict_set fields ERRORS_KEY (JArray (map JString reasons))).

(** The four source formats. *)
Inductive format := Csv | Xlsx | Json | Jsonl.

(** The format a lowercased suffix selects. *)
Definition format_of_suffix (suffix : str) : option format :=
  if str_eqb suffix (lit ".csv") then Some Csv
  else if str_eqb suffix (lit ".xlsx") then Some Xlsx
  else if str_eqb suffix (lit ".json") then Some Json
  else if str_eqb suffix (lit ".jsonl") then Some Jsonl
  else None.

Section Records.
Variable P : platform.
Variable o : options.
Variable E : environment.
Variable file_path : str.

(** The reader of a format, drained. *)
Definition reader (f : format) (st : state) : reader_result :=
  match f with
  | Csv => read_csv P o E file_path st
  | Xlsx => read_xlsx P o E file_path st
  | Json => read_json P o E file_path st
  | Jsonl => read_jsonl P o E file_path st
  end.

(** The raw records of the source that are neither blank nor malformed,
    that is, those a canonical record is made of. *)
Definition raws_read (f : format) : list raw_record :=
  let path := the_path file_path in
  match f with
  | Csv =>
      csv_raws (items (csv_open E path (csv_encoding o) (csv_delimiter o)))
  | Xlsx =>
      match xlsx_open E path with
      | inr (cells, rows) => xlsx_raws (xlsx_headers P cells) (items rows)
      | inl _ => []
      end
  | Json =>
      match json_open E path with
      | inr (VList l) => filter_map json_raw l
      | inr data => filter_map json_raw [data]
      | inl _ => []
      end
  | Jsonl => filter_map (jsonl_raw P) (items (jsonl_open E path))
  end.

(** The canonical records of the source. *)
Definition records_read (f : format) : list row :=
  canonical P o (raws_read f).
End Records.

(** [json.dumps] of the rows of the sink, one object per row. *)
Fixpoint objects_of (rows : list row) : option (list json) :=
  match rows with
  | [] => Some []
  | r :: rest =>
      match fields_to_json r, objects_of rest with
      | Some fields, Some js => Some (JObject fields :: js)
      | _, _ => None
      end
  end.

(** A sink entry carries a non-empty list of reasons under [_errors]. *)
Definition has_reasons (r : row) : Prop :=
  exists reasons,
    reasons <> [] /\ dict_get r ERRORS_KEY = Some (VList (map VStr reasons)).

(** Recording rejected records one after the other. *)
Definition record_all (st : state) (recs : list (row * list str)) : state :=
  fold_left (fun s rr => record_invalid_sink s (fst rr) (snd rr)) recs st.

(** [is_valid] answers [ok]. *)
Definition valid (P : platform) (o : options) (r : row) : bool :=
  fst (is_valid P o r).

(** A loop body either hands a raw record to [process] or leaves the
    accepted rows alone and yields nothing. *)
Definition classifies (P : platform) (o : options) (A : Type)
  (body : state -> A -> state * option row)
  (reach : A -> option raw_record) : Prop :=
  forall st x,
    match reach x with
    | Some raw => body st x = process P o st raw
    | None =>
        exists extra lg,
          body st x
          = (mk_state (out_rows st) (invalid_rows st ++ extra)
               (logs st ++ lg), None)
    end.

(** The state the body of [read_data] starts its readers in. *)
Definition start (E : environment) (o : options) : state :=
  mk_state [] []
    (if progress o && negb (tqdm_available E) then [LogTqdmMissing] else []).

(** Every entry of the sink carries at least one reason. *)
Definition reasoned (st : state) : Prop := Forall has_reasons (invalid_rows st).

(** The sink can be written: each of its entries is serialisable. *)
Definition writable (st : state) : Prop :=
  Forall (fun r => serialisable r = true) (invalid_rows st).

(** ** The date policy as the specification words it *)

(** [YYYY-MM-DD] *)
Definition iso_date (y m d : Z) : str :=
  pad4 y ++ [HYPHEN] ++ pad2 m ++ [HYPHEN] ++ pad2 d.

(** [DD/MM/YYYY] *)
Definition dmy_date (y m d : Z) : str :=
  pad2 d ++ [SLASH] ++ pad2 m ++ [SLASH] ++ pad4 y.


(** The integers [lo], [lo + 1], ..., [lo + n - 1]. *)
Definition zrange (lo : Z) (n : nat) : list Z :=
  map (fun i => (lo + Z.of_nat i)%Z) (seq 0 n).

(** ** A platform to evaluate examples on *)

(** The canonical decompositions of the Turkish letters outside ASCII
    (UnicodeData.txt); the dotless i, U+0131, has none. *)
Definition turkish_decompositions : list (N * str) :=
  [ (199, [67; 807]); (231, [99; 807]);      (* C, c with cedilla *)
    (286, [71; 774]); (287, [103; 774]);     (* G, g with breve *)
    (304, [73; 775]);                        (* I with dot above *)
    (214, [79; 776]); (246, [111; 776]);     (* O, o with diaeresis *)
    (350, [83; 807]); (351, [115; 807]);     (* S, s with cedilla *)
    (220, [85; 776]); (252, [117; 776]) ]%N. (* U, u with diaeresis *)

(** The lowercase mappings of the same letters. *)
Definition turkish_lowercase : list (N * str) :=
  [ (199, [231]); (286, [287]); (304, [105; 775]); (214, [246]);
    (350, [351]); (220, [252]) ]%N.

Definition table_get (t : list (N * str)) (c : N) : str :=
  if is_ascii c then [c]
  else
    match find (fun e => N.eqb (fst e) c) t with
    | Some e => snd e
    | None => [c]
    end.

(** NFKD of a string over ASCII and the Turkish alphabet: no character of
    that range carries more than one mark, so nothing is reordered. *)
Definition nfkd_turkish (s : str) : str :=
  flat_map (table_get turkish_decompositions) s.

Definition lower_turkish (s : str) : str :=
  flat_map (fun c => if is_ascii c then [ascii_lower c]
                     else table_get turkish_lowercase c) s.

(** ASCII and Arabic-Indic digits. *)
Definition digit_value (c : N) : option N :=
  if N.leb 48 c && N.leb c 57 then Some (c - 48)%N
  else if N.leb 1632 c && N.leb c 1641 then Some (c - 1632)%N
  else None.

(** [str(v)] for [None], booleans, integers and strings; the examples
    hold no other value, and this instance gives those the empty
    string. *)
Definition str_scalar (v : value) : str :=
  match v with
  | VNone => lit "None"
  | VBool true => lit "True"
  | VBool false => lit "False"
  | VInt z => lit (NilEmpty.string_of_int (Z.to_int z))
  | VStr s => s
  | _ => []
  end.

Definition QUOTE : N := 34.

Definition quoted (s : str) : str := [QUOTE] ++ s ++ [QUOTE].

(** The line [{"name":"A"}]. *)
Definition LINE_NAME_A : str :=
  lit "{" ++ quoted (lit "name") ++ lit ":" ++ quoted (lit "A") ++ lit "}".

(** The line [{bad json]. *)
Definition LINE_BAD : str := lit "{bad json".

(** The line [{"name": ""}]. *)
Definition LINE_NAME_EMPTY : str :=
  lit "{" ++ quoted (lit "name") ++ lit ": " ++ quoted [] ++ lit "}".

(** The line [[1, 2]]. *)
Definition LINE_ARRAY : str := lit "[1, 2]".

(** [json.loads] on the lines above; any other text is taken to hold no
    JSON value at all. *)
Definition loads_examples (s : str) : str + value :=
  if str_eqb s LINE_NAME_A then inr (VDict [(lit "name", VStr (lit "A"))])
  else if str_eqb s LINE_NAME_EMPTY then inr (VDict [(lit "name", VStr [])])
  else if str_eqb s LINE_ARRAY then inr (VList [VInt 1; VInt 2])
  else if str_eqb s LINE_BAD then
    inl (lit "Expecting property name enclosed in double quotes: line 1 column 2 (char 1)")
  else inl (lit "Expecting value: line 1 column 1 (char 0)").

Lemma nfkd_turkish_ascii :
  forall s, forallb is_ascii s = true -> nfkd_turkish s = s.
Proof.
  induction s as [|c s IH]; simpl; intros H; [reflexivity|].
  apply andb_prop in H as [Hc Hs].
  unfold table_get at 1. rewrite Hc. simpl. f_equal. apply IH, Hs.
Qed.

Lemma lower_turkish_ascii :
  forall s, forallb is_ascii s = true -> lower_turkish s = map ascii_lower s.
Proof.
  induction s as [|c s IH]; simpl; intros H; [reflexivity|].
  apply andb_prop in H as [Hc Hs].
  rewrite Hc. simpl. f_equal. apply IH, Hs.
Qed.

Lemma digit_value_ascii :
  forall c, is_ascii c = true ->
    digit_value c = if N.leb 48 c && N.leb c 57 then Some (c - 48)%N else None.
Proof.
  intros c Hc. unfold digit_value.
  destruct (N.leb 48 c && N.leb c 57); [reflexivity|].
  unfold is_ascii in Hc. apply N.ltb_lt in Hc.
  replace (N.leb 1632 c) with false; [reflexivity|].
  symmetry. apply N.leb_gt. lia.
Qed.

(** CPython on a glibc system, as far as the examples go. *)
Definition cpython : platform :=
  mk_platform nfkd_turkish nfkd_turkish_ascii lower_turkish lower_turkish_ascii
    digit_value digit_value_ascii str_scalar (fun s => eq_refl) false
    loads_examples.

(** ** Environments of the examples *)

Definition no_such_file : exn :=
  FileNotFoundError (lit "[Errno 2] No such file or directory").

(** Nothing on disk; tqdm and pandas installed; the sink writable. *)
Definition bare : environment :=
  mk_environment
    (fun _ _ _ => mk_source [] (Some no_such_file))
    (fun _ => inl no_such_file)
    (fun _ => inl no_such_file)
    (fun _ => mk_source [] (Some no_such_file))
    true None (fun _ => None) (fun _ => None).

(** [bare] with one delimited-text file, whatever its name. *)
Definition with_csv (rows : list raw_record) : environment :=
  mk_environment
    (fun _ _ _ => mk_source rows None)
    (xlsx_open bare) (json_open bare) (jsonl_open bare)
    true None (fun _ => None) (fun _ => None).

(** [bare] with one newline-delimited JSON file. *)
Definition with_jsonl (lines : list str) : environment :=
  mk_environment
    (csv_open bare) (xlsx_open bare) (json_open bare)
    (fun _ => mk_source lines None)
    true None (fun _ => None) (fun _ => None).

(** [bare] with one spreadsheet. *)
Definition with_xlsx (cells : list value) (rows : list (list value))
  : environment :=
  mk_environment
    (csv_open bare) (fun _ => inr (cells, mk_source rows None))
    (json_open bare) (jsonl_open bare)
    true None (fun _ => None) (fun _ => None).

(** [bare] with one JSON document. *)
Definition with_json (data : value) : environment :=
  mk_environment
    (csv_open bare) (xlsx_open bare) (fun _ => inr data) (jsonl_open bare)
    true None (fun _ => None) (fun _ => None).

(** The defaults, with the given required fields. *)
Definition requiring (fields : list str) : options :=
  mk_options false false true None (Some fields) None DFNone
    (lit "utf-8") (lit ",") (Some (lit "Errors/errors.json")) true.

(** The defaults, with [as_list=True]. *)
Definition listing : options :=
  mk_options true false true None None None DFNone
    (lit "utf-8") (lit ",") (Some (lit "Errors/errors.json")) true.

Definition AYSE : str := lit "Ay" ++ [351%N] ++ lit "e".
Definition YILMAZ : str := lit "Y" ++ [305%N] ++ lit "lmaz".

(** The header [Adı Soyadı]. *)
Definition ADI_SOYADI : str :=
  lit "Ad" ++ [305%N] ++ lit " Soyad" ++ [305%N].

(** Scenario A: header [Name,Surname,Birth Date], one client and one
    blank row. *)
Definition scenario_A_rows : list raw_record :=
  [ [ (Some (lit "Name"), VStr AYSE); (Some (lit "Surname"), VStr YILMAZ);
      (Some (lit "Birth Date"), VStr (lit "1990-05-01")) ];
    [ (Some (lit "Name"), VStr []); (Some (lit "Surname"), VStr []);
      (Some (lit "Birth Date"), VStr []) ] ].

Definition scenario_A_options : options :=
  mk_options false false true None
    (Some [lit "name"; lit "surname"]) (Some [lit "birth_date"])
    DFNone (lit "utf-8") (lit ",") (Some (lit "Errors/errors.json")) true.


(** ** Substrings *)

(** [s.startswith(prefix)] *)
Fixpoint starts_with (prefix s : str) : bool :=
  match prefix, s with
  | [], _ => true
  | p :: prefix', c :: s' => N.eqb p c && starts_with prefix' s'
  | _ :: _, [] => false
  end.

(** [sub in s] *)
Fixpoint contains (sub s : str) : bool :=
  match s with
  | [] => starts_with sub []
  | _ :: s' => starts_with sub s || contains sub s'
  end.

(** The scan of [s.replace(old, new)] for a non-empty [old], from left to
    right over non-overlapping matches; [skip] counts the characters of
    the last match still to be passed over. *)
Fixpoint replace_scan (old new : str) (skip : nat) (s : str) : str :=
  match s with
  | [] => []
  | c :: r =>
      match skip with
      | S k => replace_scan old new k r
      | O =>
          if starts_with old s
          then new ++ replace_scan old new (List.length old - 1) r
          else c :: replace_scan old new 0 r
      end
  end.

(** [s.replace(old, new)]; an empty [old] matches before every character
    and at the end. *)
Definition str_replace (old new s : str) : str :=
  match old with
  | [] => new ++ flat_map (fun c => c :: new) s
  | _ :: _ => replace_scan old new 0 s
  end.

(** ** More of [pathlib] *)

(** [sep.join(l)] *)
Fixpoint join (sep : N) (l : list str) : str :=
  match l with
  | [] => []
  | [x] => x
  | x :: r => x ++ sep :: join sep r
  end.

(** [str(p)] *)
Definition path_str (p : path) : str :=
  match anchor p, parts p with
  | [], [] => [DOT]
  | a, ps => a ++ join SLASH ps
  end.

(** [p / s]: an absolute [s] replaces [p]. *)
Definition path_join (p : path) (s : str) : path :=
  let q := Path s in
  match anchor q with
  | [] => mk_path (anchor p) (parts p ++ parts q)
  | _ :: _ => q
  end.

(** ** The file of a contract: [build_filename] *)

Section Filenames.
Variable P : platform.

(** [(str(data.get(key, default)) or default).strip()] *)
Definition name_part (data : row) (key default : str) : str :=
  let s :=
    py_str P (match dict_get data key with
              | Some v => v
              | None => VStr default
              end) in
  strip (match s with [] => default | _ :: _ => s end).

(** [f"{name}_{surname}.docx"] *)
Definition docx_name (data : row) : str :=
  name_part data (lit "name") (lit "noname")
  ++ lit "_" ++ name_part data (lit "surname") (lit "nosurname")
  ++ lit ".docx".

(** [build_filename(data, out_dir)] *)
Definition build_filename (data : row) (out_dir : str) : path :=
  path_join (Path out_dir) (docx_name data).

(** ** Filling a template: the loop body of [fill_contract] *)

Definition LBRACE : N := 123.
Definition RBRACE : N := 125.

(** ["{" + key + "}"] *)
Definition placeholder (key : str) : str := [LBRACE] ++ key ++ [RBRACE].

(** The runs of a paragraph, each by its text. *)
Definition paragraph := list str.

(** [p.text]: the text of the runs, joined. *)
Definition paragraph_text (p : paragraph) : str := List.concat p.

(** The characters lxml takes in the text of an element: tab, line feed,
    carriage return, and from U+0020 on all but the surrogates, U+FFFE and
    U+FFFF. *)
Definition xml_char (c : N) : bool :=
  N.eqb c 9 || N.eqb c 10 || N.eqb c 13
  || (N.leb 32 c && negb (N.leb 55296 c && N.leb c 57343)
      && negb (N.eqb c 65534) && negb (N.eqb c 65535)).

(** What [run.text] reads after an assignment: python-docx stores a
    carriage return as a line break, which reads as a line feed. *)
Definition stored_text (text : str) : str :=
  map (fun c => if N.eqb c 13 then 10%N else c) text.

(** The message of lxml for a text it does not take. *)
Definition NOT_XML : str :=
  lit "All strings must be XML compatible: "
  ++ lit "Unicode or ASCII, no NULL bytes or control characters".

(** [run.text = text]: the text the run then holds, or the [ValueError]
    of lxml for a character it does not take (for a surrogate, one of
    its subclass [UnicodeEncodeError], with a message of its own). *)
Definition set_run_text (text : str) : exn + str :=
  if forallb xml_char text then inr (stored_text text)
  else inl (ValueError NOT_XML).

(** A loop over [l] from the left, ended by the first exception. *)
Fixpoint each (A B : Type) (f : A -> exn + B) (l : list A) : exn + list B :=
  match l with
  | [] => inr []
  | x :: r =>
      match f x with
      | inl e => inl e
      | inr y =>
          match each f r with
          | inl e => inl e
          | inr ys => inr (y :: ys)
          end
      end
  end.

(** [if placeholder in run.text:
       run.text = run.text.replace(placeholder, str(value))] *)
Definition fill_run (ph new : str) (run : str) : exn + str :=
  if contains ph run then set_run_text (str_replace ph new run) else inr run.

(** One item of [data.items()] on one paragraph: the runs that hold the
    placeholder have it replaced, provided the paragraph's text holds it.
    An exception of an assignment is not caught. *)
Definition fill_item (p : paragraph) (kv : str * value) : exn + paragraph :=
  let ph := placeholder (fst kv) in
  if contains ph (paragraph_text p) then
    each (fill_run ph (py_str P (snd kv))) p
  else inr p.

(** [for key, value in data.items(): ...] on one paragraph. *)
Definition fill_paragraph (data : row) (p : paragraph) : exn + paragraph :=
  fold_left
    (fun acc kv =>
       match acc with
       | inr p' => fill_item p' kv
       | inl e => inl e
       end) data (inr p).

(** A table by its rows, their cells, and the paragraphs of each cell. *)
Definition table := list (list (list paragraph)).

(** What [fill_contract] visits of a [docx.Document]. *)
Record document := mk_document {
  doc_paragraphs : list paragraph;
  doc_tables : list table
}.

(** The two replacement loops of [fill_contract] for one record: the
    paragraphs of the body, then the tables. *)
Definition fill_document (data : row) (doc : document) : exn + document :=
  match each (fill_paragraph data) (doc_paragraphs doc) with
  | inl e => inl e
  | inr ps =>
      match each (each (each (each (fill_paragraph data)))) (doc_tables doc) with
      | inl e => inl e
      | inr ts => inr (mk_document ps ts)
      end
  end.

(** [out_pdf = str(out_docx).replace(".docx", ".pdf")] *)
Definition pdf_path (out_docx : path) : str :=
  str_replace (lit ".docx") (lit ".pdf") (path_str out_docx).

(** [final_pdf = out_pdf.replace(".pdf", "_with_logo.pdf")] *)
Definition logo_pdf_path (out_pdf : str) : str :=
  str_replace (lit ".pdf") (lit "_with_logo.pdf") out_pdf.
End Filenames.

(** [Q] holds of every paragraph [fill_contract] visits. *)
Definition doc_all (Q : paragraph -> Prop) (doc : document) : Prop :=
  Forall Q (doc_paragraphs doc)
  /\ Forall (Forall (Forall (Forall Q))) (doc_tables doc).

(** ** Variations of the arguments *)

Definition with_progress (b : bool) (o : options) : options :=
  mk_options (as_list o) (return_dataframe o) (normalize_headers o)
    (column_map o) (required_fields o) (date_fields o) (date_formatter_arg o)
    (csv_encoding o) (csv_delimiter o) (invalid_sink_path o) b.

Definition with_normalize_headers (b : bool) (o : options) : options :=
  mk_options (as_list o) (return_dataframe o) b
    (column_map o) (required_fields o) (date_fields o) (date_formatter_arg o)
    (csv_encoding o) (csv_delimiter o) (invalid_sink_path o) (progress o).

Definition with_as_list (b : bool) (o : options) : options :=
  mk_options b (return_dataframe o) (normalize_headers o)
    (column_map o) (required_fields o) (date_fields o) (date_formatter_arg o)
    (csv_encoding o) (csv_delimiter o) (invalid_sink_path o) (progress o).

(** A month or a day written without a leading zero. *)
Definition short2 (z : Z) : str :=
  if Z.ltb z 10 then [digit_char z] else pad2 z.

(** The state with [lg] logged before everything else. *)
Definition logged_first (lg : list log_record) (st : state) : state :=
  mk_state (out_rows st) (invalid_rows st) (lg ++ logs st).

(** The last item of a raw record that [normalize_row] files under [k]. *)
Definition last_under (P : platform) (o : options) (raw : raw_record)
  (k : str) : option (option str * value) :=
  find (fun kv => str_eqb (new_key P o (fst kv)) k) (rev raw).

(** [s.isspace()] or [s] is empty. *)
Definition all_space (s : str) : bool := forallb py_isspace s.

(** [isinstance(v, dict)] *)
Definition is_object (v : value) : bool :=
  match v with VDict _ => true | _ => false end.

(** The items [read_json] warned about, in the order of the log. *)
Definition not_dict_logged (lg : list log_record) : list value :=
  filter_map (fun r => match r with LogJsonNotDict v => Some v | _ => None end)
    lg.

(** ** More environments *)

Definition denied : exn := PermissionError (lit "[Errno 13] Permission denied").

(** [with_csv] where the directory of the sink cannot be created. *)
Definition with_csv_sealed (rows : list raw_record) : environment :=
  mk_environment
    (fun _ _ _ => mk_source rows None)
    (xlsx_open bare) (json_open bare) (jsonl_open bare)
    true None (fun _ => Some denied) (fun _ => None).

(** [with_csv] where reading stops on an error after [rows]. *)
Definition with_csv_broken (rows : list raw_record) (e : exn) : environment :=
  mk_environment
    (fun _ _ _ => mk_source rows (Some e))
    (xlsx_open bare) (json_open bare) (jsonl_open bare)
    true None (fun _ => None) (fun _ => None).

(** [with_csv] without pandas. *)
Definition with_csv_no_pandas (rows : list raw_record) : environment :=
  mk_environment
    (fun _ _ _ => mk_source rows None)
    (xlsx_open bare) (json_open bare) (jsonl_open bare)
    true (Some (OtherError (lit "No module named 'pandas'")))
    (fun _ => None) (fun _ => None).

(** * Properties *)

(** ** Strings and dictionaries *)

Lemma str_eqb_eq : forall a b, str_eqb a b = true <-> a = b.
Proof.
  induction a as [|x a IH]; destruct b as [|y b]; simpl; split;
    try reflexivity; try discriminate.
  - intros H. apply andb_prop in H as [Hx Hr].
    apply N.eqb_eq in Hx. apply IH in Hr. congruence.
  - intros H. injection H as -> ->. rewrite N.eqb_refl. simpl. now apply IH.
Qed.

Lemma str_eqb_refl : forall a, str_eqb a a = true.
Proof. intros a. now apply str_eqb_eq. Qed.

Lemma str_eqb_neq : forall a b, str_eqb a b = false <-> a <> b.
Proof.
  intros a b. split.
  - intros H E. apply str_eqb_eq in E. congruence.
  - intros H. destruct (str_eqb a b) eqn:E; [|reflexivity].
    apply str_eqb_eq in E. contradiction.
Qed.

Lemma str_eqb_sym : forall a b, str_eqb a b = str_eqb b a.
Proof.
  intros a b. destruct (str_eqb a b) eqn:E.
  - apply str_eqb_eq in E. subst. symmetry. apply str_eqb_refl.
  - apply str_eqb_neq in E. symmetry. apply str_eqb_neq. congruence.
Qed.

Ltac str_cases :=
  repeat match goal with
  | H : str_eqb _ _ = true |- _ => apply str_eqb_eq in H; subst
  | H : str_eqb _ _ = false |- _ => apply str_eqb_neq in H
  end.

Section DictFacts.
Variable V : Type.
Implicit Types (d : dict V) (k : str) (v : V).

Lemma dict_get_set_same : forall d k v, dict_get (dict_set d k v) k = Some v.
Proof.
  induction d as [|[k' v'] d IH]; intros k v; simpl.
  - now rewrite str_eqb_refl.
  - destruct (str_eqb k' k) eqn:E; simpl; rewrite E; [reflexivity|apply IH].
Qed.

Lemma dict_get_set_other :
  forall d k k' v, k <> k' -> dict_get (dict_set d k v) k' = dict_get d k'.
Proof.
  induction d as [|[k0 v0] d IH]; intros k k' v Hne; simpl.
  - destruct (str_eqb k k') eqn:E; [str_cases; contradiction|reflexivity].
  - destruct (str_eqb k0 k) eqn:E; simpl.
    + str_cases. destruct (str_eqb k k') eqn:E'; [str_cases; contradiction|].
      reflexivity.
    + destruct (str_eqb k0 k'); [reflexivity|]. now apply IH.
Qed.

Lemma dict_get_In_keys :
  forall d k, In k (keys d) <-> dict_get d k <> None.
Proof.
  induction d as [|[k0 v0] d IH]; intros k; simpl.
  - split; [contradiction|congruence].
  - destruct (str_eqb k0 k) eqn:E.
    + str_cases. split; [discriminate|auto].
    + str_cases. rewrite <- IH. split; [intros [H|H]; [contradiction|exact H]|auto].
Qed.

Lemma keys_dict_set :
  forall d k v,
    keys (dict_set d k v) = if dict_mem d k then keys d else keys d ++ [k].
Proof.
  unfold dict_mem.
  induction d as [|[k0 v0] d IH]; intros k v; simpl; [reflexivity|].
  destruct (str_eqb k0 k) eqn:E; simpl; [reflexivity|].
  rewrite IH. now destruct (dict_get d k).
Qed.

Lemma In_keys_dict_set :
  forall d k v k', In k' (keys (dict_set d k v)) <-> k' = k \/ In k' (keys d).
Proof.
  intros d k v k'. rewrite keys_dict_set. unfold dict_mem.
  destruct (dict_get d k) eqn:G.
  - split; [auto|]. intros [->|H]; [|exact H].
    apply dict_get_In_keys. congruence.
  - rewrite in_app_iff. simpl. intuition.
Qed.

Lemma length_dict_set_keys :
  forall d k v, dict_mem d k = true -> keys (dict_set d k v) = keys d.
Proof. intros d k v H. now rewrite keys_dict_set, H. Qed.

(** With distinct keys a lookup sees the pair, wherever it stands. *)
Lemma dict_get_In :
  forall d k v, NoDup (keys d) -> In (k, v) d -> dict_get d k = Some v.
Proof.
  induction d as [|[k0 v0] d IH]; intros k v Hnd Hin; [contradiction|].
  simpl in *. inversion Hnd as [|? ? Hnot Hnd']; subst.
  destruct Hin as [E|Hin].
  - injection E as -> ->. now rewrite str_eqb_refl.
  - destruct (str_eqb k0 k) eqn:E; [|now apply IH].
    str_cases. exfalso. apply Hnot. unfold keys.
    change k with (fst (k, v)). now apply in_map.
Qed.

Lemma dict_get_Some_In :
  forall d k v, dict_get d k = Some v -> In (k, v) d.
Proof.
  induction d as [|[k0 v0] d IH]; intros k v; simpl; [discriminate|].
  destruct (str_eqb k0 k) eqn:E.
  - str_cases. intros H. injection H as ->. now left.
  - intros H. right. now apply IH.
Qed.

Lemma dict_get_permutation :
  forall d d' k,
    NoDup (keys d) -> Permutation d d' -> dict_get d k = dict_get d' k.
Proof.
  intros d d' k Hnd Hp.
  assert (Hnd' : NoDup (keys d')).
  { unfold keys. eapply Permutation_NoDup; [|exact Hnd].
    now apply Permutation_map. }
  destruct (dict_get d k) eqn:G.
  - symmetry. apply dict_get_In; [exact Hnd'|].
    eapply Permutation_in; [exact Hp|]. now apply dict_get_Some_In.
  - destruct (dict_get d' k) eqn:G'; [|reflexivity].
    apply dict_get_Some_In in G'.
    apply Permutation_sym in Hp.
    eapply Permutation_in in G'; [|exact Hp].
    apply dict_get_In in G'; [congruence|exact Hnd].
Qed.
End DictFacts.

(** ** [strip] *)

Lemma In_lstrip : forall s c, In c (lstrip s) -> In c s.
Proof.
  induction s as [|x s IH]; simpl; intros c H; [exact H|].
  destruct (py_isspace x); [right; now apply IH|exact H].
Qed.

Lemma In_strip : forall s c, In c (strip s) -> In c s.
Proof.
  intros s c H. unfold strip, rstrip in H.
  apply In_lstrip. apply in_rev. apply In_lstrip. now apply in_rev.
Qed.

Lemma lstrip_head_not_space :
  forall s c r, lstrip s = c :: r -> py_isspace c = false.
Proof.
  induction s as [|x s IH]; simpl; intros c r H; [discriminate|].
  destruct (py_isspace x) eqn:E; [now apply IH in H|].
  injection H as <- _. exact E.
Qed.

Lemma lstrip_fixed :
  forall s, match s with c :: _ => py_isspace c = false | [] => True end ->
    lstrip s = s.
Proof. intros [|c s] H; simpl; [reflexivity|now rewrite H]. Qed.

Lemma lstrip_suffix : forall s, exists pre, s = pre ++ lstrip s.
Proof.
  induction s as [|x s [pre IH]]; simpl.
  - now exists [].
  - destruct (py_isspace x).
    + exists (x :: pre). simpl. now f_equal.
    + now exists [].
Qed.

Lemma strip_trimmed : forall s, trimmed (strip s).
Proof.
  intros s. unfold trimmed, strip, rstrip. rewrite rev_involutive. split.
  - (* the head survives from [lstrip s] unless all of it is dropped *)
    destruct (lstrip_suffix (rev (lstrip s))) as [pre E].
    apply (f_equal (@rev N)) in E. rewrite rev_involutive, rev_app_distr in E.
    destruct (rev (lstrip (rev (lstrip s)))) as [|c r] eqn:R; [exact I|].
    simpl in E. eapply lstrip_head_not_space. exact E.
  - destruct (lstrip (rev (lstrip s))) as [|c r] eqn:R; [exact I|].
    eapply lstrip_head_not_space. exact R.
Qed.

Lemma strip_fixed : forall s, trimmed s -> strip s = s.
Proof.
  intros s [Hh Hl]. unfold strip, rstrip.
  rewrite (lstrip_fixed s Hh), (lstrip_fixed (rev s) Hl).
  apply rev_involutive.
Qed.

Lemma trimmed_map :
  forall (f : N -> N) s,
    (forall c, py_isspace c = false -> py_isspace (f c) = false) ->
    trimmed s -> trimmed (map f s).
Proof.
  intros f s Hf [Hh Hl]. split.
  - destruct s as [|c r]; simpl; auto.
  - rewrite <- map_rev. destruct (rev s) as [|c r]; simpl; auto.
Qed.

(** ** Header normalisation *)

(** Decide the comparisons of a goal about one code point, one at a time. *)
Ltac ncompare :=
  repeat (match goal with
  | |- context [N.leb ?a ?b] =>
      (replace (N.leb a b) with true by (symmetry; apply N.leb_le; lia))
      || (replace (N.leb a b) with false by (symmetry; apply N.leb_gt; lia))
  | |- context [N.ltb ?a ?b] =>
      (replace (N.ltb a b) with true by (symmetry; apply N.ltb_lt; lia))
      || (replace (N.ltb a b) with false by (symmetry; apply N.ltb_ge; lia))
  | |- context [N.eqb ?a ?b] =>
      (replace (N.eqb a b) with true by (symmetry; apply N.eqb_eq; lia))
      || (replace (N.eqb a b) with false by (symmetry; apply N.eqb_neq; lia))
  end; cbn [andb orb negb]; cbv iota).

(** The four kinds of code point [lower] and [replace] tell apart. *)
Lemma char_kinds :
  forall c : N,
    c = SPACE \/ c = UNDERSCORE \/ (65 <= c <= 90)%N
    \/ (c <> SPACE /\ c <> UNDERSCORE /\ (c < 65 \/ 90 < c)%N).
Proof. intros c. unfold SPACE, UNDERSCORE. lia. Qed.

Ltac by_char_kind c :=
  destruct (char_kinds c) as [->|[->|[?|(? & ? & [?|?])]]];
  unfold SPACE, UNDERSCORE in *; ncompare; try reflexivity; try lia.

Lemma replace_lower_map :
  forall s, replace_char SPACE UNDERSCORE (map ascii_lower s) = map fold_char s.
Proof. intros s. unfold replace_char. now rewrite map_map. Qed.

Lemma fold_char_ascii : forall c, is_ascii c = true -> is_ascii (fold_char c) = true.
Proof.
  intros c H. unfold is_ascii in *. apply N.ltb_lt in H. apply N.ltb_lt.
  unfold fold_char, ascii_lower, SPACE, UNDERSCORE.
  destruct (N.leb_spec 65 c), (N.leb_spec c 90); simpl;
    match goal with |- context [N.eqb ?a 32] => destruct (N.eqb_spec a 32) end;
    lia.
Qed.

Lemma fold_char_plain :
  forall c, fold_char c <> SPACE /\ is_upper (fold_char c) = false.
Proof.
  intros c. unfold fold_char, ascii_lower, is_upper, SPACE, UNDERSCORE.
  destruct (N.leb_spec 65 c), (N.leb_spec c 90); simpl;
    match goal with |- context [N.eqb ?a 32] => destruct (N.eqb_spec a 32) end;
    split; try lia; try reflexivity;
    try (apply andb_false_iff; rewrite N.leb_gt, N.leb_gt; lia).
Qed.

Lemma fold_char_not_space :
  forall c, py_isspace c = false -> py_isspace (fold_char c) = false.
Proof.
  intros c H. unfold fold_char, ascii_lower, SPACE, UNDERSCORE.
  destruct (N.leb_spec 65 c), (N.leb_spec c 90); simpl.
  - replace (N.eqb (c + 32) 32) with false by (symmetry; apply N.eqb_neq; lia).
    unfold py_isspace. ncompare. reflexivity.
  - destruct (N.eqb_spec c 32) as [->|]; [discriminate H|exact H].
  - destruct (N.eqb_spec c 32) as [->|]; [discriminate H|exact H].
  - destruct (N.eqb_spec c 32) as [->|]; [discriminate H|exact H].
Qed.

Lemma fold_char_fixed :
  forall c, c <> SPACE -> is_upper c = false -> fold_char c = c.
Proof.
  intros c Hs Hu. unfold fold_char, ascii_lower. unfold is_upper in Hu.
  rewrite Hu. destruct (N.eqb_spec c SPACE); [contradiction|reflexivity].
Qed.

Lemma ascii_ignore_ascii : forall s, forallb is_ascii (ascii_ignore s) = true.
Proof.
  intros s. apply forallb_forall. intros c H.
  unfold ascii_ignore in H. now apply filter_In in H.
Qed.

Lemma ascii_ignore_fixed :
  forall s, forallb is_ascii s = true -> ascii_ignore s = s.
Proof.
  induction s as [|c s IH]; simpl; intros H; [reflexivity|].
  apply andb_prop in H as [Hc Hs]. rewrite Hc. f_equal. now apply IH.
Qed.

Lemma strip_ascii :
  forall s, forallb is_ascii s = true -> forallb is_ascii (strip s) = true.
Proof.
  intros s H. apply forallb_forall. intros c Hc.
  eapply forallb_forall in H; [exact H|]. now apply In_strip.
Qed.

Lemma nfkd_nil : forall P, nfkd P [] = [].
Proof. intros P. now apply nfkd_ascii. Qed.

(** The code, with the platform's [lower] resolved on the ASCII string it
    is applied to. *)
Lemma normalize_header_unfold :
  forall P h,
    normalize_header P h = map fold_char (strip (ascii_ignore (nfkd P h))).
Proof.
  intros P h. rewrite <- replace_lower_map.
  destruct h as [|c h].
  - simpl. now rewrite nfkd_nil.
  - unfold normalize_header. rewrite str_lower_ascii; [reflexivity|].
    apply strip_ascii, ascii_ignore_ascii.
Qed.

Lemma count_fold_char :
  forall s,
    count_char UNDERSCORE (map fold_char s)
    = count_char SPACE s + count_char UNDERSCORE s.
Proof.
  unfold count_char.
  induction s as [|c s IH]; [reflexivity|].
  cbn [map filter]. 
  assert (E : N.eqb UNDERSCORE (fold_char c)
              = N.eqb SPACE c || N.eqb UNDERSCORE c).
  { unfold fold_char, ascii_lower. by_char_kind c. }
  rewrite E.
  destruct (N.eqb_spec SPACE c) as [Hs|Hs],
           (N.eqb_spec UNDERSCORE c) as [Hu|Hu];
    cbn [orb Datatypes.length]; unfold SPACE, UNDERSCORE in *; lia.
Qed.

Lemma collapse_spaces_cons :
  forall c r,
    collapse_spaces (c :: r)
    = if N.eqb c SPACE then
        match r with
        | c' :: _ =>
            if N.eqb c' SPACE then collapse_spaces r
            else UNDERSCORE :: collapse_spaces r
        | [] => [UNDERSCORE]
        end
      else c :: collapse_spaces r.
Proof. reflexivity. Qed.

Lemma has_space_run_cons :
  forall c c' r,
    has_space_run (c :: c' :: r)
    = (N.eqb c SPACE && N.eqb c' SPACE) || has_space_run (c' :: r).
Proof. reflexivity. Qed.

Lemma collapse_spaces_length :
  forall s, List.length (collapse_spaces s) <= List.length s.
Proof.
  induction s as [|c s IH]; [simpl; lia|].
  rewrite collapse_spaces_cons.
  destruct (N.eqb c SPACE); [|simpl; lia].
  destruct s as [|c' s]; [simpl; lia|].
  destruct (N.eqb c' SPACE); simpl in *; lia.
Qed.

Lemma collapse_spaces_run :
  forall s, has_space_run s = true ->
    List.length (collapse_spaces s) < List.length s.
Proof.
  induction s as [|c s IH]; [discriminate|].
  destruct s as [|c' s]; [discriminate|].
  rewrite has_space_run_cons, collapse_spaces_cons.
  pose proof (collapse_spaces_length (c' :: s)) as Hle.
  destruct (N.eqb c SPACE) eqn:Ec; cbn [andb orb].
  - destruct (N.eqb c' SPACE) eqn:Ec'; cbn [andb orb]; intros H.
    + cbn [Datatypes.length] in *. lia.
    + apply IH in H. cbn [Datatypes.length] in *. lia.
  - intros H. apply IH in H. cbn [Datatypes.length] in *. lia.
Qed.

Lemma collapse_spaces_no_run :
  forall s, has_space_run s = false ->
    collapse_spaces s = replace_char SPACE UNDERSCORE s.
Proof.
  induction s as [|c s IH]; [reflexivity|].
  destruct s as [|c' s].
  - intros _. rewrite collapse_spaces_cons. simpl.
    now destruct (N.eqb c SPACE).
  - rewrite has_space_run_cons, collapse_spaces_cons. intros H.
    apply orb_false_iff in H as [Hc Hr]. specialize (IH Hr).
    change (replace_char SPACE UNDERSCORE (c :: c' :: s))
      with ((if N.eqb c SPACE then UNDERSCORE else c)
              :: replace_char SPACE UNDERSCORE (c' :: s)).
    rewrite <- IH.
    destruct (N.eqb c SPACE); [|reflexivity].
    simpl in Hc. now rewrite Hc.
Qed.

Lemma has_space_run_lower :
  forall s, has_space_run (map ascii_lower s) = has_space_run s.
Proof.
  assert (E : forall c, N.eqb (ascii_lower c) SPACE = N.eqb c SPACE).
  { intros c. unfold ascii_lower. by_char_kind c. }
  induction s as [|c s IH]; [reflexivity|].
  destruct s as [|c' s]; [reflexivity|].
  change (map ascii_lower (c :: c' :: s))
    with (ascii_lower c :: ascii_lower c' :: map ascii_lower s).
  rewrite !has_space_run_cons, !E. f_equal. exact IH.
Qed.

Lemma normalize_header_normal_form :
  forall P h, normal_form (normalize_header P h).
Proof.
  intros P h. rewrite normalize_header_unfold.
  set (t := strip (ascii_ignore (nfkd P h))).
  assert (Ht : forallb is_ascii t = true)
    by apply strip_ascii, ascii_ignore_ascii.
  repeat split.
  - apply forallb_forall. intros c Hc. apply in_map_iff in Hc as (x & <- & Hx).
    apply fold_char_ascii. eapply forallb_forall in Ht; eauto.
  - apply in_map_iff in H as (x & <- & _). apply fold_char_plain.
  - apply in_map_iff in H as (x & <- & _). apply fold_char_plain.
  - destruct (strip_trimmed (ascii_ignore (nfkd P h))) as [Hh _].
    fold t in Hh. destruct t as [|c r]; simpl; [exact I|].
    now apply fold_char_not_space.
  - apply trimmed_map; [apply fold_char_not_space|apply strip_trimmed].
Qed.

Lemma map_fold_char_fixed :
  forall s, (forall c, In c s -> c <> SPACE /\ is_upper c = false) ->
    map fold_char s = s.
Proof.
  induction s as [|c s IH]; intros H; [reflexivity|]. simpl. f_equal.
  - destruct (H c (or_introl eq_refl)). now apply fold_char_fixed.
  - apply IH. intros x Hx. apply H. now right.
Qed.

Lemma normal_form_fixed :
  forall P s, normal_form s -> normalize_header P s = s.
Proof.
  intros P s (Ha & Hc & Ht). rewrite normalize_header_unfold.
  rewrite (nfkd_ascii P s Ha), (ascii_ignore_fixed s Ha), (strip_fixed Ht).
  now apply map_fold_char_fixed.
Qed.

Lemma normalize_header_idempotent :
  forall P h, normalize_header P (normalize_header P h) = normalize_header P h.
Proof. intros P h. apply normal_form_fixed, normalize_header_normal_form. Qed.

(** C5, as amended.  [normalize_header] is a total function of its
    argument; the empty and the absent header give the empty string;
    otherwise the result is the NFKD decomposition with everything outside
    ASCII dropped, stripped, lowercased, and with EVERY space replaced by
    an underscore, so that a run of k spaces gives k underscores: the
    result has the length of the stripped string, it is ASCII, holds no
    space and no capital, and it agrees with the specification's
    one-separator-per-run reading exactly when the stripped string holds
    no two adjacent spaces. *)
Theorem normalize_header_replaces_each_space (P : platform) (h : str) :
  let t := strip (ascii_ignore (nfkd P h)) in
  let r := normalize_header P h in
  normalize_header P [] = []
  /\ normalize_header_opt P None = []
  /\ r = replace_char SPACE UNDERSCORE (map ascii_lower t)
  /\ normal_form r
  /\ List.length r = List.length t
  /\ count_char UNDERSCORE r = count_char SPACE t + count_char UNDERSCORE t
  /\ (r = normalize_header_spec P h <-> has_space_run t = false).
Proof.
  intros t r.
  assert (Hr : r = map fold_char t) by apply normalize_header_unfold.
  assert (Ht : forallb is_ascii t = true)
    by apply strip_ascii, ascii_ignore_ascii.
  assert (Hspec : normalize_header_spec P h
                  = collapse_spaces (map ascii_lower t)).
  { destruct h as [|c h].
    - subst t. simpl. now rewrite nfkd_nil.
    - unfold normalize_header_spec. now rewrite str_lower_ascii. }
  split; [reflexivity|]. split; [reflexivity|].
  split; [now rewrite replace_lower_map|].
  split; [apply normalize_header_normal_form|].
  split; [rewrite Hr; apply length_map|].
  split; [rewrite Hr; apply count_fold_char|].
  rewrite Hspec, Hr, <- replace_lower_map, <- has_space_run_lower. split.
  - intros E. destruct (has_space_run (map ascii_lower t)) eqn:R; [|reflexivity].
    apply collapse_spaces_run in R. rewrite <- E in R.
    unfold replace_char in R. rewrite length_map in R. lia.
  - intros R. symmetry. now apply collapse_spaces_no_run.
Qed.

(** C5, as stated, fails on a run of spaces: two spaces give two
    underscores, where the one-separator-per-run reading gives one. *)
Lemma normalize_header_counterexample :
  normalize_header cpython (lit "a  b") = lit "a__b"
  /\ normalize_header_spec cpython (lit "a  b") = lit "a_b"
  /\ normalize_header cpython (lit "a  b")
     <> normalize_header_spec cpython (lit "a  b").
Proof.
  repeat split; try reflexivity; vm_compute; discriminate.
Qed.

(** A slip of the code, apart from the spaces: the comment of
    [normalize_header] announces Turkish to ASCII, but the dotless i has
    no decomposition, so [encode("ascii", "ignore")] drops it where an i
    was meant, and two different headers meet on one name. *)
Lemma dotless_i_is_dropped :
  normalize_header cpython ADI_SOYADI = lit "ad_soyad"
  /\ normalize_header cpython ADI_SOYADI <> lit "adi_soyadi"
  /\ normalize_header cpython ADI_SOYADI
     = normalize_header cpython (lit "Ad Soyad").
Proof.
  repeat split; try reflexivity; vm_compute; discriminate.
Qed.

(** ** The validator *)

Lemma is_missing_spec :
  forall r f, is_missing r f = true <-> field_missing r f.
Proof.
  intros r f. unfold is_missing, field_missing.
  destruct (dict_get r f) as [v|].
  - split.
    + intros H. right. exists v. split; [reflexivity|].
      now apply negb_true_iff.
    + intros [H|(v' & E & Hv)]; [discriminate|].
      injection E as <-. now apply negb_true_iff.
  - split; auto.
Qed.

Lemma is_missing_false :
  forall r f,
    is_missing r f = false <->
    exists v, dict_get r f = Some v /\ truthy v = true.
Proof.
  intros r f. unfold is_missing. destruct (dict_get r f) as [v|].
  - rewrite negb_false_iff. split.
    + intros H. now exists v.
    + intros (v' & E & H). now injection E as <-.
  - split; [discriminate|]. intros (v & E & _). discriminate.
Qed.

Lemma filter_subsequence :
  forall (A : Type) (p : A -> bool) (l : list A), subsequence (filter p l) l.
Proof.
  induction l as [|x l IH]; simpl; [constructor|].
  destruct (p x); now constructor.
Qed.

Lemma is_missing_ext :
  forall r r', (forall f, dict_get r f = dict_get r' f) ->
    forall f, is_missing r f = is_missing r' f.
Proof. intros r r' H f. unfold is_missing. now rewrite H. Qed.

Lemma is_valid_ok :
  forall P o r, fst (is_valid P o r) = true <-> required_present P o r.
Proof.
  intros P o r. unfold is_valid, required_present. simpl.
  destruct (filter (is_missing r) (req P o)) as [|m ms] eqn:F; split.
  - intros _ f Hf. apply is_missing_false.
    destruct (is_missing r f) eqn:M; [|reflexivity].
    assert (Hin : In f (filter (is_missing r) (req P o)))
      by (apply filter_In; auto).
    rewrite F in Hin. contradiction.
  - reflexivity.
  - discriminate.
  - intros H. exfalso.
    assert (Hin : In m (filter (is_missing r) (req P o)))
      by (rewrite F; now left).
    apply filter_In in Hin as [Hreq Hm].
    apply H in Hreq. apply is_missing_false in Hreq. congruence.
Qed.

(** C9.  The validator answers [ok = false] exactly when some required
    field is absent from the record or holds a falsy value; [missing]
    holds precisely those fields, under their normalised names, in the
    order (and with the repetitions) of [required_fields]; the order in
    which the record holds its keys does not matter. *)
Theorem is_valid_missing_in_required_order (P : platform) (o : options) (r : row) :
  let required :=
    map (normalize_header P)
      (match required_fields o with Some l => l | None => [] end) in
  let ok := fst (is_valid P o r) in
  let missing := snd (is_valid P o r) in
  (ok = false <-> exists f, In f required /\ field_missing r f)
  /\ (forall f, In f missing <-> In f required /\ field_missing r f)
  /\ subsequence missing required
  /\ missing = filter (is_missing r) required
  /\ (forall r', NoDup (keys r) -> Permutation r r' ->
        is_valid P o r' = is_valid P o r).
Proof.
  intros required ok missing.
  assert (Hm : forall f, In f missing <-> In f required /\ field_missing r f).
  { intros f. unfold missing, is_valid. simpl. rewrite filter_In.
    now rewrite is_missing_spec. }
  split; [|split; [exact Hm|split; [apply filter_subsequence|split]]].
  - unfold ok. split.
    + intros H. unfold is_valid in H. simpl in H.
      destruct (filter (is_missing r) (req P o)) as [|m ms] eqn:F;
        [discriminate|].
      exists m. apply Hm. unfold missing, is_valid. simpl. rewrite F. now left.
    + intros (f & Hf). apply Hm in Hf.
      unfold missing, is_valid in Hf. simpl in Hf.
      unfold is_valid. simpl.
      destruct (filter (is_missing r) (req P o)); [contradiction|reflexivity].
  - reflexivity.
  - intros r' Hnd Hp. unfold is_valid.
    rewrite (filter_ext (is_missing r') (is_missing r)); [reflexivity|].
    apply is_missing_ext. intros f. symmetry.
    now apply dict_get_permutation.
Qed.

(** Two records with the same fields in a different order, and two
    required fields the other way round. *)
Lemma is_valid_order_example :
  let o := mk_options false false true None
             (Some [lit "Sur Name"; lit "NAME"]) None DFNone [] [] None true in
  is_valid cpython o [(lit "name", VStr []); (lit "sur_name", VNone)]
    = (false, [lit "sur_name"; lit "name"])
  /\ is_valid cpython o [(lit "sur_name", VNone); (lit "name", VStr [])]
    = (false, [lit "sur_name"; lit "name"]).
Proof. split; reflexivity. Qed.

(** ** The readers *)

Section ReaderFacts.
Variable P : platform.
Variable o : options.

Lemma process_valid :
  forall st raw,
    valid P o (fst (normalize_row P o raw)) = true ->
    process P o st raw
    = emit_row o (add_logs st (snd (normalize_row P o raw)))
        (fst (normalize_row P o raw)).
Proof.
  intros st raw H. unfold process, valid in *.
  destruct (normalize_row P o raw) as [r lg]. cbn [fst snd] in *.
  destruct (is_valid P o r) as [ok missing]. cbn [fst] in H. now subst ok.
Qed.

Lemma process_invalid :
  forall st raw,
    valid P o (fst (normalize_row P o raw)) = false ->
    process P o st raw
    = (mk_state (out_rows st)
         (invalid_rows st ++ [rejected_entry P o (fst (normalize_row P o raw))])
         (logs st ++ snd (normalize_row P o raw)), None).
Proof.
  intros st raw H. unfold process, valid, rejected_entry in *.
  destruct (normalize_row P o raw) as [r lg]. cbn [fst snd] in *.
  destruct (is_valid P o r) as [ok missing]. cbn [fst snd] in *. now subst ok.
Qed.

Lemma run_loop_partition :
  forall (A : Type) body (reach : A -> option raw_record),
    classifies P o body reach ->
    forall l st,
      let recs := canonical P o (filter_map reach l) in
      let good := filter (valid P o) recs in
      let st' := fst (run_loop body st l) in
      let ys := snd (run_loop body st l) in
      out_rows st' = out_rows st ++ (if want_list o then good else [])
      /\ ys = (if want_list o then [] else good)
      /\ (exists more, invalid_rows st' = invalid_rows st ++ more
            /\ forall r, In r recs -> valid P o r = false ->
                 In (rejected_entry P o r) more).
Proof.
  intros A body reach Hc.
  induction l as [|x l IH]; intros st; cbn zeta.
  - simpl. split; [destruct (want_list o); now rewrite app_nil_r|].
    split; [now destruct (want_list o)|].
    exists []. rewrite app_nil_r. split; [reflexivity|contradiction].
  - cbn [run_loop filter_map]. specialize (Hc st x).
    destruct (reach x) as [raw|].
    + rewrite Hc. unfold canonical. cbn [map filter].
      fold (canonical P o (filter_map reach l)).
      destruct (valid P o (fst (normalize_row P o raw))) eqn:V.
      * rewrite (process_valid st raw V). unfold emit_row.
        destruct (want_list o) eqn:W;
          match goal with |- context [run_loop body ?s l] =>
            specialize (IH s) end;
          cbn zeta in IH;
          destruct (run_loop body _ l) as [st2 ys2]; cbn [fst snd] in *;
          destruct IH as (Ho & Hy & more & Hi & Hr).
        -- cbn [out_rows invalid_rows] in *.
           rewrite Ho, <- app_assoc. split; [reflexivity|].
           split; [assumption|].
           exists more. split; [assumption|].
           intros r [<-|Hin] Hv; [congruence|auto].
        -- cbn [out_rows invalid_rows add_logs] in *.
           rewrite Ho, Hy. split; [reflexivity|]. split; [reflexivity|].
           exists more. split; [assumption|].
           intros r [<-|Hin] Hv; [congruence|auto].
      * rewrite (process_invalid st raw V).
        match goal with |- context [run_loop body ?s l] =>
          specialize (IH s) end.
        cbn zeta in IH.
        destruct (run_loop body _ l) as [st2 ys2]. cbn [fst snd] in *.
        destruct IH as (Ho & Hy & more & Hi & Hr).
        cbn [out_rows invalid_rows] in *.
        split; [assumption|]. split; [assumption|].
        exists (rejected_entry P o (fst (normalize_row P o raw)) :: more).
        split; [rewrite Hi, <- app_assoc; reflexivity|].
        intros r [<-|Hin] Hv; [now left|right; auto].
    + destruct Hc as (extra & lg & ->).
      match goal with |- context [run_loop body ?s l] =>
        specialize (IH s) end.
      cbn zeta in IH.
      destruct (run_loop body _ l) as [st2 ys2]. cbn [fst snd] in *.
      destruct IH as (Ho & Hy & more & Hi & Hr).
      cbn [out_rows invalid_rows] in *.
      split; [assumption|]. split; [assumption|].
      exists (extra ++ more).
      split; [rewrite Hi, <- app_assoc; reflexivity|].
      intros r Hin Hv. apply in_or_app. right. auto.
Qed.

Lemma skip_item :
  forall st : state,
    exists extra lg,
      (st, @None row)
      = (mk_state (out_rows st) (invalid_rows st ++ extra) (logs st ++ lg),
         None).
Proof. intros [a b c]. exists [], []. simpl. now rewrite !app_nil_r. Qed.

Lemma log_item :
  forall (st : state) l,
    exists extra lg,
      (add_logs st l, @None row)
      = (mk_state (out_rows st) (invalid_rows st ++ extra) (logs st ++ lg),
         None).
Proof. intros st l. exists [], l. unfold add_logs. now rewrite app_nil_r. Qed.

Lemma csv_classifies :
  classifies P o (csv_body P o)
    (fun raw => if csv_blank raw then None else Some raw).
Proof.
  intros st raw. unfold csv_body.
  destruct (csv_blank raw); [apply skip_item|reflexivity].
Qed.

Lemma xlsx_classifies :
  forall headers,
    classifies P o (xlsx_body P o headers)
      (fun vals => if xlsx_blank vals then None
                   else Some (zip_dict headers vals)).
Proof.
  intros headers st vals. unfold xlsx_body.
  destruct (xlsx_blank vals); [apply skip_item|reflexivity].
Qed.

Lemma json_classifies : classifies P o (json_body P o) json_raw.
Proof.
  intros st v. unfold json_body, json_raw.
  destruct v as [ | b | z | f | s | dt | l | d];
    try (destruct (negb (truthy _)); [apply skip_item|apply log_item]).
  destruct (truthy (VDict d)); cbn [negb andb]; [|apply skip_item].
  destruct (any_truthy (map snd d)); cbn [negb];
    [reflexivity|apply skip_item].
Qed.

Lemma jsonl_classifies : classifies P o (jsonl_body P o) (jsonl_raw P).
Proof.
  intros st line. unfold jsonl_body, jsonl_raw.
  destruct (strip line) as [|c l]; [apply skip_item|].
  destruct (json_loads P (c :: l)) as [e|v].
  - eexists [_], []. unfold record_invalid_sink.
    rewrite (app_nil_r (logs st)). reflexivity.
  - destruct v; try reflexivity;
      eexists [_], []; unfold record_invalid_sink;
      rewrite (app_nil_r (logs st)); reflexivity.
Qed.

Lemma filter_map_filter :
  forall (A B : Type) (p : A -> bool) (f : A -> B) l,
    filter_map (fun x => if p x then None else Some (f x)) l
    = map f (filter (fun x => negb (p x)) l).
Proof.
  induction l as [|x l IH]; simpl; [reflexivity|].
  destruct (p x); simpl; now rewrite IH.
Qed.
End ReaderFacts.

Section ReaderResults.
Variable P : platform.
Variable o : options.

Lemma run_source_partition :
  forall (A : Type) body (reach : A -> option raw_record),
    classifies P o body reach ->
    forall (src : source A) lg,
      let recs := canonical P o (filter_map reach (items src)) in
      let res := run_source body (mk_state [] [] lg) src in
      accepted o res = filter (valid P o) recs
      /\ forall r, In r recs -> valid P o r = false ->
           In (rejected_entry P o r) (rejected res).
Proof.
  intros A body reach Hc src lg recs res.
  pose proof (run_loop_partition Hc (items src) (mk_state [] [] lg)) as H.
  cbn zeta in H. unfold res, run_source, accepted, rejected.
  destruct (run_loop body (mk_state [] [] lg) (items src)) as [st' ys].
  cbn [fst snd out_rows invalid_rows] in H.
  destruct H as (Ho & Hy & more & Hi & Hr).
  split.
  - destruct (want_list o); [rewrite Ho; reflexivity|exact Hy].
  - intros r Hin Hv. rewrite Hi. simpl. now apply Hr.
Qed.

Variable E : environment.
Variable file_path : str.

Lemma reader_partition :
  forall f lg,
    let recs := records_read P o E file_path f in
    let res := reader P o E file_path f (mk_state [] [] lg) in
    accepted o res = filter (valid P o) recs
    /\ forall r, In r recs -> valid P o r = false ->
         In (rejected_entry P o r) (rejected res).
Proof.
  intros f lg. unfold records_read, raws_read.
  destruct f; cbn [reader].
  - unfold read_csv, csv_raws.
    pose proof (run_source_partition (csv_classifies P o)
                  (csv_open E (the_path file_path) (csv_encoding o)
                     (csv_delimiter o)) lg) as H.
    cbn zeta in H.
    rewrite (filter_map_filter csv_blank (fun raw => raw)), map_id in H.
    exact H.
  - unfold read_xlsx.
    destruct (xlsx_open E (the_path file_path)) as [e|[cells rows]].
    + simpl. split; [now destruct (want_list o)|contradiction].
    + pose proof (run_source_partition
                    (xlsx_classifies P o (xlsx_headers P cells)) rows lg) as H.
      cbn zeta in H.
      rewrite (filter_map_filter xlsx_blank
                 (zip_dict (xlsx_headers P cells))) in H.
      exact H.
  - unfold read_json.
    destruct (json_open E (the_path file_path)) as [e|data].
    + simpl. split; [now destruct (want_list o)|contradiction].
    + pose proof (fun l => run_source_partition (json_classifies P o)
                    (mk_source l None) lg) as H.
      cbn zeta in H. cbn [items] in H.
      destruct data; apply H.
  - unfold read_jsonl.
    exact (run_source_partition (jsonl_classifies P o)
             (jsonl_open E (the_path file_path)) lg).
Qed.

(** Inside the call.  Whatever the format, what a drained reader leaves
    for the caller (the items it yielded when streaming, the private
    [out_rows] when materialising) are the canonical records in which
    every required name maps to a present, truthy value, in source order;
    every other canonical record is in [invalid_rows], with its reasons.
    What of this leaves the generator is another matter. *)
Lemma reader_accepts_iff_required_present
  (f : format) (lg : list log_record) :
  let recs := records_read P o E file_path f in
  let res := reader P o E file_path f (mk_state [] [] lg) in
  accepted o res = filter (fun r => fst (is_valid P o r)) recs
  /\ Forall (fun r =>
       (In r (accepted o res) <-> required_present P o r)
       /\ (~ required_present P o r ->
             In (rejected_entry P o r) (rejected res)
             /\ ~ In r (accepted o res))) recs.
Proof.
  intros recs res.
  destruct (reader_partition f lg) as [Ha Hr]. fold recs res in Ha, Hr.
  split; [exact Ha|].
  apply Forall_forall. intros r Hin.
  assert (Hiff : In r (accepted o res) <-> required_present P o r).
  { rewrite Ha, filter_In, <- is_valid_ok. unfold valid. tauto. }
  split; [exact Hiff|].
  intros Hn. split; [|now rewrite Hiff].
  apply Hr; [exact Hin|].
  unfold valid. destruct (fst (is_valid P o r)) eqn:V; [|reflexivity].
  apply is_valid_ok in V. contradiction.
Qed.
End ReaderResults.

(** ** The driver *)

Lemma dispatch_reader :
  forall P E file_path o f st,
    format_of_suffix (suffix P file_path) = Some f ->
    dispatch P E file_path o st = reader P o E file_path f st.
Proof.
  intros P E file_path o f st. unfold format_of_suffix, dispatch.
  repeat match goal with
  | |- context [str_eqb ?a ?b] => destruct (str_eqb a b)
  end; intros H; try discriminate; now injection H as <-.
Qed.

Lemma dispatch_unsupported :
  forall P E file_path o st,
    format_of_suffix (suffix P file_path) = None ->
    dispatch P E file_path o st = (st, [], Some (ValueError UNSUPPORTED)).
Proof.
  intros P E file_path o st. unfold format_of_suffix, dispatch.
  repeat match goal with
  | |- context [str_eqb ?a ?b] => destruct (str_eqb a b)
  end; intros H; try discriminate; reflexivity.
Qed.

(** Streaming, the generator yields what its reader accepts. *)
Lemma read_data_streams_accepted :
  forall P E file_path o f,
    format_of_suffix (suffix P file_path) = Some f ->
    want_list o = false ->
    yielded (read_data_body P E file_path o)
    = accepted o (reader P o E file_path f (start E o)).
Proof.
  intros P E file_path o f Hf Hw. unfold read_data_body.
  fold (start E o). rewrite (dispatch_reader P E file_path o (start E o) Hf).
  unfold accepted.
  destruct (reader P o E file_path f (start E o)) as [[st1 ys] ex].
  rewrite Hw.
  destruct (flush E file_path o _) as [e|[st3 w]]; [reflexivity|].
  now destruct (finish E o st3).
Qed.

(** ** The newline-delimited JSON reader *)

Lemma run_loop_keeps_invalid :
  forall P o (A : Type) body (reach : A -> option raw_record),
    classifies P o body reach ->
    forall l st x,
      In x (invalid_rows st) ->
      In x (invalid_rows (fst (run_loop body st l))).
Proof.
  intros P o A body reach Hc l st x Hin.
  destruct (run_loop_partition Hc l st) as (_ & _ & more & -> & _).
  apply in_or_app. now left.
Qed.

(** C8.  A non-blank line that [json.loads] rejects, or that holds a value
    other than an object, is appended to the invalid sink as the stripped
    line under [_raw] with one reason, [json_decode:<error>] or
    [json_not_object]; nothing is yielded or logged for it, no canonical
    record is made of it, and the loop goes on with the next line from
    that state, so the entry is still in the sink at the end. *)
Theorem jsonl_bad_line_goes_to_sink
  (P : platform) (o : options) (st : state) (line : str) (rest : list str)
  (tag : str) :
  strip line <> [] ->
  (exists e, json_loads P (strip line) = inl e
             /\ tag = lit "json_decode:" ++ e)
  \/ (exists v, json_loads P (strip line) = inr v
                /\ (forall d, v <> VDict d)
                /\ tag = lit "json_not_object") ->
  let entry := [(RAW_KEY, VStr (strip line)); (ERRORS_KEY, VList [VStr tag])] in
  let st1 := mk_state (out_rows st) (invalid_rows st ++ [entry]) (logs st) in
  jsonl_body P o st line = (st1, None)
  /\ jsonl_raw P line = None
  /\ run_loop (jsonl_body P o) st (line :: rest)
     = run_loop (jsonl_body P o) st1 rest
  /\ In entry (invalid_rows (fst (run_loop (jsonl_body P o) st (line :: rest)))).
Proof.
  intros Hne Hbad entry st1.
  assert (Hbody : jsonl_body P o st line = (st1, None)
                  /\ jsonl_raw P line = None).
  { unfold jsonl_body, jsonl_raw.
    destruct (strip line) as [|c l] eqn:S; [contradiction|].
    destruct Hbad as [(e & -> & ->)|(v & -> & Hv & ->)].
    - split; reflexivity.
    - destruct v; try (split; reflexivity).
      exfalso. now apply (Hv d). }
  destruct Hbody as [Hbody Hraw].
  assert (Hrun : run_loop (jsonl_body P o) st (line :: rest)
                 = run_loop (jsonl_body P o) st1 rest).
  { cbn [run_loop]. rewrite Hbody.
    now destruct (run_loop (jsonl_body P o) st1 rest). }
  repeat split; try assumption.
  rewrite Hrun. eapply run_loop_keeps_invalid; [apply jsonl_classifies|].
  simpl. apply in_or_app. right. now left.
Qed.

(** Scenario B of the specification: one line without the required
    surname, then one malformed line. *)
Lemma jsonl_bad_line_witness :
  let entry :=
    [(RAW_KEY, VStr LINE_BAD);
     (ERRORS_KEY,
      VList [VStr (lit "json_decode:Expecting property name enclosed in double quotes: line 1 column 2 (char 1)")])] in
  jsonl_body cpython default_options EMPTY LINE_BAD
  = (mk_state [] [entry] [], None)
  /\ jsonl_raw cpython LINE_BAD = None
  /\ run_loop (jsonl_body cpython default_options) EMPTY [LINE_BAD; LINE_NAME_A]
     = run_loop (jsonl_body cpython default_options)
         (mk_state [] [entry] []) [LINE_NAME_A]
  /\ In entry
       (invalid_rows
          (fst (run_loop (jsonl_body cpython default_options) EMPTY
                  [LINE_BAD; LINE_NAME_A]))).
Proof.
  refine (jsonl_bad_line_goes_to_sink cpython default_options EMPTY
            LINE_BAD [LINE_NAME_A] _ _).
  - vm_compute. discriminate.
  - left. eexists. split; reflexivity.
Defined.

(** ** The record normaliser *)

Section RowFacts.
Variable P : platform.
Variable o : options.

Lemma colmap_fold_get :
  forall (l : list (str * str)) acc k dest,
    dict_get
      (fold_left
         (fun acc kv => dict_set acc (normalize_header P (fst kv)) (snd kv))
         l acc) k = Some dest ->
    dict_get acc k = Some dest
    \/ exists k0, In (k0, dest) l /\ normalize_header P k0 = k.
Proof.
  induction l as [|[k1 d1] l IH]; intros acc k dest H; [now left|].
  cbn [fold_left fst snd] in H. apply IH in H as [H|(k0 & Hin & Hk)].
  - destruct (str_eqb (normalize_header P k1) k) eqn:E.
    + str_cases. rewrite dict_get_set_same in H. injection H as <-.
      right. exists k1. split; [now left|reflexivity].
    + str_cases. rewrite dict_get_set_other in H by assumption. now left.
  - right. exists k0. split; [now right|assumption].
Qed.

(** The keys of [colmap] are normalised names of [column_map], its values
    the destinations the caller wrote. *)
Lemma colmap_entries :
  forall k dest,
    dict_get (colmap P o) k = Some dest ->
    exists k0,
      In (k0, dest) (match column_map o with Some d => d | None => [] end)
      /\ normalize_header P k0 = k.
Proof.
  intros k dest H. unfold colmap in H.
  apply colmap_fold_get in H as [H|H]; [discriminate|exact H].
Qed.

Lemma new_key_hit :
  forall k dest,
    k <> [] ->
    dict_get (colmap P o) (normalize_header P k) = Some dest ->
    new_key P o (Some k) = dest.
Proof.
  intros k dest Hk H. unfold new_key.
  destruct k as [|c k]; [contradiction|].
  destruct (colmap P o) as [|e cm]; [discriminate|]. now rewrite H.
Qed.

Lemma build_fold_keeps :
  forall (raw : raw_record) acc x,
    In x (keys acc) ->
    In x (keys (fold_left
                  (fun r kv => dict_set r (new_key P o (fst kv))
                                 (strip_value (snd kv))) raw acc)).
Proof.
  induction raw as [|kv raw IH]; intros acc x H; [exact H|].
  cbn [fold_left]. apply IH. apply In_keys_dict_set. now right.
Qed.

Lemma build_row_keys :
  forall raw k v,
    In (k, v) raw -> In (new_key P o k) (keys (build_row P o raw)).
Proof.
  unfold build_row. intros raw. generalize (@nil (str * value)).
  induction raw as [|kv raw IH]; intros acc k v H; [contradiction|].
  cbn [fold_left]. destruct H as [->|H].
  - apply build_fold_keeps. apply In_keys_dict_set. now left.
  - eapply IH. exact H.
Qed.

Lemma format_field_keys :
  forall acc dk, keys (fst (format_field o acc dk)) = keys (fst acc).
Proof.
  intros [r lg] dk. unfold format_field.
  destruct (dict_get r dk) as [v|] eqn:G; [|reflexivity].
  destruct (truthy v); [|reflexivity].
  destruct (apply_formatter o v) as [e|[v'|]]; try reflexivity.
  cbn [fst]. apply length_dict_set_keys. unfold dict_mem. now rewrite G.
Qed.

Lemma format_fold_keys :
  forall dks acc,
    keys (fst (fold_left (format_field o) dks acc)) = keys (fst acc).
Proof.
  induction dks as [|dk dks IH]; intros acc; [reflexivity|].
  cbn [fold_left]. rewrite IH. apply format_field_keys.
Qed.

(** Reformatting dates changes values only. *)
Lemma normalize_row_keys :
  forall raw, keys (fst (normalize_row P o raw)) = keys (build_row P o raw).
Proof.
  intros raw. unfold normalize_row.
  destruct (df_truthy (date_formatter_arg o)
            && match date_keys P o with [] => false | _ :: _ => true end);
    [apply format_fold_keys|reflexivity].
Qed.

Lemma not_normal_not_image :
  forall dest l,
    normalize_header P dest <> dest ->
    ~ In dest (map (normalize_header P) l).
Proof.
  intros dest l Hd Hin. apply in_map_iff in Hin as (x & <- & _).
  apply Hd. apply normalize_header_idempotent.
Qed.

(** C10.  When the normalised header of a raw column hits [colmap], the
    entry comes from a [column_map] key with the same normalised name, and
    the canonical record holds the destination exactly as the caller
    wrote it; a destination that is not its own normal form is therefore
    none of the normalised required or date names. *)
Theorem column_map_destination_verbatim
  (raw : raw_record) (k : str) (v : value) (dest : str) :
  In (Some k, v) raw ->
  k <> [] ->
  dict_get (colmap P o) (normalize_header P k) = Some dest ->
  (exists k0,
      In (k0, dest) (match column_map o with Some d => d | None => [] end)
      /\ normalize_header P k0 = normalize_header P k)
  /\ new_key P o (Some k) = dest
  /\ In dest (keys (fst (normalize_row P o raw)))
  /\ (normalize_header P dest <> dest ->
        ~ In dest (req P o) /\ ~ In dest (date_keys P o)).
Proof.
  intros Hin Hk Hget.
  split; [now apply colmap_entries|].
  split; [now apply new_key_hit|].
  split.
  - rewrite normalize_row_keys, <- (new_key_hit Hk Hget).
    eapply build_row_keys. exact Hin.
  - intros Hd. split; now apply not_normal_not_image.
Qed.
End RowFacts.

(** A column [NAME] renamed to [Full Name]: the record holds
    [Full Name], which the required field [full name] (normalised to
    [full_name]) does not find. *)
Lemma column_map_destination_witness :
  let o := mk_options false false true
             (Some [(lit "Name", lit "Full Name")])
             (Some [lit "full name"]) None DFNone [] [] None true in
  let raw := [(Some (lit "NAME "), VStr (lit " A "))] in
  fst (normalize_row cpython o raw) = [(lit "Full Name", VStr (lit "A"))]
  /\ is_valid cpython o (fst (normalize_row cpython o raw))
     = (false, [lit "full_name"])
  /\ In (lit "Full Name") (keys (fst (normalize_row cpython o raw)))
  /\ ~ In (lit "Full Name") (req cpython o).
Proof.
  intros o raw.
  destruct (@column_map_destination_verbatim cpython o raw (lit "NAME ")
              (VStr (lit " A ")) (lit "Full Name"))
    as (_ & _ & Hin & Hnot).
  - now left.
  - discriminate.
  - reflexivity.
  - split; [reflexivity|]. split; [reflexivity|]. split; [exact Hin|].
    apply Hnot. vm_compute. discriminate.
Defined.

(** ** The invalid-record sink *)

Lemma to_json_dict :
  forall d, to_json (VDict d) = option_map JObject (fields_to_json d).
Proof.
  intros d. reflexivity.
Qed.

Lemma json_dumps_objects :
  forall rows,
    json_dumps rows
    = match objects_of rows with
      | Some js => inr (JArray js)
      | None =>
          inl (TypeError (lit "Object of type datetime is not JSON serializable"))
      end.
Proof.
  intros rows. unfold json_dumps.
  assert (E : to_json (VList (map VDict rows))
              = option_map JArray (objects_of rows)).
  { cbn [to_json]. f_equal.
    induction rows as [|r rows IH]; [reflexivity|].
    cbn [map objects_of]. rewrite to_json_dict, IH.
    destruct (fields_to_json r); reflexivity. }
  rewrite E. now destruct (objects_of rows).
Qed.

Lemma fields_to_json_set :
  forall d fields reasons,
    fields_to_json d = Some fields ->
    fields_to_json (dict_set d ERRORS_KEY (VList (map VStr reasons)))
    = Some (dict_set fields ERRORS_KEY (JArray (map JString reasons))).
Proof.
  assert (Hr : forall reasons,
             to_json (VList (map VStr reasons))
             = Some (JArray (map JString reasons))).
  { intros reasons. cbn [to_json].
    induction reasons as [|x l IH]; [reflexivity|].
    cbn [map option_map] in *.
    match type of IH with option_map _ ?t = _ =>
      destruct t as [js|]; [|discriminate] end.
    cbn [to_json option_map] in *. now injection IH as ->. }
  induction d as [|[k x] d IH]; intros fields reasons H.
  - injection H as <-. cbn [dict_set fields_to_json]. now rewrite Hr.
  - cbn [fields_to_json] in H.
    destruct (to_json x) as [j|] eqn:J; [|discriminate].
    destruct (fields_to_json d) as [js|] eqn:F; [|discriminate].
    injection H as <-. cbn [dict_set].
    destruct (str_eqb k ERRORS_KEY).
    + cbn [fields_to_json]. now rewrite Hr, F.
    + cbn [fields_to_json]. now rewrite J, (IH js reasons eq_refl).
Qed.

Lemma record_all_invalid :
  forall recs st,
    invalid_rows (record_all st recs)
    = invalid_rows st
      ++ map (fun rr => dict_set (fst rr) ERRORS_KEY
                          (VList (map VStr (snd rr)))) recs
    /\ out_rows (record_all st recs) = out_rows st
    /\ logs (record_all st recs) = logs st.
Proof.
  unfold record_all.
  induction recs as [|[r reasons] recs IH]; intros st.
  - simpl. now rewrite app_nil_r.
  - cbn [fold_left fst snd]. destruct (IH (record_invalid_sink st r reasons))
      as (Hi & Ho & Hl).
    rewrite Hi, Ho, Hl. cbn [record_invalid_sink invalid_rows out_rows logs map fst snd].
    now rewrite <- app_assoc.
Qed.

Lemma objects_of_entries :
  forall recs : list (row * list str),
    Forall (fun rr => serialisable (fst rr) = true) recs ->
    exists objs,
      objects_of (map (fun rr => dict_set (fst rr) ERRORS_KEY
                                   (VList (map VStr (snd rr)))) recs)
      = Some objs
      /\ Forall2 (fun rr obj =>
                    exists fields,
                      fields_to_json (fst rr) = Some fields
                      /\ obj = sink_object fields (snd rr)) recs objs.
Proof.
  induction 1 as [|[r reasons] recs Hs _ (objs & Ho & Hf)].
  - exists []. split; [reflexivity|constructor].
  - unfold serialisable in Hs. cbn [fst] in Hs.
    destruct (fields_to_json r) as [fields|] eqn:F; [|discriminate].
    exists (sink_object fields reasons :: objs). split.
    + cbn [map objects_of fst snd].
      now rewrite (fields_to_json_set r reasons F), Ho.
    + constructor; [|exact Hf]. exists fields. now split.
Qed.

Lemma run_loop_invariant :
  forall (Inv : state -> Prop) (A : Type)
         (body : state -> A -> state * option row),
    (forall st x, Inv st -> Inv (fst (body st x))) ->
    forall l st, Inv st -> Inv (fst (run_loop body st l)).
Proof.
  intros Inv A body Hb. induction l as [|x l IH]; intros st H; [exact H|].
  cbn [run_loop]. specialize (Hb st x H).
  destruct (body st x) as [st1 y]. specialize (IH st1 Hb).
  now destruct (run_loop body st1 l).
Qed.

Lemma record_reasoned :
  forall st r reasons,
    reasoned st -> reasons <> [] ->
    reasoned (record_invalid_sink st r reasons).
Proof.
  intros st r reasons H Hne. unfold reasoned, record_invalid_sink.
  cbn [invalid_rows]. apply Forall_app. split; [exact H|].
  constructor; [|constructor]. exists reasons. split; [exact Hne|].
  apply dict_get_set_same.
Qed.

Lemma process_reasoned :
  forall P o st raw, reasoned st -> reasoned (fst (process P o st raw)).
Proof.
  intros P o st raw H. unfold process.
  destruct (normalize_row P o raw) as [r lg].
  destruct (is_valid P o r) as [ok missing] eqn:V.
  unfold is_valid in V. injection V as Hok Hm.
  destruct ok; cbn [negb].
  - unfold emit_row. now destruct (want_list o).
  - cbn [fst]. apply record_reasoned; [exact H|].
    rewrite Hm in Hok. destruct missing; [discriminate|discriminate].
Qed.

Lemma reader_reasoned :
  forall P o E file_path f lg,
    Forall has_reasons
      (rejected (reader P o E file_path f (mk_state [] [] lg))).
Proof.
  intros P o E file_path f lg.
  assert (H0 : reasoned (mk_state [] [] lg)) by constructor.
  assert (Hsrc : forall (A : Type) body (src : source A),
             (forall st x, reasoned st -> reasoned (fst (body st x))) ->
             Forall has_reasons
               (rejected (run_source body (mk_state [] [] lg) src))).
  { intros A body src Hb. unfold run_source, rejected.
    pose proof (@run_loop_invariant reasoned A body Hb (items src) _ H0) as H.
    now destruct (run_loop body (mk_state [] [] lg) (items src)). }
  destruct f; cbn [reader].
  - apply Hsrc. intros st x H. unfold csv_body.
    destruct (csv_blank x); [exact H|now apply process_reasoned].
  - unfold read_xlsx.
    destruct (xlsx_open E (the_path file_path)) as [e|[cells rows]];
      [constructor|].
    apply Hsrc. intros st x H. unfold xlsx_body.
    destruct (xlsx_blank x); [exact H|now apply process_reasoned].
  - unfold read_json.
    destruct (json_open E (the_path file_path)) as [e|data]; [constructor|].
    apply Hsrc. intros st x H. unfold json_body.
    destruct (negb (truthy x)); [exact H|].
    destruct x; try exact H.
    destruct (negb (any_truthy (map snd d)));
      [exact H|now apply process_reasoned].
  - apply Hsrc. intros st x H. unfold jsonl_body.
    destruct (strip x) as [|c l]; [exact H|].
    destruct (json_loads P (c :: l)) as [e|v].
    + apply record_reasoned; [exact H|discriminate].
    + destruct v; try (apply record_reasoned; [exact H|discriminate]).
      now apply process_reasoned.
Qed.

(** C7, as amended.  Recording N rejected records appends, in order, a
    copy of each with the reserved [_errors] (not [errors]) field set to
    its reasons.  Flushing then writes nothing when N = 0; when N > 0, the
    destination is configured, its directory can be made, the file can be
    written and every recorded value is JSON serialisable, it writes at
    that destination one array of exactly N objects in recording order,
    each the record's fields with [_errors] holding the reasons.  The
    entries the four readers record all carry at least one reason. *)
Theorem sink_round_trip
  (E : environment) (file_path : str) (o : options) (lg : list log_record)
  (recs : list (row * list str)) (dest : str) :
  let st := record_all (mk_state [] [] lg) recs in
  invalid_rows st
  = map (fun rr => dict_set (fst rr) ERRORS_KEY (VList (map VStr (snd rr))))
      recs
  /\ (forall P f lg',
        Forall has_reasons
          (rejected (reader P o E file_path f (mk_state [] [] lg'))))
  /\ (recs = [] -> flush E file_path o st = inr (st, None))
  /\ (recs <> [] ->
      invalid_sink_path o = Some dest -> dest <> [] ->
      mkdir_parent E (Path dest) = None ->
      write_text E (Path dest) = None ->
      Forall (fun rr => serialisable (fst rr) = true) recs ->
      exists objs,
        flush E file_path o st
        = inr (add_logs st [LogInvalidSaved (List.length recs) (Path dest)],
               Some (Path dest, JArray objs))
        /\ List.length objs = List.length recs
        /\ Forall2 (fun rr obj =>
                      exists fields,
                        fields_to_json (fst rr) = Some fields
                        /\ obj = sink_object fields (snd rr)) recs objs).
Proof.
  intros st.
  destruct (record_all_invalid recs (mk_state [] [] lg)) as (Hi & _ & _).
  cbn [invalid_rows app] in Hi. fold st in Hi.
  split; [exact Hi|]. split; [intros P f lg'; apply reader_reasoned|]. split.
  - intros ->. reflexivity.
  - intros Hne Hdest Hd Hmk Hwr Hser.
    destruct (objects_of_entries Hser) as (objs & Ho & Hf).
    exists objs. split; [|split; [|exact Hf]].
    + unfold flush. rewrite Hi.
      destruct recs as [|rr recs]; [contradiction|]. cbn [map].
      unfold sink_path. rewrite Hdest.
      destruct dest as [|c dest]; [contradiction|].
      rewrite Hmk, json_dumps_objects.
      change (dict_set (fst rr) ERRORS_KEY (VList (map VStr (snd rr)))
              :: map (fun rr0 => dict_set (fst rr0) ERRORS_KEY
                                   (VList (map VStr (snd rr0)))) recs)
        with (map (fun rr0 => dict_set (fst rr0) ERRORS_KEY
                                (VList (map VStr (snd rr0)))) (rr :: recs)).
      rewrite Ho, Hwr, length_map. reflexivity.
    + symmetry. eapply Forall2_length. exact Hf.
Qed.

(** One record rejected for its surname, flushed to the default place. *)
Lemma sink_round_trip_witness :
  let r := [(lit "name", VStr (lit "A")); (lit "surname", VStr [])] in
  let recs := [(r, [lit "missing: surname"])] in
  let st := record_all EMPTY recs in
  exists objs,
    flush bare (lit "clients.csv") default_options st
    = inr (add_logs st
             [LogInvalidSaved 1 (Path (lit "Errors/errors.json"))],
           Some (Path (lit "Errors/errors.json"), JArray objs))
    /\ List.length objs = 1
    /\ Forall2 (fun rr obj =>
                  exists fields,
                    fields_to_json (fst rr) = Some fields
                    /\ obj = sink_object fields (snd rr)) recs objs.
Proof.
  intros r recs st.
  refine (proj2 (proj2 (proj2 (sink_round_trip bare (lit "clients.csv")
                                 default_options [] recs
                                 (lit "Errors/errors.json")))) _ _ _ _ _ _).
  - discriminate.
  - reflexivity.
  - discriminate.
  - reflexivity.
  - reflexivity.
  - repeat constructor.
Defined.

(** C7, as stated, fails.  A rejected record is written with its reasons
    under [_errors]; the object has no [errors] field.  And a rejected
    spreadsheet row that holds a date is recorded but cannot be
    serialised, so that one rejection leaves no file at all. *)
Lemma sink_counterexample :
  let rows := [[(Some (lit "Name"), VStr (lit "A"));
                (Some (lit "Surname"), VStr [])]] in
  let run := read_data_body cpython (with_csv rows) (lit "clients.csv")
               (requiring [lit "surname"]) in
  let sheet := with_xlsx [VStr (lit "Name"); VStr (lit "Born")]
                 [[VNone; VDate (mk_datetime 1990 5 1 0)]] in
  let run' := read_data_body cpython sheet (lit "clients.xlsx")
                (requiring [lit "name"]) in
  (exists fields,
      written run
      = Some (Path (lit "Errors/errors.json"), JArray [JObject fields])
      /\ dict_get fields (lit "errors") = None
      /\ dict_get fields (lit "_errors")
         = Some (JArray [JString (lit "missing: surname")]))
  /\ written run' = None
  /\ run_logs run'
     = [LogSinkFailed (Path (lit "Errors/errors.json"))
          (TypeError (lit "Object of type datetime is not JSON serializable"))].
Proof.
  cbv zeta. split; [|split; reflexivity].
  eexists. split; [reflexivity|]. split; reflexivity.
Qed.

(** ** Blank records *)

(** The three readers that test for blank records drop them without a
    trace. *)
Lemma blank_records_dropped :
  forall P o st,
    (forall raw, csv_blank raw = true -> csv_body P o st raw = (st, None))
    /\ (forall headers vals,
          xlsx_blank vals = true ->
          xlsx_body P o headers st vals = (st, None))
    /\ (forall d,
          any_truthy (map snd d) = false ->
          json_body P o st (VDict d) = (st, None)).
Proof.
  intros P o st. repeat split.
  - intros raw H. unfold csv_body. now rewrite H.
  - intros headers vals H. unfold xlsx_body. now rewrite H.
  - intros d H. unfold json_body. rewrite H.
    now destruct (negb (truthy (VDict d))).
Qed.

(** [read_jsonl] has no such test: a blank object goes through
    [normalize_row] and [is_valid] like any other. *)
Lemma jsonl_blank_processed :
  forall P o st line c l d,
    strip line = c :: l ->
    json_loads P (c :: l) = inr (VDict d) ->
    jsonl_body P o st line = process P o st (dict_items d).
Proof.
  intros P o st line c l d Hs Hl. unfold jsonl_body. now rewrite Hs, Hl.
Qed.

(** C6 on the code.  The line [{"name": ""}] of a newline-delimited JSON
    file holds a blank record.  With [name] required it ends in the
    invalid sink; with nothing required it is yielded.  The same record in
    a JSON document is dropped both times. *)
Theorem jsonl_blank_record_not_dropped :
  let blank := [(lit "name", VStr [])] in
  let lines := with_jsonl [LINE_NAME_EMPTY] in
  let doc := with_json (VList [VDict blank]) in
  written (read_data_body cpython lines (lit "clients.jsonl")
             (requiring [lit "name"]))
  = Some (Path (lit "Errors/errors.json"),
          JArray [JObject [(lit "name", JString []);
                           (lit "_errors",
                            JArray [JString (lit "missing: name")])]])
  /\ yielded (read_data_body cpython lines (lit "clients.jsonl")
                default_options) = [blank]
  /\ written (read_data_body cpython doc (lit "clients.json")
                (requiring [lit "name"])) = None
  /\ yielded (read_data_body cpython doc (lit "clients.json")
                default_options) = [].
Proof. cbv zeta. repeat split; reflexivity. Qed.

(** ** The call and its result *)

(** C2 on the code.  With [as_list=True] the call still evaluates to a
    generator, never to a list: iterating it gives nothing, and the
    collection of accepted records only travels as the value of
    [StopIteration]. *)
Theorem as_list_call_is_a_generator :
  let call := read_data cpython (with_csv scenario_A_rows)
                (lit "clients.csv") listing in
  let client := [(lit "name", VStr AYSE); (lit "surname", VStr YILMAZ);
                 (lit "birth_date", VStr (lit "1990-05-01"))] in
  (exists g, call = OGenerator g /\ yielded g = []
             /\ stop_value g = RList [client])
  /\ py_list call = Some []
  /\ (forall rows, call <> OList rows).
Proof.
  cbv zeta. split; [|split; [reflexivity|discriminate]].
  eexists. split; [reflexivity|]. split; reflexivity.
Qed.

(** Whatever the arguments, a call of [read_data] is a generator, and in
    the materialising mode that generator yields nothing. *)
Lemma read_data_always_generator :
  forall P E file_path o,
    exists g,
      read_data P E file_path o = OGenerator g
      /\ (want_list o = true -> yielded g = []).
Proof.
  intros P E file_path o. eexists. split; [reflexivity|].
  intros W. unfold read_data_body.
  destruct (dispatch P E file_path o _) as [[st1 items] ex]. rewrite W.
  destruct (flush E file_path o _) as [e|[st3 w]]; [reflexivity|].
  now destruct (finish E o st3).
Qed.

(** C3 on the code.  For every path whose lowercased suffix is none of
    the four, the dispatch raises [ValueError] inside the [try]; the last
    [except] clause catches it, so nothing is raised to the caller: the
    generator ends normally, without a record and without a sink file,
    and the configuration error is a log record. *)
Theorem unsupported_suffix_logged :
  forall P E file_path o,
    format_of_suffix (suffix P file_path) = None ->
    let g := read_data_body P E file_path o in
    raised g = None /\ yielded g = [] /\ written g = None
    /\ In (LogUnexpected file_path (ValueError UNSUPPORTED)) (run_logs g).
Proof.
  intros P E file_path o H. unfold read_data_body.
  rewrite (dispatch_unsupported P E file_path o _ H).
  cbn [flush add_logs invalid_rows handle].
  assert (Hy : (if want_list o then [] else @nil row) = [])
    by now destruct (want_list o).
  rewrite Hy.
  destruct (finish E o _) as [st4 v] eqn:F. cbn [raised yielded written run_logs].
  repeat split.
  unfold finish in F.
  destruct (return_dataframe o); [destruct (pandas_import E)|destruct (as_list o)];
    injection F as <- _; cbn [logs add_logs]; rewrite ?in_app_iff;
    simpl; auto.
Qed.

(** [clients.txt], and a recognised suffix in capitals for contrast. *)
Lemma unsupported_suffix_witness :
  let g := read_data_body cpython bare (lit "clients.txt") default_options in
  format_of_suffix (suffix cpython (lit "clients.txt")) = None
  /\ format_of_suffix (suffix cpython (lit "CLIENTS.CSV")) = Some Csv
  /\ raised g = None /\ yielded g = [] /\ written g = None
  /\ In (LogUnexpected (lit "clients.txt") (ValueError UNSUPPORTED))
        (run_logs g).
Proof.
  intros g. split; [reflexivity|]. split; [reflexivity|].
  apply (unsupported_suffix_logged cpython bare (lit "clients.txt")
           default_options).
  reflexivity.
Defined.

(** The whole run on [clients.txt]: one log record, of level [ERROR]. *)
Lemma unsupported_suffix_run :
  read_data_body cpython bare (lit "clients.txt") default_options
  = mk_run [] RNone None
      [LogUnexpected (lit "clients.txt") (ValueError UNSUPPORTED)] None
  /\ log_level (LogUnexpected (lit "clients.txt") (ValueError UNSUPPORTED))
     = ERROR.
Proof. split; reflexivity. Qed.

(** ** Dates *)

Section DateFacts.
Variable P : platform.

Lemma re_digit_ascii :
  forall c, is_ascii c = true ->
    re_digit P c
    = if N.leb 48 c && N.leb c 57 then Some (Z.of_N (c - 48)) else None.
Proof.
  intros c H. unfold re_digit. rewrite (decimal_digit_ascii P c H).
  now destruct (N.leb 48 c && N.leb c 57).
Qed.

Lemma digit_char_range :
  forall z, (48 <= digit_char z <= 57)%N.
Proof.
  intros z. unfold digit_char.
  pose proof (Z.mod_pos_bound z 10 ltac:(lia)). lia.
Qed.

Lemma re_digit_digit_char :
  forall z, re_digit P (digit_char z) = Some (z mod 10)%Z.
Proof.
  intros z. pose proof (digit_char_range z) as [Hl Hh].
  rewrite re_digit_ascii by (unfold is_ascii; apply N.ltb_lt; lia).
  replace (N.leb 48 (digit_char z)) with true by (symmetry; apply N.leb_le; lia).
  replace (N.leb (digit_char z) 57) with true by (symmetry; apply N.leb_le; lia).
  cbn [andb]. f_equal. unfold digit_char.
  pose proof (Z.mod_pos_bound z 10 ltac:(lia)). lia.
Qed.

Lemma re_digit_slash : re_digit P SLASH = None.
Proof. now rewrite re_digit_ascii. Qed.

Lemma four_digits :
  forall y, (0 <= y <= 9999)%Z ->
    (1000 * ((y / 1000) mod 10) + 100 * ((y / 100) mod 10)
     + 10 * ((y / 10) mod 10) + y mod 10 = y)%Z.
Proof. intros y H. Z.to_euclidean_division_equations. lia. Qed.

Lemma match_Y_pad4 :
  forall y r, (0 <= y <= 9999)%Z -> match_Y P (pad4 y ++ r) = Some (y, r).
Proof.
  intros y r H. unfold pad4, match_Y. cbn [app].
  rewrite !re_digit_digit_char. now rewrite four_digits.
Qed.

(** The month and day groups read ASCII text alike on every platform. *)
Lemma match_d_ascii :
  forall s, forallb is_ascii s = true -> match_d P s = match_d cpython s.
Proof.
  intros [|a [|b r]] H; try reflexivity.
  cbn [forallb] in H. apply andb_prop in H as [_ H].
  apply andb_prop in H as [Hb _].
  unfold match_d. rewrite (re_digit_ascii b Hb).
  unfold re_digit. cbn [cpython decimal_digit].
  rewrite (digit_value_ascii b Hb).
  now destruct (N.leb 48 b && N.leb b 57).
Qed.

Lemma match_rest_ascii :
  forall m s, forallb is_ascii s = true ->
    match_rest P m s = match_rest cpython m s.
Proof.
  intros m [|c s] H; [reflexivity|]. unfold match_rest, match_hyphen.
  destruct (N.eqb c HYPHEN); [|reflexivity].
  cbn [forallb] in H. apply andb_prop in H as [_ H].
  now rewrite match_d_ascii.
Qed.

Lemma match_m_ascii :
  forall s, forallb is_ascii s = true -> match_m P s = match_m cpython s.
Proof.
  intros s H. unfold match_m.
  destruct s as [|a [|b r]];
    [reflexivity|destruct (digit_in 49 57 a); reflexivity|].
  assert (H1 : forallb is_ascii (b :: r) = true)
    by (cbn [forallb] in H; now apply andb_prop in H as [_ H]).
  assert (H2 : forallb is_ascii r = true)
    by (cbn [forallb] in H1; now apply andb_prop in H1 as [_ H1]).
  destruct (N.eqb a 49), (N.eqb a ZERO), (digit_in 48 50 b),
    (digit_in 49 57 b), (digit_in 49 57 a);
    rewrite ?(match_rest_ascii _ r H2), ?(match_rest_ascii _ (b :: r) H1);
    reflexivity.
Qed.
End DateFacts.

Lemma In_zrange :
  forall lo n z, (lo <= z < lo + Z.of_nat n)%Z -> In z (zrange lo n).
Proof.
  intros lo n z H. unfold zrange. apply in_map_iff.
  exists (Z.to_nat (z - lo)). split; [lia|]. apply in_seq. lia.
Qed.

(** Every month and day of two digits is read back, on CPython. *)
Lemma months_and_days_checked :
  forallb (fun m =>
    forallb (fun d =>
      match match_m cpython (pad2 m ++ [HYPHEN] ++ pad2 d) with
      | Some (m', d', []) => Z.eqb m' m && Z.eqb d' d
      | _ => false
      end) (zrange 1 31)) (zrange 1 12) = true.
Proof. vm_compute. reflexivity. Qed.

Lemma pad2_ascii : forall z, forallb is_ascii (pad2 z) = true.
Proof.
  intros z. unfold pad2. cbn [forallb].
  pose proof (digit_char_range (z / 10)). pose proof (digit_char_range z).
  unfold is_ascii.
  replace (N.ltb (digit_char (z / 10)) 128) with true
    by (symmetry; apply N.ltb_lt; lia).
  replace (N.ltb (digit_char z) 128) with true
    by (symmetry; apply N.ltb_lt; lia).
  reflexivity.
Qed.

Lemma match_m_two_digits :
  forall P m d, (1 <= m <= 12)%Z -> (1 <= d <= 31)%Z ->
    match_m P (pad2 m ++ [HYPHEN] ++ pad2 d) = Some (m, d, []).
Proof.
  intros P m d Hm Hd.
  rewrite match_m_ascii.
  2:{ rewrite !forallb_app, !pad2_ascii. reflexivity. }
  pose proof months_and_days_checked as H.
  rewrite forallb_forall in H.
  specialize (H m (@In_zrange 1 12 m ltac:(lia))).
  rewrite forallb_forall in H.
  specialize (H d (@In_zrange 1 31 d ltac:(lia))).
  cbv beta in H.
  destruct (match_m cpython (pad2 m ++ [HYPHEN] ++ pad2 d))
    as [[[m' d'] [|c r]]|]; try discriminate.
  apply andb_prop in H as [H1 H2].
  apply Z.eqb_eq in H1, H2. now subst.
Qed.

Section FormatDate.
Variable P : platform.

Lemma days_in_month_le : forall y m, (days_in_month y m <= 31)%Z.
Proof.
  intros y m. unfold days_in_month.
  destruct (Z.eqb m 2); [destruct (is_leap y); lia|].
  destruct (Z.eqb m 4 || Z.eqb m 6 || Z.eqb m 9 || Z.eqb m 11); lia.
Qed.

Lemma valid_date_bounds :
  forall y m d, valid_date y m d = true ->
    (1 <= y <= 9999 /\ 1 <= m <= 12 /\ 1 <= d <= 31)%Z.
Proof.
  intros y m d H. unfold valid_date in H.
  repeat (apply andb_prop in H as [H ?]).
  repeat match goal with H : Z.leb _ _ = true |- _ => apply Z.leb_le in H end.
  pose proof (days_in_month_le y m). lia.
Qed.


Lemma render_year_pad4 :
  forall y, (1000 <= y <= 9999)%Z -> render_year P y = pad4 y.
Proof.
  intros y H. unfold render_year.
  destruct (strftime_pads_year P); [reflexivity|].
  unfold pad4. cbn [drop_zeros].
  replace (N.eqb (digit_char (y / 1000)) ZERO) with false; [reflexivity|].
  symmetry. apply N.eqb_neq. unfold digit_char, ZERO.
  assert ((y / 1000) mod 10 >= 1)%Z
    by (Z.to_euclidean_division_equations; lia).
  lia.
Qed.

Lemma strftime_dmy :
  forall dt, (1000 <= dt_year dt <= 9999)%Z ->
    strftime P dt = dmy_date (dt_year dt) (dt_month dt) (dt_day dt).
Proof.
  intros dt H. unfold strftime, dmy_date. now rewrite render_year_pad4.
Qed.

Lemma strptime_strftime :
  forall dt, exists e, strptime P (strftime P dt) = inl e.
Proof.
  intros dt. unfold strftime, strptime, pad2. cbn [app].
  unfold match_Y at 1. rewrite re_digit_slash.
  destruct (re_digit P (digit_char (dt_day dt / 10))),
    (re_digit P (digit_char (dt_day dt))); eexists; reflexivity.
Qed.

Lemma format_date_unparsed :
  forall s e, strptime P s = inl e -> format_date P (VStr s) = VStr s.
Proof.
  intros s e H. unfold format_date. now rewrite H, py_str_str.
Qed.

Lemma format_date_idempotent :
  forall v, format_date P (format_date P v) = format_date P v.
Proof.
  assert (Hs : forall dt,
             format_date P (VStr (strftime P dt)) = VStr (strftime P dt)).
  { intros dt. destruct (strptime_strftime dt) as [e He].
    now apply (format_date_unparsed _ He). }
  intros v. destruct v; try reflexivity.
  - cbn [format_date]. destruct (strptime P s) as [e|dt] eqn:E.
    + rewrite py_str_str. now apply (format_date_unparsed _ E).
    + apply Hs.
  - apply Hs.
Qed.

Variable o : options.

(** [format_date] given as the [date_formatter]. *)
Hypothesis formatter :
  date_formatter_arg o = DFCallable (fun v => inr (format_date P v)).



End FormatDate.




(** * Further properties *)

(** ** Header normalisation: fixed points and collisions *)

(** X1.  [normalize_header] is idempotent, and the headers it leaves
    unchanged are exactly those in normal form: ASCII only, no space, no
    capital letter, no white space at either end. *)
Theorem normalize_header_fixed_points (P : platform) (h : str) :
  normalize_header P (normalize_header P h) = normalize_header P h
  /\ (normalize_header P h = h <-> normal_form h).
Proof.
  split; [apply normalize_header_idempotent|].
  split; intros H.
  - rewrite <- H. apply normalize_header_normal_form.
  - now apply normal_form_fixed.
Qed.

Lemma normalize_header_of_ascii :
  forall P h, forallb is_ascii h = true ->
    normalize_header P h
    = replace_char SPACE UNDERSCORE (map ascii_lower (strip h)).
Proof.
  intros P h H. rewrite normalize_header_unfold, nfkd_ascii by exact H.
  rewrite ascii_ignore_fixed by exact H. symmetry. apply replace_lower_map.
Qed.

(** X2.  Two ASCII headers that differ only in the case of their letters
    and in white space at either end get the same canonical key. *)
Theorem normalize_header_ignores_case_and_margins
  (P : platform) (h1 h2 : str) :
  forallb is_ascii h1 = true -> forallb is_ascii h2 = true ->
  map ascii_lower (strip h1) = map ascii_lower (strip h2) ->
  normalize_header P h1 = normalize_header P h2.
Proof.
  intros H1 H2 E. rewrite !normalize_header_of_ascii by assumption.
  now rewrite E.
Qed.

Lemma normalize_header_ignores_case_witness :
  normalize_header cpython (lit " First Name")
  = normalize_header cpython (lit "FIRST NAME  ").
Proof.
  apply normalize_header_ignores_case_and_margins; reflexivity.
Defined.

Lemma fold_char_replace :
  forall c, fold_char (if N.eqb c SPACE then UNDERSCORE else c) = fold_char c.
Proof.
  intros c. destruct (N.eqb_spec c SPACE) as [->|]; reflexivity.
Qed.

Lemma replace_space_trimmed :
  forall s, trimmed s -> trimmed (replace_char SPACE UNDERSCORE s).
Proof.
  intros s H. apply trimmed_map; [|exact H].
  intros c Hc. destruct (N.eqb_spec c SPACE); [reflexivity|exact Hc].
Qed.

(** X3.  A trimmed ASCII header written with spaces and the same header
    written with underscores collide on one key. *)
Theorem normalize_header_space_underscore (P : platform) (h : str) :
  forallb is_ascii h = true -> trimmed h ->
  normalize_header P (replace_char SPACE UNDERSCORE h) = normalize_header P h.
Proof.
  intros Ha Ht.
  assert (Ha' : forallb is_ascii (replace_char SPACE UNDERSCORE h) = true).
  { unfold replace_char. rewrite forallb_forall in *. intros c Hc.
    apply in_map_iff in Hc as (c0 & <- & Hc0).
    destruct (N.eqb c0 SPACE); [reflexivity|now apply Ha]. }
  rewrite !normalize_header_of_ascii by assumption.
  rewrite !strip_fixed by (try apply replace_space_trimmed; exact Ht).
  rewrite !replace_lower_map. unfold replace_char. rewrite map_map.
  apply map_ext. intros c. apply fold_char_replace.
Qed.

Lemma normalize_header_space_underscore_witness :
  normalize_header cpython (lit "first_name")
  = normalize_header cpython (lit "first name").
Proof.
  apply (@normalize_header_space_underscore cpython (lit "first name"));
    [reflexivity|split; reflexivity].
Defined.

(** ** The record normaliser: collisions and trimming *)

Lemma dict_get_set :
  forall (V : Type) (d : dict V) k v k',
    dict_get (dict_set d k v) k'
    = if str_eqb k k' then Some v else dict_get d k'.
Proof.
  intros V d k v k'. destruct (str_eqb k k') eqn:E.
  - apply str_eqb_eq in E as ->. apply dict_get_set_same.
  - apply str_eqb_neq in E. now apply dict_get_set_other.
Qed.

Lemma NoDup_dict_set :
  forall (V : Type) (d : dict V) k v,
    NoDup (keys d) -> NoDup (keys (dict_set d k v)).
Proof.
  intros V d k v H. rewrite keys_dict_set.
  destruct (dict_mem d k) eqn:M; [exact H|].
  assert (Hk : ~ In k (keys d)).
  { intros Hx. apply dict_get_In_keys in Hx.
    unfold dict_mem in M. destruct (dict_get d k); [discriminate|now apply Hx]. }
  clear M. induction (keys d) as [|a l IH]; simpl.
  - constructor; [intros []|constructor].
  - inversion H; subst. constructor.
    + rewrite in_app_iff. intros [Ha|[->|[]]]; [contradiction|].
      apply Hk. now left.
    + apply IH; [assumption|]. intros Hx. apply Hk. now right.
Qed.

Lemma find_snoc :
  forall (A : Type) (f : A -> bool) l x,
    find f (l ++ [x])
    = match find f l with
      | Some y => Some y
      | None => if f x then Some x else None
      end.
Proof.
  intros A f l x. induction l as [|a l IH]; simpl; [reflexivity|].
  destruct (f a); [reflexivity|exact IH].
Qed.

Lemma lstrip_all_space : forall s, lstrip s = [] <-> all_space s = true.
Proof.
  unfold all_space. induction s as [|c s IH]; simpl; [tauto|].
  destruct (py_isspace c); simpl; [exact IH|]. split; discriminate.
Qed.

Lemma all_space_rev : forall s, all_space (rev s) = all_space s.
Proof.
  intros s. unfold all_space. apply eq_true_iff_eq.
  rewrite !forallb_forall. split; intros H c Hc; apply H.
  - now apply in_rev in Hc.
  - now apply in_rev.
Qed.

(** Stripping leaves nothing exactly of the strings made of white space. *)
Lemma strip_all_space : forall s, strip s = [] <-> all_space s = true.
Proof.
  intros s. unfold strip, rstrip. rewrite <- lstrip_all_space. split.
  - intros H. apply (f_equal (@rev N)) in H. rewrite rev_involutive in H.
    simpl in H. apply lstrip_all_space in H. rewrite all_space_rev in H.
    destruct (lstrip s) as [|c r] eqn:E; [reflexivity|].
    apply lstrip_head_not_space in E. unfold all_space in H. simpl in H.
    rewrite E in H. discriminate.
  - intros H. now rewrite H.
Qed.

Section Rows.
Variable P : platform.
Variable o : options.

Lemma build_fold_get :
  forall (raw : raw_record) acc k,
    dict_get
      (fold_left (fun r kv => dict_set r (new_key P o (fst kv))
                                (strip_value (snd kv))) raw acc) k
    = match find (fun kv => str_eqb (new_key P o (fst kv)) k) (rev raw) with
      | Some kv => Some (strip_value (snd kv))
      | None => dict_get acc k
      end.
Proof.
  induction raw as [|x raw IH]; intros acc k; simpl; [reflexivity|].
  rewrite IH, find_snoc.
  destruct (find _ (rev raw)); [reflexivity|].
  rewrite dict_get_set. now destruct (str_eqb _ k).
Qed.

Lemma build_fold_NoDup :
  forall (raw : raw_record) acc,
    NoDup (keys acc) ->
    NoDup (keys (fold_left (fun r kv => dict_set r (new_key P o (fst kv))
                                          (strip_value (snd kv))) raw acc)).
Proof.
  induction raw as [|x raw IH]; intros acc H; simpl; [exact H|].
  apply IH, NoDup_dict_set, H.
Qed.

Lemma build_row_get :
  forall raw k,
    dict_get (build_row P o raw) k
    = option_map (fun kv => strip_value (snd kv)) (last_under P o raw k).
Proof.
  intros raw k. unfold build_row, last_under. rewrite build_fold_get.
  now destruct (find _ (rev raw)).
Qed.

(** X4.  A canonical record has no key twice; when several columns of a
    raw record fall under one key, the record keeps the (trimmed) value
    of the last of them. *)
Theorem build_row_last_wins (raw : raw_record) (k : str) :
  NoDup (keys (fst (normalize_row P o raw)))
  /\ NoDup (keys (build_row P o raw))
  /\ dict_get (build_row P o raw) k
     = option_map (fun kv => strip_value (snd kv)) (last_under P o raw k).
Proof.
  assert (N : NoDup (keys (build_row P o raw))).
  { apply build_fold_NoDup. constructor. }
  split; [|split].
  - now rewrite normalize_row_keys.
  - exact N.
  - apply build_row_get.
Qed.

Lemma format_field_keeps_falsy :
  forall acc dk k v,
    dict_get (fst acc) k = Some v -> truthy v = false ->
    dict_get (fst (format_field o acc dk)) k = Some v.
Proof.
  intros [r lg] dk k v G T. unfold format_field. cbn [fst] in *.
  destruct (dict_get r dk) as [w|] eqn:E; [|exact G].
  destruct (truthy w) eqn:Tw; [|exact G].
  destruct (apply_formatter o w) as [e|[w'|]]; cbn [fst]; try exact G.
  rewrite dict_get_set. destruct (str_eqb dk k) eqn:K; [|exact G].
  apply str_eqb_eq in K. subst. congruence.
Qed.

Lemma format_fold_keeps_falsy :
  forall dks acc k v,
    dict_get (fst acc) k = Some v -> truthy v = false ->
    dict_get (fst (fold_left (format_field o) dks acc)) k = Some v.
Proof.
  induction dks as [|dk dks IH]; intros acc k v G T; simpl; [exact G|].
  apply IH; [|exact T]. now apply format_field_keeps_falsy.
Qed.

(** No formatter touches a falsy field. *)
Lemma normalize_row_keeps_falsy :
  forall raw k v,
    dict_get (build_row P o raw) k = Some v -> truthy v = false ->
    dict_get (fst (normalize_row P o raw)) k = Some v.
Proof.
  intros raw k v G T. unfold normalize_row.
  destruct (df_truthy _ && _); [|exact G].
  now apply format_fold_keeps_falsy.
Qed.

(** X5.  Every string the first loop of [normalize_row] stores is the
    stripped text of the last column filed under its key, so it neither
    starts nor ends with white space. *)
Theorem build_row_strings_trimmed (raw : raw_record) (k s : str) :
  dict_get (build_row P o raw) k = Some (VStr s) ->
  trimmed s
  /\ exists kv s0,
       last_under P o raw k = Some kv /\ snd kv = VStr s0 /\ s = strip s0.
Proof.
  rewrite build_row_get. intros H.
  destruct (last_under P o raw k) as [[k0 v]|]; [|discriminate].
  cbn in H. injection H as H. destruct v; try discriminate.
  cbn in H. injection H as <-. split; [apply strip_trimmed|].
  now exists (k0, VStr s0), s0.
Qed.

(** X6.  A required field whose cell holds nothing but white space is
    stored as the empty string and counts as missing, whatever the date
    formatter is. *)
Theorem blank_required_field_is_missing
  (raw : raw_record) (f : str) (k : option str) (s : str) :
  In f (req P o) ->
  last_under P o raw f = Some (k, VStr s) ->
  all_space s = true ->
  let r := fst (normalize_row P o raw) in
  dict_get r f = Some (VStr [])
  /\ fst (is_valid P o r) = false
  /\ In f (snd (is_valid P o r)).
Proof.
  intros Hf L S r.
  assert (G : dict_get r f = Some (VStr [])).
  { apply normalize_row_keeps_falsy; [|reflexivity].
    rewrite build_row_get, L. cbn. f_equal. f_equal.
    now apply strip_all_space. }
  assert (M : In f (snd (is_valid P o r))).
  { unfold is_valid. cbn [snd]. apply filter_In. split; [exact Hf|].
    unfold is_missing. now rewrite G. }
  split; [exact G|split; [|exact M]].
  unfold is_valid in *. cbn [fst snd] in *.
  destruct (filter (is_missing r) (req P o)); [destruct M|reflexivity].
Qed.

(** X7.  Blankness is tested on the raw cells, before they are trimmed: a
    delimited-text row whose cells all hold white space is not skipped.
    Its canonical record holds only empty strings; it is rejected as soon
    as one field is required and emitted when none is. *)
Theorem white_space_row_is_processed (st : state) (raw : raw_record) :
  raw <> [] ->
  Forall (fun kv => exists s,
            snd kv = VStr s /\ s <> [] /\ all_space s = true) raw ->
  let r := fst (normalize_row P o raw) in
  csv_blank raw = false
  /\ csv_body P o st raw = process P o st raw
  /\ (forall k v, dict_get r k = Some v -> v = VStr [])
  /\ (forall f, In f (req P o) -> fst (is_valid P o r) = false)
  /\ (req P o = [] ->
      exists st', csv_body P o st raw = emit_row o st' r).
Proof.
  intros Hn Hw r.
  assert (B : csv_blank raw = false).
  { unfold csv_blank. destruct raw as [|[k v] raw]; [contradiction|].
    inversion Hw as [|? ? (s & Hs & Hne & _) _]; subst. cbn in Hs. subst v.
    cbn. now destruct s. }
  assert (V : forall k v, dict_get (build_row P o raw) k = Some v -> v = VStr []).
  { intros k v. rewrite build_row_get. unfold last_under.
    destruct (find _ (rev raw)) as [kv|] eqn:F; [|discriminate].
    apply find_some in F as [Hin _]. apply in_rev in Hin.
    rewrite Forall_forall in Hw. destruct (Hw kv Hin) as (s & Hs & _ & Sp).
    cbn. rewrite Hs. cbn. intros H. injection H as <-.
    f_equal. now apply strip_all_space. }
  assert (R : forall k v, dict_get r k = Some v -> v = VStr []).
  { intros k v H.
    destruct (dict_get (build_row P o raw) k) as [w|] eqn:G.
    - pose proof (V k w G) as ->. unfold r in H.
      rewrite (normalize_row_keeps_falsy raw k G eq_refl) in H.
      now injection H as <-.
    - exfalso.
      assert (In k (keys r))
        by (apply dict_get_In_keys; rewrite H; discriminate).
      unfold r in *. rewrite normalize_row_keys in *.
      apply dict_get_In_keys in H0. now apply H0. }
  split; [exact B|]. split; [unfold csv_body; now rewrite B|].
  split; [exact R|]. split.
  - intros f Hf. unfold is_valid. cbn [fst].
    assert (M : In f (filter (is_missing r) (req P o))).
    { apply filter_In. split; [exact Hf|]. unfold is_missing.
      destruct (dict_get r f) as [v|] eqn:G; [|reflexivity].
      now rewrite (R f v G). }
    destruct (filter (is_missing r) (req P o)); [destruct M|reflexivity].
  - intros Hr. unfold csv_body. rewrite B. unfold process. fold r.
    destruct (normalize_row P o raw) as [r0 lg] eqn:N. cbn [fst] in r.
    subst r. unfold is_valid. rewrite Hr. cbn. eauto.
Qed.
End Rows.

Lemma build_row_strings_witness :
  let raw := [(Some (lit "Name"), VStr (lit " A "));
              (Some (lit "NAME"), VStr (lit "  Ada "))] in
  trimmed (lit "Ada")
  /\ exists kv s0,
       last_under cpython default_options raw (lit "name") = Some kv
       /\ snd kv = VStr s0 /\ lit "Ada" = strip s0.
Proof.
  intros raw.
  apply (@build_row_strings_trimmed cpython default_options raw (lit "name")
           (lit "Ada")).
  reflexivity.
Defined.

Lemma blank_required_field_witness :
  let o := requiring [lit "Name"] in
  let raw := [(Some (lit "NAME"), VStr (lit "   "));
              (Some (lit "Surname"), VStr (lit "B"))] in
  let r := fst (normalize_row cpython o raw) in
  dict_get r (lit "name") = Some (VStr [])
  /\ fst (is_valid cpython o r) = false
  /\ In (lit "name") (snd (is_valid cpython o r)).
Proof.
  apply (@blank_required_field_is_missing cpython (requiring [lit "Name"])
           [(Some (lit "NAME"), VStr (lit "   "));
            (Some (lit "Surname"), VStr (lit "B"))]
           (lit "name") (Some (lit "NAME")) (lit "   "));
    [simpl; auto|reflexivity|reflexivity].
Defined.

Lemma white_space_row_witness :
  let raw := [(Some (lit "Name"), VStr (lit "  "));
              (Some (lit "Surname"), VStr (lit " "))] in
  let r := fst (normalize_row cpython default_options raw) in
  csv_blank raw = false
  /\ csv_body cpython default_options EMPTY raw
     = process cpython default_options EMPTY raw
  /\ (forall k v, dict_get r k = Some v -> v = VStr [])
  /\ (forall f, In f (req cpython default_options) ->
        fst (is_valid cpython default_options r) = false)
  /\ (req cpython default_options = [] ->
      exists st',
        csv_body cpython default_options EMPTY raw
        = emit_row default_options st' r).
Proof.
  intros raw.
  apply (@white_space_row_is_processed cpython default_options EMPTY raw);
    [discriminate|].
  repeat constructor; eexists; (split; [reflexivity|split;
    [discriminate|reflexivity]]).
Defined.

(** ** The sink, entry by entry *)

Section SinkFacts.
Variable P : platform.
Variable o : options.

Lemma process_sink :
  forall st raw,
    invalid_rows (fst (process P o st raw))
    = invalid_rows st
      ++ (if valid P o (fst (normalize_row P o raw)) then []
          else [rejected_entry P o (fst (normalize_row P o raw))]).
Proof.
  intros st raw. destruct (valid P o (fst (normalize_row P o raw))) eqn:V.
  - rewrite (process_valid P o st raw V). unfold emit_row.
    destruct (want_list o); cbn; now rewrite app_nil_r.
  - now rewrite (process_invalid P o st raw V).
Qed.

Lemma run_loop_sink :
  forall (A : Type) (body : state -> A -> state * option row)
         (reach : A -> option raw_record),
    (forall st x,
        match reach x with
        | Some raw => body st x = process P o st raw
        | None => invalid_rows (fst (body st x)) = invalid_rows st
        end) ->
    forall l st,
      invalid_rows (fst (run_loop body st l))
      = invalid_rows st
        ++ map (rejected_entry P o)
             (filter (fun r => negb (valid P o r))
                (canonical P o (filter_map reach l))).
Proof.
  intros A body reach Hb. induction l as [|x l IH]; intros st; simpl.
  - now rewrite app_nil_r.
  - specialize (Hb st x). specialize (IH (fst (body st x))).
    destruct (body st x) as [st1 y] eqn:B. cbn [fst] in *.
    destruct (run_loop body st1 l) as [st2 ys]. cbn [fst] in *.
    rewrite IH. destruct (reach x) as [raw|].
    + assert (S := process_sink st raw). rewrite <- Hb in S. cbn [fst] in S.
      rewrite S. unfold canonical. cbn [map filter].
      destruct (valid P o (fst (normalize_row P o raw))); cbn [negb map app];
        now rewrite <- app_assoc.
    + now rewrite Hb.
Qed.

Lemma filter_lengths :
  forall (A : Type) (p : A -> bool) l,
    List.length (filter p l) + List.length (filter (fun x => negb (p x)) l)
    = List.length l.
Proof.
  intros A p l. induction l as [|x l IH]; simpl; [reflexivity|].
  destruct (p x); simpl; lia.
Qed.

Lemma csv_quiet :
  forall st raw,
    match (if csv_blank raw then None else Some raw) with
    | Some raw' => csv_body P o st raw = process P o st raw'
    | None => invalid_rows (fst (csv_body P o st raw)) = invalid_rows st
    end.
Proof. intros st raw. unfold csv_body. now destruct (csv_blank raw). Qed.

Lemma xlsx_quiet :
  forall headers st vals,
    match (if xlsx_blank vals then None else Some (zip_dict headers vals)) with
    | Some raw' => xlsx_body P o headers st vals = process P o st raw'
    | None =>
        invalid_rows (fst (xlsx_body P o headers st vals)) = invalid_rows st
    end.
Proof.
  intros headers st vals. unfold xlsx_body. now destruct (xlsx_blank vals).
Qed.

Lemma json_quiet :
  forall st v,
    match json_raw v with
    | Some raw' => json_body P o st v = process P o st raw'
    | None => invalid_rows (fst (json_body P o st v)) = invalid_rows st
    end.
Proof.
  intros st v. unfold json_body, json_raw.
  destruct v; try (destruct (truthy _); reflexivity).
  destruct (truthy (VDict d)); cbn [negb andb]; [|reflexivity].
  now destruct (any_truthy (map snd d)).
Qed.

Variable E : environment.
Variable file_path : str.

Lemma reader_sink :
  forall f lg,
    f <> Jsonl ->
    rejected (reader P o E file_path f (mk_state [] [] lg))
    = map (rejected_entry P o)
        (filter (fun r => negb (valid P o r)) (records_read P o E file_path f)).
Proof.
  intros f lg Hf. unfold records_read, raws_read, rejected.
  destruct f; cbn [reader]; [| | |contradiction].
  - unfold read_csv, run_source, csv_raws.
    pose proof (run_loop_sink _ _ csv_quiet
                  (items (csv_open E (the_path file_path) (csv_encoding o)
                            (csv_delimiter o))) (mk_state [] [] lg)) as H.
    rewrite (filter_map_filter csv_blank (fun raw => raw)), map_id in H.
    destruct (run_loop _ _ _). exact H.
  - unfold read_xlsx.
    destruct (xlsx_open E (the_path file_path)) as [e|[cells rows]];
      [reflexivity|].
    unfold run_source, xlsx_raws.
    pose proof (run_loop_sink _ _ (xlsx_quiet (xlsx_headers P cells))
                  (items rows) (mk_state [] [] lg)) as H.
    rewrite (filter_map_filter xlsx_blank (zip_dict (xlsx_headers P cells)))
      in H.
    destruct (run_loop _ _ _). exact H.
  - unfold read_json.
    destruct (json_open E (the_path file_path)) as [e|data]; [reflexivity|].
    assert (H : forall l,
               rejected (run_source (json_body P o) (mk_state [] [] lg)
                           (mk_source l None))
               = map (rejected_entry P o)
                   (filter (fun r => negb (valid P o r))
                      (canonical P o (filter_map json_raw l)))).
    { intros l. unfold rejected, run_source. cbn [items].
      pose proof (run_loop_sink _ _ json_quiet l (mk_state [] [] lg)) as H.
      destruct (run_loop _ _ _). exact H. }
    unfold rejected in H. destruct data; apply H.
Qed.
End SinkFacts.

(** X8.  For delimited text, spreadsheets and JSON documents the sink holds
    exactly one entry per rejected canonical record, in source order, and
    nothing else; accepted and rejected records together are all the
    canonical records. *)
Theorem sink_holds_exactly_the_rejected
  (P : platform) (o : options) (E : environment) (file_path : str)
  (f : format) (lg : list log_record) :
  f <> Jsonl ->
  let recs := records_read P o E file_path f in
  let res := reader P o E file_path f (mk_state [] [] lg) in
  rejected res
  = map (rejected_entry P o) (filter (fun r => negb (valid P o r)) recs)
  /\ List.length (accepted o res) + List.length (rejected res)
     = List.length recs.
Proof.
  intros Hf recs res.
  assert (R := reader_sink P o E file_path lg Hf). fold recs res in R.
  split; [exact R|].
  rewrite R, length_map.
  destruct (reader_partition P o E file_path f lg) as [A _].
  fold recs res in A. rewrite A. apply filter_lengths.
Qed.

Lemma valid_without_required :
  forall P o r, req P o = [] -> valid P o r = true.
Proof. intros P o r H. unfold valid, is_valid. now rewrite H. Qed.

Lemma filter_all :
  forall (A : Type) (p : A -> bool) l,
    (forall x, p x = true) -> filter p l = l.
Proof.
  intros A p l H. induction l as [|x l IH]; simpl; [reflexivity|].
  now rewrite H, IH.
Qed.

Lemma filter_none :
  forall (A : Type) (p : A -> bool) l,
    (forall x, p x = false) -> filter p l = [].
Proof.
  intros A p l H. induction l as [|x l IH]; simpl; [reflexivity|].
  now rewrite H, IH.
Qed.

Lemma read_data_body_nothing_rejected :
  forall P E file_path o st1 items ex,
    dispatch P E file_path o (start E o) = (st1, items, ex) ->
    invalid_rows st1 = [] ->
    written (read_data_body P E file_path o) = None
    /\ raised (read_data_body P E file_path o) = None.
Proof.
  intros P E file_path o st1 items ex D I. unfold read_data_body.
  fold (start E o). rewrite D. unfold flush.
  assert (I2 : invalid_rows
                 (match ex with
                  | Some e => add_logs st1 [handle file_path e]
                  | None => st1
                  end) = []) by now destruct ex.
  rewrite I2. now destruct (finish E o _).
Qed.

(** X9.  Without required fields nothing of a delimited-text, spreadsheet
    or JSON source is rejected: no sink is written, nothing is raised, and
    a streaming run yields every canonical record. *)
Theorem nothing_rejected_without_required_fields
  (P : platform) (E : environment) (file_path : str) (o : options)
  (f : format) :
  format_of_suffix (suffix P file_path) = Some f ->
  f <> Jsonl ->
  req P o = [] ->
  let g := read_data_body P E file_path o in
  written g = None /\ raised g = None
  /\ (want_list o = false -> yielded g = records_read P o E file_path f).
Proof.
  intros Hf Hj Hr g.
  pose proof (dispatch_reader P E file_path o (start E o) Hf) as D.
  pose proof (reader_sink P o E file_path
                (if progress o && negb (tqdm_available E)
                 then [LogTqdmMissing] else []) Hj) as S.
  fold (start E o) in S.
  rewrite filter_none in S
    by (intros r; now rewrite (valid_without_required P o r Hr)).
  destruct (reader P o E file_path f (start E o)) as [[st1 items] ex] eqn:R.
  cbn [rejected map] in S.
  destruct (read_data_body_nothing_rejected P E file_path o D S) as [W Ra].
  split; [exact W|split; [exact Ra|]].
  intros Wl. unfold g.
  rewrite (read_data_streams_accepted P E file_path o Hf Wl).
  destruct (reader_partition P o E file_path f
              (if progress o && negb (tqdm_available E)
               then [LogTqdmMissing] else [])) as [A _].
  fold (start E o) in A. rewrite A.
  apply filter_all. intros r. now apply valid_without_required.
Qed.

Lemma nothing_rejected_witness :
  let g := read_data_body cpython (with_csv scenario_A_rows)
             (lit "clients.csv") default_options in
  written g = None /\ raised g = None
  /\ (want_list default_options = false ->
        yielded g
        = records_read cpython default_options (with_csv scenario_A_rows)
            (lit "clients.csv") Csv).
Proof.
  apply (@nothing_rejected_without_required_fields cpython
           (with_csv scenario_A_rows) (lit "clients.csv") default_options Csv);
    [reflexivity|discriminate|reflexivity].
Defined.

Lemma sink_exact_witness :
  let o := requiring [lit "surname"] in
  let rows := [[(Some (lit "Name"), VStr (lit "A"));
                (Some (lit "Surname"), VStr [])];
               [(Some (lit "Name"), VStr (lit "B"));
                (Some (lit "Surname"), VStr (lit "C"))]] in
  let recs := records_read cpython o (with_csv rows) (lit "clients.csv") Csv in
  let res := reader cpython o (with_csv rows) (lit "clients.csv") Csv EMPTY in
  rejected res
  = map (rejected_entry cpython o)
      (filter (fun r => negb (valid cpython o r)) recs)
  /\ List.length (accepted o res) + List.length (rejected res)
     = List.length recs.
Proof.
  intros o rows.
  apply (@sink_holds_exactly_the_rejected cpython o (with_csv rows)
           (lit "clients.csv") Csv []).
  discriminate.
Defined.

(** ** What can leave the generator *)

Lemma supported_has_name :
  forall P file_path f,
    format_of_suffix (suffix P file_path) = Some f ->
    path_name (the_path file_path) <> [].
Proof.
  intros P file_path f H N. unfold suffix, path_suffix in H.
  rewrite N in H. simpl in H.
  rewrite (str_lower_ascii P []) in H by reflexivity. discriminate.
Qed.

Lemma with_suffix_named :
  forall p s, path_name p <> [] -> exists q, with_suffix p s = inr q.
Proof.
  intros p s H. unfold with_suffix. destruct (path_name p); [contradiction|].
  eauto.
Qed.

Lemma sink_path_defined :
  forall file_path o,
    path_name (the_path file_path) <> [] ->
    exists sink, sink_path file_path o = inr sink.
Proof.
  intros file_path o H. unfold sink_path.
  destruct (invalid_sink_path o) as [[|c s]|]; eauto using with_suffix_named.
Qed.

Lemma flush_raises :
  forall E file_path o st e,
    flush E file_path o st = inl e ->
    invalid_rows st <> []
    /\ (sink_path file_path o = inl e
        \/ exists sink,
             sink_path file_path o = inr sink /\ mkdir_parent E sink = Some e).
Proof.
  intros E file_path o st e. unfold flush.
  destruct (invalid_rows st) as [|r rs]; [discriminate|].
  destruct (sink_path file_path o) as [e'|sink].
  - intros H. injection H as <-. split; [discriminate|now left].
  - destruct (mkdir_parent E sink) as [e'|] eqn:M.
    + intros H. injection H as <-. split; [discriminate|right; eauto].
    + destruct (json_dumps (r :: rs)); [discriminate|].
      destruct (write_text E sink); discriminate.
Qed.

Lemma read_data_body_raised :
  forall P E file_path o e,
    raised (read_data_body P E file_path o) = Some e ->
    exists st1 items ex,
      dispatch P E file_path o (start E o) = (st1, items, ex)
      /\ flush E file_path o
           (match ex with Some x => add_logs st1 [handle file_path x]
                     | None => st1 end) = inl e.
Proof.
  intros P E file_path o e. unfold read_data_body. fold (start E o).
  destruct (dispatch P E file_path o (start E o)) as [[st1 items] ex].
  destruct (flush E file_path o _) as [e'|[st3 w]] eqn:F.
  - cbn [raised]. intros H. injection H as <-. eauto.
  - destruct (finish E o st3). cbn [raised]. discriminate.
Qed.

(** An exception leaves the body only from [mkdir], on a supported
    format. *)
Lemma raised_by_mkdir :
  forall P E file_path o e,
    raised (read_data_body P E file_path o) = Some e ->
    (exists sink,
        sink_path file_path o = inr sink /\ mkdir_parent E sink = Some e)
    /\ exists f, format_of_suffix (suffix P file_path) = Some f.
Proof.
  intros P E file_path o e H.
  apply read_data_body_raised in H as (st1 & items & ex & D & F).
  apply flush_raises in F as [I S].
  assert (Hf : exists f, format_of_suffix (suffix P file_path) = Some f).
  { destruct (format_of_suffix (suffix P file_path)) as [f|] eqn:Fm; [eauto|].
    rewrite (dispatch_unsupported P E file_path o _ Fm) in D.
    injection D as <- _ <-. exfalso. apply I.
    unfold start, add_logs. reflexivity. }
  split; [|exact Hf].
  destruct S as [S|S]; [|exact S].
  destruct Hf as [f Hf]. apply supported_has_name in Hf.
  destruct (sink_path_defined file_path o Hf) as [sink Hs]. congruence.
Qed.

(** X10.  Of the failures the body can meet (opening and reading the
    source, serialising and writing the sink, creating its directory,
    importing pandas), only the one of [sink.parent.mkdir] leaves the
    generator, and only on a supported format; the sink is then not
    written and no value is returned.  In particular [with_suffix] never
    fails where it is called. *)
Theorem read_data_raises_only_from_mkdir
  (P : platform) (E : environment) (file_path : str) (o : options) (e : exn) :
  let g := read_data_body P E file_path o in
  raised g = Some e ->
  (exists sink,
      sink_path file_path o = inr sink /\ mkdir_parent E sink = Some e)
  /\ (exists f, format_of_suffix (suffix P file_path) = Some f)
  /\ written g = None /\ stop_value g = RNone.
Proof.
  intros g H.
  assert (W : written g = None /\ stop_value g = RNone).
  { unfold g in *. unfold read_data_body in *.
    destruct (dispatch P E file_path o _) as [[st1 items] ex].
    destruct (flush E file_path o _) as [e'|[st3 w]]; [now split|].
    destruct (finish E o st3). discriminate. }
  destruct (raised_by_mkdir P E file_path o H) as [S Hf].
  split; [exact S|split; [exact Hf|exact W]].
Qed.

Lemma read_data_raises_witness :
  let rows := [[(Some (lit "Name"), VStr (lit "A"));
                (Some (lit "Surname"), VStr [])]] in
  let g := read_data_body cpython (with_csv_sealed rows) (lit "clients.csv")
             (requiring [lit "surname"]) in
  (exists sink,
      sink_path (lit "clients.csv") (requiring [lit "surname"]) = inr sink
      /\ mkdir_parent (with_csv_sealed rows) sink = Some denied)
  /\ (exists f, format_of_suffix (suffix cpython (lit "clients.csv")) = Some f)
  /\ written g = None /\ stop_value g = RNone.
Proof.
  intros rows g.
  apply (@read_data_raises_only_from_mkdir cpython (with_csv_sealed rows)
           (lit "clients.csv") (requiring [lit "surname"]) denied).
  reflexivity.
Defined.

(** ** Failures of a reader *)

Lemma read_data_body_logs_failure :
  forall P E file_path o st1 items e,
    dispatch P E file_path o (start E o) = (st1, items, Some e) ->
    In (handle file_path e) (run_logs (read_data_body P E file_path o)).
Proof.
  intros P E file_path o st1 items e D. unfold read_data_body.
  fold (start E o). rewrite D.
  assert (H0 : In (handle file_path e)
                 (logs (add_logs st1 [handle file_path e]))).
  { unfold add_logs. cbn [logs]. rewrite in_app_iff. right. now left. }
  destruct (flush E file_path o _) as [e'|[st3 w]] eqn:F; [exact H0|].
  assert (H3 : In (handle file_path e) (logs st3)).
  { unfold flush in F.
    destruct (invalid_rows _); [now injection F as <- _|].
    destruct (sink_path file_path o); [discriminate|].
    destruct (mkdir_parent E p); [discriminate|].
    destruct (json_dumps _);
      [|destruct (write_text E p)]; injection F as <- _;
      unfold add_logs at 1; cbn [logs]; rewrite in_app_iff; now left. }
  destruct (finish E o st3) as [st4 v] eqn:Fi. cbn [run_logs].
  unfold finish in Fi.
  destruct (return_dataframe o); [destruct (pandas_import E)|destruct (as_list o)];
    injection Fi as <- _; try exact H3.
  unfold add_logs. cbn [logs]. rewrite in_app_iff. now left.
Qed.

(** X11.  An exception that ends a reader is caught and logged under the
    [except] clause of its class (file not found, permission denied, or
    unexpected error); the records read before it are still delivered,
    and nothing is raised unless the sink's directory cannot be
    created. *)
Theorem reader_failure_is_logged
  (P : platform) (E : environment) (file_path : str) (o : options)
  (f : format) (e : exn) :
  format_of_suffix (suffix P file_path) = Some f ->
  snd (reader P o E file_path f (start E o)) = Some e ->
  let g := read_data_body P E file_path o in
  In (handle file_path e) (run_logs g)
  /\ (forall m, e = FileNotFoundError m ->
        In (LogFileNotFound file_path) (run_logs g))
  /\ (forall m, e = PermissionError m ->
        In (LogPermissionDenied file_path) (run_logs g))
  /\ (forall m, e = ValueError m ->
        In (LogUnexpected file_path e) (run_logs g))
  /\ (want_list o = false ->
        yielded g = filter (valid P o) (records_read P o E file_path f))
  /\ ((forall p, mkdir_parent E p = None) -> raised g = None).
Proof.
  intros Hf He g.
  assert (L : In (handle file_path e) (run_logs g)).
  { pose proof (dispatch_reader P E file_path o (start E o) Hf) as D.
    destruct (reader P o E file_path f (start E o)) as [[st1 items] ex].
    cbn in He. subst ex. eapply read_data_body_logs_failure, D. }
  split; [exact L|]. split; [|split; [|split; [|split]]].
  - intros m ->. exact L.
  - intros m ->. exact L.
  - intros m ->. exact L.
  - intros W. unfold g. rewrite (read_data_streams_accepted P E file_path o Hf W).
    apply (reader_partition P o E file_path f).
  - intros M. destruct (raised g) as [x|] eqn:R; [|reflexivity].
    apply raised_by_mkdir in R as ((sink & _ & S) & _).
    rewrite M in S. discriminate.
Qed.

Lemma reader_failure_witness :
  let rows := [[(Some (lit "Name"), VStr (lit "A"))]] in
  let e := OtherError (lit "'utf-8' codec can't decode byte 0xff") in
  let g := read_data_body cpython (with_csv_broken rows e)
             (lit "clients.csv") default_options in
  In (LogUnexpected (lit "clients.csv") e) (run_logs g)
  /\ yielded g = [[(lit "name", VStr (lit "A"))]]
  /\ raised g = None.
Proof.
  intros rows e g.
  destruct (@reader_failure_is_logged cpython (with_csv_broken rows e)
              (lit "clients.csv") default_options Csv e eq_refl eq_refl)
    as (L & _ & _ & _ & Y & R).
  split; [exact L|]. split; [exact (Y eq_refl)|].
  apply R. reflexivity.
Defined.

(** ** The progress bar *)

Section LoggedFirst.
Variable P : platform.
Variable o : options.
Variable lg : list log_record.

Lemma add_logs_first :
  forall st l,
    add_logs (logged_first lg st) l = logged_first lg (add_logs st l).
Proof.
  intros st l. unfold add_logs, logged_first. cbn. now rewrite app_assoc.
Qed.

Lemma process_first :
  forall st raw,
    process P o (logged_first lg st) raw
    = (logged_first lg (fst (process P o st raw)), snd (process P o st raw)).
Proof.
  intros st raw. unfold process.
  destruct (normalize_row P o raw) as [r l].
  destruct (is_valid P o r) as [ok missing].
  rewrite add_logs_first.
  destruct ok; cbn [negb]; cbv iota.
  - unfold emit_row. destruct (want_list o); reflexivity.
  - reflexivity.
Qed.

Lemma run_loop_first :
  forall (A : Type) (body : state -> A -> state * option row),
    (forall st x,
        body (logged_first lg st) x
        = (logged_first lg (fst (body st x)), snd (body st x))) ->
    forall l st,
      run_loop body (logged_first lg st) l
      = (logged_first lg (fst (run_loop body st l)), snd (run_loop body st l)).
Proof.
  intros A body Hb. induction l as [|x l IH]; intros st; simpl; [reflexivity|].
  rewrite Hb. destruct (body st x) as [st1 y]. cbn [fst snd].
  rewrite IH. now destruct (run_loop body st1 l).
Qed.

Lemma run_source_first :
  forall (A : Type) (body : state -> A -> state * option row),
    (forall st x,
        body (logged_first lg st) x
        = (logged_first lg (fst (body st x)), snd (body st x))) ->
    forall src st,
      run_source body (logged_first lg st) src
      = let '(st1, ys, ex) := run_source body st src in
        (logged_first lg st1, ys, ex).
Proof.
  intros A body Hb src st. unfold run_source.
  rewrite (@run_loop_first _ _ Hb). now destruct (run_loop body st (items src)).
Qed.

Lemma csv_body_first :
  forall st raw,
    csv_body P o (logged_first lg st) raw
    = (logged_first lg (fst (csv_body P o st raw)), snd (csv_body P o st raw)).
Proof.
  intros st raw. unfold csv_body.
  destruct (csv_blank raw); [reflexivity|apply process_first].
Qed.

Lemma xlsx_body_first :
  forall headers st vals,
    xlsx_body P o headers (logged_first lg st) vals
    = (logged_first lg (fst (xlsx_body P o headers st vals)),
       snd (xlsx_body P o headers st vals)).
Proof.
  intros headers st vals. unfold xlsx_body.
  destruct (xlsx_blank vals); [reflexivity|apply process_first].
Qed.

Lemma json_body_first :
  forall st raw,
    json_body P o (logged_first lg st) raw
    = (logged_first lg (fst (json_body P o st raw)),
       snd (json_body P o st raw)).
Proof.
  intros st raw. unfold json_body.
  destruct (negb (truthy raw)); [reflexivity|].
  destruct raw; try (cbn [fst snd]; now rewrite add_logs_first).
  destruct (negb (any_truthy (map snd d))); [reflexivity|apply process_first].
Qed.

Lemma jsonl_body_first :
  forall st line,
    jsonl_body P o (logged_first lg st) line
    = (logged_first lg (fst (jsonl_body P o st line)),
       snd (jsonl_body P o st line)).
Proof.
  intros st line. unfold jsonl_body.
  destruct (strip line) as [|c l]; [reflexivity|].
  destruct (json_loads P (c :: l)) as [e|v]; [reflexivity|].
  destruct v; try reflexivity. apply process_first.
Qed.

Variable E : environment.
Variable file_path : str.

Lemma dispatch_first :
  forall st,
    dispatch P E file_path o (logged_first lg st)
    = let '(st1, ys, ex) := dispatch P E file_path o st in
      (logged_first lg st1, ys, ex).
Proof.
  intros st. unfold dispatch.
  repeat match goal with
  | |- context [str_eqb ?a ?b] => destruct (str_eqb a b)
  end; try reflexivity.
  - apply (@run_source_first _ _ csv_body_first).
  - unfold read_xlsx. destruct (xlsx_open E _) as [e|[cells rows]];
      [reflexivity|]. apply (@run_source_first _ _ (xlsx_body_first _)).
  - unfold read_json. destruct (json_open E _) as [e|data]; [reflexivity|].
    apply (@run_source_first _ _ json_body_first).
  - apply (@run_source_first _ _ jsonl_body_first).
Qed.

Lemma flush_first :
  forall st,
    flush E file_path o (logged_first lg st)
    = match flush E file_path o st with
      | inl e => inl e
      | inr (st', w) => inr (logged_first lg st', w)
      end.
Proof.
  intros st. unfold flush. cbn [logged_first invalid_rows].
  destruct (invalid_rows st); [reflexivity|].
  destruct (sink_path file_path o); [reflexivity|].
  destruct (mkdir_parent E p); [reflexivity|].
  destruct (json_dumps _); [now rewrite add_logs_first|].
  destruct (write_text E p); now rewrite add_logs_first.
Qed.

Lemma finish_first :
  forall st,
    finish E o (logged_first lg st)
    = (logged_first lg (fst (finish E o st)), snd (finish E o st)).
Proof.
  intros st. unfold finish.
  destruct (return_dataframe o); [destruct (pandas_import E)|destruct (as_list o)];
    try reflexivity.
  cbn [fst snd]. now rewrite add_logs_first.
Qed.
End LoggedFirst.

Lemma dispatch_progress :
  forall P E file_path o b,
    dispatch P E file_path (with_progress b o)
    = dispatch P E file_path (with_progress false o).
Proof. reflexivity. Qed.

Lemma flush_progress :
  forall E file_path o b,
    flush E file_path (with_progress b o)
    = flush E file_path (with_progress false o).
Proof. reflexivity. Qed.

Lemma finish_progress :
  forall E o b, finish E (with_progress b o) = finish E (with_progress false o).
Proof. reflexivity. Qed.

Lemma read_data_body_progress :
  forall P E file_path o b,
    read_data_body P E file_path (with_progress b o)
    = let g := read_data_body P E file_path (with_progress false o) in
      mk_run (yielded g) (stop_value g) (raised g)
        ((if b && negb (tqdm_available E) then [LogTqdmMissing] else [])
         ++ run_logs g) (written g).
Proof.
  intros P E file_path o b. unfold read_data_body.
  rewrite dispatch_progress, flush_progress, finish_progress.
  change (want_list (with_progress b o)) with (want_list (with_progress false o)).
  cbn [progress with_progress andb].
  set (lg := if b && negb (tqdm_available E) then [LogTqdmMissing] else []).
  replace (mk_state [] [] lg) with (logged_first lg (mk_state [] [] []))
    by (unfold logged_first; cbn; now rewrite app_nil_r).
  rewrite dispatch_first.
  destruct (dispatch P E file_path (with_progress false o) (mk_state [] [] []))
    as [[st1 items] ex].
  set (st2 := match ex with
              | Some e => add_logs st1 [handle file_path e]
              | None => st1
              end).
  assert (H2 : match ex with
               | Some e => add_logs (logged_first lg st1) [handle file_path e]
               | None => logged_first lg st1
               end = logged_first lg st2).
  { unfold st2. destruct ex; [apply add_logs_first|reflexivity]. }
  rewrite H2, flush_first.
  destruct (flush E file_path (with_progress false o) st2) as [e|[st3 w]];
    [reflexivity|].
  rewrite finish_first.
  now destruct (finish E (with_progress false o) st3).
Qed.

(** X12.  The [progress] flag changes nothing of a run but its log: with
    tqdm installed the two runs are the same, without it the run with
    [progress=True] logs one warning first. *)
Theorem progress_only_adds_a_warning
  (P : platform) (E : environment) (file_path : str) (o : options) :
  let g1 := read_data_body P E file_path (with_progress true o) in
  let g0 := read_data_body P E file_path (with_progress false o) in
  yielded g1 = yielded g0 /\ stop_value g1 = stop_value g0
  /\ raised g1 = raised g0 /\ written g1 = written g0
  /\ run_logs g1
     = (if tqdm_available E then [] else [LogTqdmMissing]) ++ run_logs g0.
Proof.
  cbv zeta. rewrite (read_data_body_progress P E file_path o true).
  cbn [yielded stop_value raised written run_logs andb].
  repeat split. now destruct (tqdm_available E).
Qed.

(** X13.  The [normalize_headers] argument is never read: whatever its
    value the run is the same, and headers are normalised even with
    [normalize_headers=False]. *)
Theorem normalize_headers_flag_is_ignored
  (P : platform) (E : environment) (file_path : str) (o : options)
  (b : bool) (raw : raw_record) :
  read_data_body P E file_path (with_normalize_headers b o)
  = read_data_body P E file_path o
  /\ normalize_row P (with_normalize_headers b o) raw = normalize_row P o raw
  /\ (forall k,
        column_map o = None ->
        new_key P (with_normalize_headers false o) (Some k)
        = normalize_header P k).
Proof.
  split; [reflexivity|]. split; [reflexivity|].
  intros k H. unfold new_key, colmap.
  cbn [column_map with_normalize_headers]. rewrite H. cbn [fold_left].
  now destruct k.
Qed.
(** ** What a drained run hands back *)

Lemma flush_out_rows :
  forall E file_path o st st' w,
    flush E file_path o st = inr (st', w) -> out_rows st' = out_rows st.
Proof.
  intros E file_path o st st' w. unfold flush.
  destruct (invalid_rows st); [intros H; now injection H as <- _|].
  destruct (sink_path file_path o); [discriminate|].
  destruct (mkdir_parent E p); [discriminate|].
  destruct (json_dumps _); [|destruct (write_text E p)];
    intros H; now injection H as <- _.
Qed.

Lemma read_data_body_stop_value :
  forall P E file_path o st1 items ex,
    dispatch P E file_path o (start E o) = (st1, items, ex) ->
    raised (read_data_body P E file_path o) = None ->
    stop_value (read_data_body P E file_path o)
    = snd (finish E o (mk_state (out_rows st1) [] [])).
Proof.
  intros P E file_path o st1 items ex D. unfold read_data_body.
  fold (start E o). rewrite D.
  destruct (flush E file_path o _) as [e|[st3 w]] eqn:F; [discriminate|].
  intros _. apply flush_out_rows in F.
  assert (O : out_rows st3 = out_rows st1) by (rewrite F; now destruct ex).
  destruct (finish E o st3) as [st4 v] eqn:Fi. cbn [stop_value].
  unfold finish in *. rewrite O in Fi. cbn [out_rows].
  destruct (return_dataframe o); [destruct (pandas_import E)|destruct (as_list o)];
    now injection Fi as _ <-.
Qed.

(** X14.  What [StopIteration] carries when a run on a supported format
    ends without raising: the accepted records as a list for [as_list], as
    a table for [return_dataframe] (also with [as_list]); when pandas
    cannot be imported, the list with [as_list=True] but an empty list
    with [as_list=False]; nothing when streaming. *)
Theorem stop_value_of_a_drained_run
  (P : platform) (E : environment) (file_path : str) (o : options)
  (f : format) :
  format_of_suffix (suffix P file_path) = Some f ->
  let g := read_data_body P E file_path o in
  let rows := filter (valid P o) (records_read P o E file_path f) in
  raised g = None ->
  stop_value g
  = if return_dataframe o then
      match pandas_import E with
      | Some _ => RList (if as_list o then rows else [])
      | None => RDataFrame rows
      end
    else if as_list o then RList rows else RNone.
Proof.
  intros Hf g rows R.
  pose proof (dispatch_reader P E file_path o (start E o) Hf) as D.
  pose proof (reader_partition P o E file_path f
                (if progress o && negb (tqdm_available E)
                 then [LogTqdmMissing] else [])) as [A _].
  fold (start E o) in A. fold rows in A.
  destruct (reader P o E file_path f (start E o)) as [[st1 items] ex].
  unfold g. rewrite (read_data_body_stop_value P E file_path o D R).
  unfold accepted in A. unfold finish, want_list in *. cbn [out_rows snd].
  destruct (return_dataframe o), (as_list o); cbn [orb] in A;
    try rewrite A; try reflexivity; now destruct (pandas_import E).
Qed.

Lemma stop_value_witness :
  let o := mk_options false true true None None None DFNone (lit "utf-8")
             (lit ",") (Some (lit "Errors/errors.json")) true in
  let g := read_data_body cpython (with_csv_no_pandas scenario_A_rows)
             (lit "clients.csv") o in
  stop_value g = RList []
  /\ filter (valid cpython o)
       (records_read cpython o (with_csv_no_pandas scenario_A_rows)
          (lit "clients.csv") Csv) <> [].
Proof.
  intros o g. split.
  - apply (@stop_value_of_a_drained_run cpython
             (with_csv_no_pandas scenario_A_rows) (lit "clients.csv") o Csv);
      reflexivity.
  - vm_compute. discriminate.
Defined.

(** ** Streaming against materialising *)

Section Modes.
Variable P : platform.

(** The options of a materialising run and of a streaming run that differ
    in nothing the readers look at but the mode. *)
Variables ol os : options.
Hypothesis list_mode : want_list ol = true.
Hypothesis stream_mode : want_list os = false.
Hypothesis same_rows :
  forall raw, normalize_row P ol raw = normalize_row P os raw.
Hypothesis same_test : forall r, is_valid P ol r = is_valid P os r.
Hypothesis same_encoding : csv_encoding ol = csv_encoding os.
Hypothesis same_delimiter : csv_delimiter ol = csv_delimiter os.

(** One step of a reader in the two modes, from states that agree on the
    sink and on the log. *)
Lemma process_modes :
  forall sl ss raw,
    invalid_rows sl = invalid_rows ss -> logs sl = logs ss ->
    invalid_rows (fst (process P ol sl raw))
    = invalid_rows (fst (process P os ss raw))
    /\ logs (fst (process P ol sl raw)) = logs (fst (process P os ss raw))
    /\ out_rows (fst (process P ol sl raw))
       = out_rows sl
         ++ match snd (process P os ss raw) with Some r => [r] | None => [] end
    /\ snd (process P ol sl raw) = None
    /\ out_rows (fst (process P os ss raw)) = out_rows ss.
Proof.
  intros sl ss raw I L. unfold process. rewrite same_rows.
  destruct (normalize_row P os raw) as [r lg]. rewrite same_test.
  destruct (is_valid P os r) as [ok missing].
  destruct ok; cbn [negb]; cbv iota.
  - unfold emit_row. rewrite list_mode, stream_mode. cbn. rewrite I, L. auto.
  - cbn. rewrite I, L, app_nil_r. auto.
Qed.

Lemma run_loop_modes :
  forall (A : Type) (bl bs : state -> A -> state * option row),
    (forall sl ss x,
        invalid_rows sl = invalid_rows ss -> logs sl = logs ss ->
        invalid_rows (fst (bl sl x)) = invalid_rows (fst (bs ss x))
        /\ logs (fst (bl sl x)) = logs (fst (bs ss x))
        /\ out_rows (fst (bl sl x))
           = out_rows sl
             ++ match snd (bs ss x) with Some r => [r] | None => [] end
        /\ snd (bl sl x) = None
        /\ out_rows (fst (bs ss x)) = out_rows ss) ->
    forall l sl ss,
      invalid_rows sl = invalid_rows ss -> logs sl = logs ss ->
      invalid_rows (fst (run_loop bl sl l)) = invalid_rows (fst (run_loop bs ss l))
      /\ logs (fst (run_loop bl sl l)) = logs (fst (run_loop bs ss l))
      /\ out_rows (fst (run_loop bl sl l))
         = out_rows sl ++ snd (run_loop bs ss l)
      /\ snd (run_loop bl sl l) = []
      /\ out_rows (fst (run_loop bs ss l)) = out_rows ss.
Proof.
  intros A bl bs Hb. induction l as [|x l IH]; intros sl ss I L; simpl.
  - rewrite app_nil_r. auto.
  - destruct (Hb sl ss x I L) as (I1 & L1 & O1 & Y1 & S1).
    destruct (bl sl x) as [sl1 yl]. destruct (bs ss x) as [ss1 ys].
    cbn [fst snd] in *.
    destruct (IH sl1 ss1 I1 L1) as (I2 & L2 & O2 & Y2 & S2).
    destruct (run_loop bl sl1 l) as [sl2 yls].
    destruct (run_loop bs ss1 l) as [ss2 yss]. cbn [fst snd] in *.
    subst yl yls. rewrite O2, O1, S2, S1, <- app_assoc.
    repeat split; try assumption. now destruct ys.
Qed.

Ltac same_step I L :=
  cbn [fst snd]; rewrite ?I, ?L, ?app_nil_r; auto.

Lemma csv_body_modes :
  forall sl ss raw,
    invalid_rows sl = invalid_rows ss -> logs sl = logs ss ->
    invalid_rows (fst (csv_body P ol sl raw))
    = invalid_rows (fst (csv_body P os ss raw))
    /\ logs (fst (csv_body P ol sl raw)) = logs (fst (csv_body P os ss raw))
    /\ out_rows (fst (csv_body P ol sl raw))
       = out_rows sl
         ++ match snd (csv_body P os ss raw) with Some r => [r] | None => [] end
    /\ snd (csv_body P ol sl raw) = None
    /\ out_rows (fst (csv_body P os ss raw)) = out_rows ss.
Proof.
  intros sl ss raw I L. unfold csv_body.
  destruct (csv_blank raw); [same_step I L|now apply process_modes].
Qed.

Lemma xlsx_body_modes :
  forall headers sl ss vals,
    invalid_rows sl = invalid_rows ss -> logs sl = logs ss ->
    invalid_rows (fst (xlsx_body P ol headers sl vals))
    = invalid_rows (fst (xlsx_body P os headers ss vals))
    /\ logs (fst (xlsx_body P ol headers sl vals))
       = logs (fst (xlsx_body P os headers ss vals))
    /\ out_rows (fst (xlsx_body P ol headers sl vals))
       = out_rows sl
         ++ match snd (xlsx_body P os headers ss vals) with
            | Some r => [r] | None => [] end
    /\ snd (xlsx_body P ol headers sl vals) = None
    /\ out_rows (fst (xlsx_body P os headers ss vals)) = out_rows ss.
Proof.
  intros headers sl ss vals I L. unfold xlsx_body.
  destruct (xlsx_blank vals); [same_step I L|now apply process_modes].
Qed.

Lemma json_body_modes :
  forall sl ss v,
    invalid_rows sl = invalid_rows ss -> logs sl = logs ss ->
    invalid_rows (fst (json_body P ol sl v))
    = invalid_rows (fst (json_body P os ss v))
    /\ logs (fst (json_body P ol sl v)) = logs (fst (json_body P os ss v))
    /\ out_rows (fst (json_body P ol sl v))
       = out_rows sl
         ++ match snd (json_body P os ss v) with Some r => [r] | None => [] end
    /\ snd (json_body P ol sl v) = None
    /\ out_rows (fst (json_body P os ss v)) = out_rows ss.
Proof.
  intros sl ss v I L. unfold json_body.
  destruct (negb (truthy v)); [same_step I L|].
  destruct v; try (unfold add_logs; same_step I L).
  destruct (negb (any_truthy (map snd d)));
    [same_step I L|now apply process_modes].
Qed.

Lemma jsonl_body_modes :
  forall sl ss line,
    invalid_rows sl = invalid_rows ss -> logs sl = logs ss ->
    invalid_rows (fst (jsonl_body P ol sl line))
    = invalid_rows (fst (jsonl_body P os ss line))
    /\ logs (fst (jsonl_body P ol sl line))
       = logs (fst (jsonl_body P os ss line))
    /\ out_rows (fst (jsonl_body P ol sl line))
       = out_rows sl
         ++ match snd (jsonl_body P os ss line) with
            | Some r => [r] | None => [] end
    /\ snd (jsonl_body P ol sl line) = None
    /\ out_rows (fst (jsonl_body P os ss line)) = out_rows ss.
Proof.
  intros sl ss line I L. unfold jsonl_body.
  destruct (strip line) as [|c l]; [same_step I L|].
  destruct (json_loads P (c :: l)) as [e|v];
    [unfold record_invalid_sink; same_step I L|].
  destruct v; try (unfold record_invalid_sink; same_step I L).
  now apply process_modes.
Qed.

Variable E : environment.
Variable file_path : str.

Lemma dispatch_modes :
  forall lg,
    let rl := dispatch P E file_path ol (mk_state [] [] lg) in
    let rs := dispatch P E file_path os (mk_state [] [] lg) in
    invalid_rows (fst (fst rl)) = invalid_rows (fst (fst rs))
    /\ logs (fst (fst rl)) = logs (fst (fst rs))
    /\ out_rows (fst (fst rl)) = snd (fst rs)
    /\ snd rl = snd rs.
Proof.
  intros lg. cbv zeta. unfold dispatch.
  assert (R : forall (A : Type) (bl bs : state -> A -> state * option row) src,
             (forall sl ss x,
                 invalid_rows sl = invalid_rows ss -> logs sl = logs ss ->
                 invalid_rows (fst (bl sl x)) = invalid_rows (fst (bs ss x))
                 /\ logs (fst (bl sl x)) = logs (fst (bs ss x))
                 /\ out_rows (fst (bl sl x))
                    = out_rows sl
                      ++ match snd (bs ss x) with Some r => [r] | None => [] end
                 /\ snd (bl sl x) = None
                 /\ out_rows (fst (bs ss x)) = out_rows ss) ->
             let rl := run_source bl (mk_state [] [] lg) src in
             let rs := run_source bs (mk_state [] [] lg) src in
             invalid_rows (fst (fst rl)) = invalid_rows (fst (fst rs))
             /\ logs (fst (fst rl)) = logs (fst (fst rs))
             /\ out_rows (fst (fst rl)) = snd (fst rs)
             /\ snd rl = snd rs).
  { intros A bl bs src Hb. cbv zeta. unfold run_source.
    destruct (@run_loop_modes A bl bs Hb (items src) (mk_state [] [] lg)
                (mk_state [] [] lg) eq_refl eq_refl) as (I & L & O & _ & _).
    destruct (run_loop bl _ _), (run_loop bs _ _). cbn [fst snd] in *.
    auto. }
  repeat match goal with
  | |- context [str_eqb ?a ?b] => destruct (str_eqb a b)
  end; try (cbn; auto; fail).
  - unfold read_csv. rewrite same_encoding, same_delimiter.
    apply (R _ _ _ _ csv_body_modes).
  - unfold read_xlsx. destruct (xlsx_open E _) as [e|[cells rows]];
      [cbn; auto|]. apply (R _ _ _ _ (xlsx_body_modes (xlsx_headers P cells))).
  - unfold read_json. destruct (json_open E _) as [e|data]; [cbn; auto|].
    apply (R _ _ _ _ json_body_modes).
  - apply (R _ _ _ _ jsonl_body_modes).
Qed.
End Modes.

Lemma flush_agree :
  forall E file_path o sl ss,
    invalid_rows sl = invalid_rows ss -> logs sl = logs ss ->
    match flush E file_path o sl, flush E file_path o ss with
    | inl e, inl e' => e = e'
    | inr (sl', w), inr (ss', w') =>
        w = w' /\ logs sl' = logs ss' /\ out_rows sl' = out_rows sl
    | _, _ => False
    end.
Proof.
  intros E file_path o sl ss I L. unfold flush. rewrite I.
  destruct (invalid_rows ss); [auto|].
  destruct (sink_path file_path o); [reflexivity|].
  destruct (mkdir_parent E p); [reflexivity|].
  destruct (json_dumps _); [|destruct (write_text E p)];
    unfold add_logs; cbn; rewrite L; auto.
Qed.

(** X15.  [as_list] changes where the accepted records go, not which
    they are: the list a run with [as_list=True] returns holds the items
    the streaming run yields, in the same order, and both runs write the
    same sink, log the same records and fail alike. *)
Theorem as_list_builds_what_streaming_yields
  (P : platform) (E : environment) (file_path : str) (o : options) :
  return_dataframe o = false ->
  let gl := read_data_body P E file_path (with_as_list true o) in
  let gs := read_data_body P E file_path (with_as_list false o) in
  yielded gl = [] /\ raised gl = raised gs /\ written gl = written gs
  /\ run_logs gl = run_logs gs
  /\ (raised gl = None ->
        stop_value gl = RList (yielded gs) /\ stop_value gs = RNone).
Proof.
  intros F. cbv zeta. unfold read_data_body.
  assert (Wl : want_list (with_as_list true o) = true) by reflexivity.
  assert (Ws : want_list (with_as_list false o) = false)
    by (unfold want_list; cbn; exact F).
  rewrite Wl, Ws.
  change (progress (with_as_list true o)) with (progress o).
  change (progress (with_as_list false o)) with (progress o).
  set (lg := if progress o && negb (tqdm_available E)
             then [LogTqdmMissing] else []).
  destruct (@dispatch_modes P (with_as_list true o) (with_as_list false o)
              Wl Ws (fun _ => eq_refl) (fun _ => eq_refl) eq_refl eq_refl
              E file_path lg) as (I & L & O & X).
  destruct (dispatch P E file_path (with_as_list true o) _)
    as [[sl items_l] exl].
  destruct (dispatch P E file_path (with_as_list false o) _)
    as [[ss items_s] exs].
  cbn [fst snd] in *. subst exl.
  set (sl2 := match exs with
              | Some e => add_logs sl [handle file_path e] | None => sl end).
  set (ss2 := match exs with
              | Some e => add_logs ss [handle file_path e] | None => ss end).
  assert (I2 : invalid_rows sl2 = invalid_rows ss2)
    by (unfold sl2, ss2; now destruct exs).
  assert (L2 : logs sl2 = logs ss2)
    by (unfold sl2, ss2; destruct exs; cbn; now rewrite ?L).
  assert (O2 : out_rows sl2 = items_s)
    by (unfold sl2; now destruct exs).
  pose proof (flush_agree E file_path o sl2 ss2 I2 L2) as G.
  change (flush E file_path (with_as_list true o)) with (flush E file_path o).
  change (flush E file_path (with_as_list false o)) with (flush E file_path o).
  destruct (flush E file_path o sl2) as [e|[sl3 w]],
           (flush E file_path o ss2) as [e'|[ss3 w']]; try contradiction.
  - subst e'. cbn. repeat split; auto. discriminate.
  - destruct G as (-> & L3 & O3).
    unfold finish. cbn [return_dataframe as_list with_as_list].
    rewrite F. cbn. rewrite O3, O2. repeat split; auto.
Qed.

Lemma as_list_witness :
  let gl := read_data_body cpython (with_csv scenario_A_rows)
              (lit "clients.csv") (with_as_list true scenario_A_options) in
  let gs := read_data_body cpython (with_csv scenario_A_rows)
              (lit "clients.csv") (with_as_list false scenario_A_options) in
  yielded gl = [] /\ raised gl = raised gs /\ written gl = written gs
  /\ run_logs gl = run_logs gs
  /\ (raised gl = None ->
        stop_value gl = RList (yielded gs) /\ stop_value gs = RNone).
Proof.
  apply (@as_list_builds_what_streaming_yields cpython
           (with_csv scenario_A_rows) (lit "clients.csv") scenario_A_options).
  reflexivity.
Defined.

(** ** Items of a JSON document that are not objects *)

Lemma not_dict_logged_app :
  forall a b,
    not_dict_logged (a ++ b) = not_dict_logged a ++ not_dict_logged b.
Proof.
  intros a b. unfold not_dict_logged.
  induction a as [|r a IH]; simpl; [reflexivity|].
  destruct r; simpl; now rewrite ?IH.
Qed.

Lemma format_field_log :
  forall o acc dk,
    not_dict_logged (snd acc) = [] ->
    not_dict_logged (snd (format_field o acc dk)) = [].
Proof.
  intros o [r lg] dk H. unfold format_field. cbn [snd] in *.
  destruct (dict_get r dk) as [v|]; [|exact H].
  destruct (truthy v); [|exact H].
  destruct (apply_formatter o v) as [e|[v'|]]; cbn [snd]; try exact H.
  now rewrite not_dict_logged_app, H.
Qed.

Lemma format_fold_log :
  forall o dks acc,
    not_dict_logged (snd acc) = [] ->
    not_dict_logged (snd (fold_left (format_field o) dks acc)) = [].
Proof.
  intros o. induction dks as [|dk dks IH]; intros acc H; simpl; [exact H|].
  now apply IH, format_field_log.
Qed.

(** The warnings of [normalize_row] are those of the date formatter. *)
Lemma normalize_row_log :
  forall P o raw, not_dict_logged (snd (normalize_row P o raw)) = [].
Proof.
  intros P o raw. unfold normalize_row.
  destruct (df_truthy _ && _); [|reflexivity].
  now apply format_fold_log.
Qed.

Lemma process_logs :
  forall P o st raw,
    logs (fst (process P o st raw)) = logs st ++ snd (normalize_row P o raw).
Proof.
  intros P o st raw.
  destruct (valid P o (fst (normalize_row P o raw))) eqn:V.
  - rewrite (process_valid P o st raw V). unfold emit_row.
    now destruct (want_list o).
  - now rewrite (process_invalid P o st raw V).
Qed.

(** What [json_body] makes of an item that is not an object. *)
Lemma json_body_non_object :
  forall P o st v,
    is_object v = false ->
    json_body P o st v
    = (if truthy v then add_logs st [LogJsonNotDict v] else st, None).
Proof.
  intros P o st v H. unfold json_body.
  destruct (truthy v) eqn:T; cbn [negb]; [|reflexivity].
  destruct v; try reflexivity. discriminate.
Qed.

Lemma json_loop_warnings :
  forall P o l st,
    not_dict_logged (logs (fst (run_loop (json_body P o) st l)))
    = not_dict_logged (logs st)
      ++ filter (fun v => truthy v && negb (is_object v)) l.
Proof.
  intros P o. induction l as [|v l IH]; intros st; simpl.
  - now rewrite app_nil_r.
  - specialize (IH (fst (json_body P o st v))).
    destruct (json_body P o st v) as [st1 y] eqn:B. cbn [fst] in IH.
    destruct (run_loop (json_body P o) st1 l) as [st2 ys]. cbn [fst] in *.
    rewrite IH. clear IH.
    destruct (is_object v) eqn:O.
    + rewrite andb_false_r.
      destruct v; try discriminate. unfold json_body in B.
      destruct (negb (truthy (VDict d)));
        [now injection B as <- _|].
      destruct (negb (any_truthy (map snd d)));
        [now injection B as <- _|].
      assert (L := process_logs P o st (dict_items d)). rewrite B in L.
      cbn [fst] in L.
      now rewrite L, not_dict_logged_app, normalize_row_log, app_nil_r.
    + rewrite (json_body_non_object P o st v O) in B. rewrite andb_true_r.
      destruct (truthy v); injection B as <- _; [|reflexivity].
      unfold add_logs. cbn [logs]. rewrite not_dict_logged_app.
      now rewrite <- app_assoc.
Qed.

(** X16.  An item of a JSON array that is not an object is never a
    record and never reaches the sink (unlike a non-object line of a
    newline-delimited file), whatever else the array holds: a truthy one
    is logged as a warning, a falsy one is skipped without a trace.  The
    warnings of a run are those of the truthy non-objects, in order, and
    the sink grows by the rejected records alone. *)
Theorem json_non_objects_are_skipped
  (P : platform) (o : options) (E : environment) (file_path : str)
  (st : state) (l : list value) :
  json_open E (the_path file_path) = inr (VList l) ->
  let st' := fst (fst (read_json P o E file_path st)) in
  (forall v st0,
      is_object v = false ->
      json_raw v = None
      /\ json_body P o st0 v
         = (if truthy v then add_logs st0 [LogJsonNotDict v] else st0, None))
  /\ records_read P o E file_path Json = canonical P o (filter_map json_raw l)
  /\ not_dict_logged (logs st')
     = not_dict_logged (logs st)
       ++ filter (fun v => truthy v && negb (is_object v)) l
  /\ invalid_rows st'
     = invalid_rows st
       ++ map (rejected_entry P o)
            (filter (fun r => negb (valid P o r))
               (canonical P o (filter_map json_raw l))).
Proof.
  intros J st'.
  assert (R : st' = fst (run_loop (json_body P o) st l)).
  { unfold st', read_json. rewrite J. unfold run_source. cbn [items].
    now destruct (run_loop (json_body P o) st l). }
  split; [|split; [|split]].
  - intros v st0 H. split; [|now apply json_body_non_object].
    destruct v; try reflexivity. discriminate.
  - unfold records_read, raws_read. now rewrite J.
  - rewrite R. apply json_loop_warnings.
  - rewrite R. apply (run_loop_sink P o _ _ (json_quiet P o)).
Qed.

Lemma json_non_objects_witness :
  let l := [VInt 7; VDict [(lit "name", VStr (lit "A"))]; VNone;
            VStr (lit "x"); VList []] in
  let E := with_json (VList l) in
  let st' := fst (fst (read_json cpython default_options E
                         (lit "clients.json") EMPTY)) in
  records_read cpython default_options E (lit "clients.json") Json
  = [[(lit "name", VStr (lit "A"))]]
  /\ not_dict_logged (logs st') = [VInt 7; VStr (lit "x")]
  /\ invalid_rows st' = [].
Proof.
  intros l E st'.
  destruct (@json_non_objects_are_skipped cpython default_options E
              (lit "clients.json") EMPTY l eq_refl) as (_ & R & W & S).
  split; [exact R|]. split; [exact W|exact S].
Defined.

(** ** The sink beside the input *)

Lemma from_last_dot_spec :
  forall name s,
    from_last_dot name = Some s ->
    exists pre t, name = pre ++ s /\ s = DOT :: t /\ ~ In DOT t.
Proof.
  induction name as [|c r IH]; intros s H; simpl in H; [discriminate|].
  destruct (from_last_dot r) as [s'|] eqn:E.
  - injection H as <-. destruct (IH s' eq_refl) as (pre & t & -> & -> & Hn).
    now exists (c :: pre), t.
  - destruct (N.eqb_spec c DOT) as [->|]; [|discriminate].
    injection H as <-. exists [], r. repeat split.
    clear IH. induction r as [|a r IH]; [intros []|].
    simpl in E. destruct (from_last_dot r); [discriminate|].
    destruct (N.eqb_spec a DOT); [discriminate|].
    intros [->|H]; [congruence|]. now apply IH.
Qed.

Lemma path_suffix_spec :
  forall p,
    exists stem,
      path_name p = stem ++ path_suffix p
      /\ (path_suffix p = [] \/ exists t, path_suffix p = DOT :: t /\ ~ In DOT t).
Proof.
  intros p. unfold path_suffix.
  destruct (from_last_dot (path_name p)) as [s|] eqn:E.
  - destruct (from_last_dot_spec _ E) as (pre & t & N & S & Hn).
    destruct (_ && _).
    + exists pre. split; [exact N|right; eauto].
    + exists (path_name p). rewrite app_nil_r. auto.
  - exists (path_name p). rewrite app_nil_r. auto.
Qed.

(** X17.  With no [invalid_sink_path] (absent or empty) the sink is the
    input path with its suffix replaced by [.invalid.json]: same
    directory, same stem, and never the input file itself. *)
Theorem fallback_sink_is_beside_the_input (file_path : str) (o : options) :
  invalid_sink_path o = None \/ invalid_sink_path o = Some [] ->
  path_name (the_path file_path) <> [] ->
  exists stem,
    path_name (the_path file_path) = stem ++ path_suffix (the_path file_path)
    /\ sink_path file_path o
       = inr (mk_path (anchor (the_path file_path))
                (removelast (parts (the_path file_path))
                 ++ [stem ++ lit ".invalid.json"]))
    /\ sink_path file_path o <> inr (the_path file_path).
Proof.
  intros Hs Hn. set (p := the_path file_path) in *.
  destruct (path_suffix_spec p) as (stem & N & S).
  exists stem. split; [exact N|].
  assert (Hstem : firstn (List.length (path_name p)
                          - List.length (path_suffix p)) (path_name p) = stem).
  { rewrite N at 2. rewrite N at 1. rewrite length_app.
    replace (List.length stem + List.length (path_suffix p)
             - List.length (path_suffix p)) with (List.length stem + 0) by lia.
    rewrite firstn_app_2. simpl. apply app_nil_r. }
  assert (Q : sink_path file_path o
              = inr (mk_path (anchor p)
                       (removelast (parts p) ++ [stem ++ lit ".invalid.json"]))).
  { unfold sink_path, with_suffix. fold p.
    assert (W : match path_name p with
                | [] => inl (ValueError (lit "path has an empty name"))
                | _ :: _ =>
                    inr (mk_path (anchor p)
                           (removelast (parts p)
                            ++ [firstn (List.length (path_name p)
                                        - List.length (path_suffix p))
                                  (path_name p) ++ lit ".invalid.json"]))
                end
                = inr (mk_path (anchor p)
                         (removelast (parts p)
                          ++ [stem ++ lit ".invalid.json"]))).
    { rewrite Hstem. destruct (path_name p); [contradiction|reflexivity]. }
    destruct Hs as [-> | ->]; exact W. }
  split; [exact Q|].
  rewrite Q. intros H. injection H as H.
  assert (Pp : parts p = removelast (parts p) ++ [path_name p]).
  { unfold path_name in *. apply app_removelast_last.
    intros Z. rewrite Z in Hn. now apply Hn. }
  change (removelast (parts p) ++ [stem ++ lit ".invalid.json"] = parts p)
    in H.
  rewrite Pp in H at 2. apply app_inj_tail in H as [_ H].
  rewrite N in H. apply app_inv_head in H.
  destruct S as [S|(t & S & Ht)]; rewrite S in H; [discriminate|].
  injection H as <-. apply Ht. vm_compute. tauto.
Qed.

Lemma fallback_sink_witness :
  let o := mk_options false false true None None None DFNone (lit "utf-8")
             (lit ",") None true in
  exists stem,
    path_name (the_path (lit "data/clients.csv"))
    = stem ++ path_suffix (the_path (lit "data/clients.csv"))
    /\ sink_path (lit "data/clients.csv") o
       = inr (mk_path (anchor (the_path (lit "data/clients.csv")))
                (removelast (parts (the_path (lit "data/clients.csv")))
                 ++ [stem ++ lit ".invalid.json"]))
    /\ sink_path (lit "data/clients.csv") o
       <> inr (the_path (lit "data/clients.csv")).
Proof.
  intros o.
  apply (@fallback_sink_is_beside_the_input (lit "data/clients.csv") o);
    [now left|vm_compute; discriminate].
Defined.
(** ** A formatter that raises *)

Section FailingFormatter.
Variable P : platform.
Variable o : options.
Variable f : value -> exn + value.
Hypothesis callable : date_formatter_arg o = DFCallable f.
Hypothesis raises : forall v, exists e, f v = inl e.

Lemma format_field_raises :
  forall r lg dk,
    fst (format_field o (r, lg) dk) = r
    /\ exists more,
         snd (format_field o (r, lg) dk) = lg ++ more
         /\ List.length more = (if is_missing r dk then 0 else 1)
         /\ Forall (fun l => exists e, l = LogDateFormatter dk e) more.
Proof.
  intros r lg dk. unfold format_field, is_missing, apply_formatter.
  rewrite callable.
  destruct (dict_get r dk) as [v|];
    [|split; [reflexivity|exists []; rewrite app_nil_r; auto]].
  destruct (truthy v);
    [|split; [reflexivity|exists []; rewrite app_nil_r; auto]].
  destruct (raises v) as [e ->]. split; [reflexivity|].
  exists [LogDateFormatter dk e]. repeat split. constructor; eauto.
Qed.

Lemma format_fold_raises :
  forall dks r lg,
    fst (fold_left (format_field o) dks (r, lg)) = r
    /\ exists more,
         snd (fold_left (format_field o) dks (r, lg)) = lg ++ more
         /\ List.length more
            = List.length (filter (fun dk => negb (is_missing r dk)) dks)
         /\ Forall (fun l => exists dk e,
                      In dk dks /\ l = LogDateFormatter dk e) more.
Proof.
  induction dks as [|dk dks IH]; intros r lg; cbn [fold_left filter].
  - split; [reflexivity|]. exists []. cbn. rewrite app_nil_r. auto.
  - destruct (format_field_raises r lg dk) as (R & m1 & L1 & N1 & F1).
    rewrite (surjective_pairing (format_field o (r, lg) dk)), R, L1.
    destruct (IH r (lg ++ m1)) as (R2 & m2 & L2 & N2 & F2).
    split; [exact R2|]. exists (m1 ++ m2).
    rewrite L2, <- app_assoc. split; [reflexivity|]. split.
    + rewrite length_app, N1, N2. destruct (is_missing r dk); reflexivity.
    + apply Forall_app. split.
      * eapply Forall_impl; [|exact F1]. intros l [e ->]. exists dk, e.
        split; [now left|reflexivity].
      * eapply Forall_impl; [|exact F2].
        intros l (dk' & e & Hin & ->). exists dk', e.
        split; [now right|reflexivity].
Qed.
End FailingFormatter.

(** X18.  A date formatter that raises loses nothing: every field keeps
    the value the first loop gave it, and one warning is logged for each
    flagged field that is present and truthy. *)
Theorem failing_formatter_keeps_the_record
  (P : platform) (o : options) (f : value -> exn + value) (raw : raw_record) :
  date_formatter_arg o = DFCallable f ->
  (forall v, exists e, f v = inl e) ->
  let r := build_row P o raw in
  fst (normalize_row P o raw) = r
  /\ List.length (snd (normalize_row P o raw))
     = List.length (filter (fun dk => negb (is_missing r dk)) (date_keys P o))
  /\ Forall (fun l => exists dk e,
               In dk (date_keys P o) /\ l = LogDateFormatter dk e)
       (snd (normalize_row P o raw)).
Proof.
  intros C R r. unfold normalize_row. fold r.
  destruct (df_truthy _ && _) eqn:G.
  - destruct (format_fold_raises o C R (date_keys P o) r [])
      as (H1 & more & H2 & H3 & H4).
    rewrite H1, H2. auto.
  - cbn [fst snd]. split; [reflexivity|]. split; [|constructor].
    rewrite C in G. cbn in G. destruct (date_keys P o); [reflexivity|].
    discriminate.
Qed.

Lemma failing_formatter_witness :
  let f := fun _ : value => @inl exn value (ValueError (lit "bad date")) in
  let o := mk_options false false true None None (Some [lit "Birth Date"])
             (DFCallable f) (lit "utf-8") (lit ",") None true in
  let raw := hd [] scenario_A_rows in
  let r := build_row cpython o raw in
  fst (normalize_row cpython o raw) = r
  /\ List.length (snd (normalize_row cpython o raw))
     = List.length (filter (fun dk => negb (is_missing r dk))
                      (date_keys cpython o))
  /\ Forall (fun l => exists dk e,
               In dk (date_keys cpython o) /\ l = LogDateFormatter dk e)
       (snd (normalize_row cpython o raw)).
Proof.
  intros f o raw.
  apply (@failing_formatter_keeps_the_record cpython o f raw);
    [reflexivity|]. intros v. now exists (ValueError (lit "bad date")).
Defined.
(** ** More of [format_date] *)

Lemma short2_ascii : forall z, forallb is_ascii (short2 z) = true.
Proof.
  intros z. unfold short2. destruct (Z.ltb z 10); [|apply pad2_ascii].
  cbn [forallb]. pose proof (digit_char_range z). unfold is_ascii.
  replace (N.ltb (digit_char z) 128) with true
    by (symmetry; apply N.ltb_lt; lia).
  reflexivity.
Qed.

(** Months and days without a leading zero are read back, on CPython. *)
Lemma short_months_and_days_checked :
  forallb (fun m =>
    forallb (fun d =>
      forallb (fun s =>
        match match_m cpython s with
        | Some (m', d', []) => Z.eqb m' m && Z.eqb d' d
        | _ => false
        end)
        [short2 m ++ [HYPHEN] ++ short2 d; short2 m ++ [HYPHEN] ++ pad2 d;
         pad2 m ++ [HYPHEN] ++ short2 d])
      (zrange 1 31)) (zrange 1 12) = true.
Proof. vm_compute. reflexivity. Qed.

Lemma match_m_short :
  forall P m d ms ds,
    (1 <= m <= 12)%Z -> (1 <= d <= 31)%Z ->
    ms = pad2 m \/ ms = short2 m -> ds = pad2 d \/ ds = short2 d ->
    match_m P (ms ++ [HYPHEN] ++ ds) = Some (m, d, []).
Proof.
  intros P m d ms ds Hm Hd Hms Hds.
  destruct Hms as [-> | ->], Hds as [-> | ->];
    try (now apply match_m_two_digits);
    (rewrite match_m_ascii
       by (rewrite !forallb_app, ?pad2_ascii, ?short2_ascii; reflexivity));
    pose proof short_months_and_days_checked as H;
    rewrite forallb_forall in H;
    specialize (H m (@In_zrange 1 12 m ltac:(lia)));
    rewrite forallb_forall in H;
    specialize (H d (@In_zrange 1 31 d ltac:(lia)));
    rewrite forallb_forall in H.
  - specialize (H (pad2 m ++ [HYPHEN] ++ short2 d) ltac:(simpl; auto)).
    cbv beta in H.
    destruct (match_m cpython _) as [[[m' d'] [|c r]]|]; try discriminate.
    apply andb_prop in H as [H1 H2]. apply Z.eqb_eq in H1, H2. now subst.
  - specialize (H (short2 m ++ [HYPHEN] ++ pad2 d) ltac:(simpl; auto)).
    cbv beta in H.
    destruct (match_m cpython _) as [[[m' d'] [|c r]]|]; try discriminate.
    apply andb_prop in H as [H1 H2]. apply Z.eqb_eq in H1, H2. now subst.
  - specialize (H (short2 m ++ [HYPHEN] ++ short2 d) ltac:(simpl; auto)).
    cbv beta in H.
    destruct (match_m cpython _) as [[[m' d'] [|c r]]|]; try discriminate.
    apply andb_prop in H as [H1 H2]. apply Z.eqb_eq in H1, H2. now subst.
Qed.

(** X19.  [format_date] also reads a month or a day written without its
    leading zero: [1990-5-1] becomes [01/05/1990]. *)
Theorem format_date_reads_short_months_and_days
  (P : platform) (y m d : Z) (ms ds : str) :
  (1000 <= y)%Z -> valid_date y m d = true ->
  ms = pad2 m \/ ms = short2 m ->
  ds = pad2 d \/ ds = short2 d ->
  format_date P (VStr (pad4 y ++ [HYPHEN] ++ ms ++ [HYPHEN] ++ ds))
  = VStr (dmy_date y m d).
Proof.
  intros Hy V Hms Hds. destruct (valid_date_bounds y m d V) as (By & Bm & Bd).
  unfold format_date, strptime.
  rewrite match_Y_pad4 by lia. cbv beta iota.
  change (match_hyphen ([HYPHEN] ++ ms ++ [HYPHEN] ++ ds))
    with (Some (ms ++ [HYPHEN] ++ ds)).
  cbv beta iota.
  rewrite (match_m_short P Bm Bd Hms Hds), V.
  rewrite strftime_dmy by (cbn; lia). reflexivity.
Qed.

Lemma format_date_short_witness :
  format_date cpython (VStr (lit "1990-5-1")) = VStr (lit "01/05/1990").
Proof.
  apply (@format_date_reads_short_months_and_days cpython 1990 5 1
           (lit "5") (lit "1"));
    [lia|reflexivity|now right|now right].
Defined.

(** X20.  A well-formed string that names no day of the calendar
    ([2023-02-30], or any date of year 0) is returned unchanged. *)
Theorem format_date_leaves_impossible_dates (P : platform) (y m d : Z) :
  (0 <= y <= 9999)%Z -> (1 <= m <= 12)%Z -> (1 <= d <= 31)%Z ->
  valid_date y m d = false ->
  format_date P (VStr (iso_date y m d)) = VStr (iso_date y m d).
Proof.
  intros Hy Hm Hd V. apply format_date_unparsed
    with (e := ValueError (lit "day is out of range for month")).
  unfold strptime, iso_date.
  rewrite match_Y_pad4 by lia. cbv beta iota.
  change (match_hyphen ([HYPHEN] ++ pad2 m ++ [HYPHEN] ++ pad2 d))
    with (Some (pad2 m ++ [HYPHEN] ++ pad2 d)).
  cbv beta iota.
  rewrite match_m_two_digits by assumption. now rewrite V.
Qed.

Lemma format_date_impossible_witness :
  format_date cpython (VStr (lit "2023-02-30")) = VStr (lit "2023-02-30").
Proof.
  apply (@format_date_leaves_impossible_dates cpython 2023 2 30);
    [lia|lia|lia|reflexivity].
Defined.

Section Trailing.
Variable P : platform.

Lemma match_d_app :
  forall a b t r,
    match_d P (a :: b :: t ++ r)
    = option_map (fun dr => (fst dr, snd dr ++ r)) (match_d P (a :: b :: t)).
Proof.
  intros a b t r. unfold match_d. cbn [app].
  destruct (digit_in 49 57 a), (N.eqb a 51), (digit_in 48 49 b),
    (digit_in 49 50 a), (re_digit P b), (N.eqb a ZERO), (digit_in 49 57 b),
    (N.eqb a SPACE); reflexivity.
Qed.

Lemma match_rest_app :
  forall m c a b t r,
    match_rest P m (c :: a :: b :: t ++ r)
    = option_map (fun mdr => (fst mdr, snd mdr ++ r))
        (match_rest P m (c :: a :: b :: t)).
Proof.
  intros m c a b t r. unfold match_rest, match_hyphen.
  destruct (N.eqb c HYPHEN); [|reflexivity].
  rewrite match_d_app. now destruct (match_d P (a :: b :: t)) as [[d' rest]|].
Qed.

Lemma match_m_app :
  forall a b c d e t r,
    match_m P (a :: b :: c :: d :: e :: t ++ r)
    = option_map (fun mdr => (fst mdr, snd mdr ++ r))
        (match_m P (a :: b :: c :: d :: e :: t)).
Proof.
  intros a b c d e t r. unfold match_m, or_else. cbv beta iota zeta.
  destruct (N.eqb a 49), (N.eqb a ZERO), (digit_in 48 50 b),
    (digit_in 49 57 b), (digit_in 49 57 a);
    rewrite ?(match_rest_app _ c d e t r).
  all: change (b :: c :: d :: e :: t ++ r) with (b :: c :: d :: (e :: t) ++ r).
  all: rewrite ?(match_rest_app _ b c d (e :: t) r).
  all: cbn [option_map].
  all: repeat match goal with
       | |- context [match_rest P ?m ?s] => destruct (match_rest P m s)
       end; reflexivity.
Qed.

Lemma match_m_two_digits_then :
  forall m d r, (1 <= m <= 12)%Z -> (1 <= d <= 31)%Z ->
    match_m P (pad2 m ++ [HYPHEN] ++ pad2 d ++ r) = Some (m, d, r).
Proof.
  intros m d r Hm Hd.
  pose proof (match_m_two_digits P Hm Hd) as H.
  unfold pad2 in *. cbn [app] in *.
  change (digit_char d :: r) with (digit_char d :: [] ++ r).
  rewrite match_m_app, H. reflexivity.
Qed.
End Trailing.

(** X21.  A date followed by anything (a time of day, a space) makes
    [strptime] raise [ValueError], for the text left over, and is returned
    unchanged. *)
Theorem format_date_leaves_trailing_text
  (P : platform) (y m d : Z) (r : str) :
  (0 <= y <= 9999)%Z -> (1 <= m <= 12)%Z -> (1 <= d <= 31)%Z ->
  r <> [] ->
  (exists msg, strptime P (iso_date y m d ++ r) = inl (ValueError msg))
  /\ format_date P (VStr (iso_date y m d ++ r)) = VStr (iso_date y m d ++ r).
Proof.
  intros Hy Hm Hd Hr.
  assert (S : strptime P (iso_date y m d ++ r)
              = inl (ValueError (lit "unconverted data remains"))).
  { unfold strptime, iso_date. rewrite <- !app_assoc.
    rewrite match_Y_pad4 by lia. cbv beta iota.
    change (match_hyphen ([HYPHEN] ++ pad2 m ++ [HYPHEN] ++ pad2 d ++ r))
      with (Some (pad2 m ++ [HYPHEN] ++ pad2 d ++ r)).
    cbv beta iota.
    rewrite match_m_two_digits_then by assumption.
    destruct r; [contradiction|reflexivity]. }
  split; [eauto|]. now apply (format_date_unparsed P _ S).
Qed.

Lemma format_date_trailing_witness :
  (exists msg,
      strptime cpython (lit "1990-05-01T10:30") = inl (ValueError msg))
  /\ format_date cpython (VStr (lit "1990-05-01T10:30"))
     = VStr (lit "1990-05-01T10:30").
Proof.
  apply (@format_date_leaves_trailing_text cpython 1990 5 1 (lit "T10:30"));
    [lia|lia|lia|discriminate].
Defined.

(** X22.  [format_date] is idempotent; it makes a string of every string
    and of every [datetime], and returns any other value as it is. *)
Theorem format_date_is_stable (P : platform) (v : value) :
  format_date P (format_date P v) = format_date P v
  /\ (forall s, v = VStr s -> exists s', format_date P v = VStr s')
  /\ (forall dt, v = VDate dt -> format_date P v = VStr (strftime P dt))
  /\ ((forall s, v <> VStr s) -> (forall dt, v <> VDate dt) ->
      format_date P v = v).
Proof.
  split; [apply format_date_idempotent|]. split; [|split].
  - intros s ->. cbn. destruct (strptime P s); eauto.
  - now intros dt ->.
  - intros Hs Hd. destruct v; try reflexivity.
    + now elim (Hs s).
    + now elim (Hd d).
Qed.
(** ** File names *)





Section FilenameFacts.
Variable P : platform.




End FilenameFacts.

(** X25.  For a record as the first loop of [normalize_row] builds it,
    each part of the file name is the default when its column is absent
    or empty, the cell's text (already trimmed, never empty) when it is a
    non-empty string, and the word [None] for an empty spreadsheet cell. *)
Theorem name_part_of_a_canonical_record
  (P : platform) (o : options) (raw : raw_record) (key default : str) :
  default <> [] -> trimmed default ->
  let r := build_row P o raw in
  (dict_get r key = None -> name_part P r key default = default)
  /\ (forall s, dict_get r key = Some (VStr s) ->
        name_part P r key default
        = match s with [] => default | _ :: _ => s end
        /\ name_part P r key default <> [])
  /\ (dict_get r key = Some VNone -> py_str P VNone = lit "None" ->
      name_part P r key default = lit "None").
Proof.
  intros Hd Ht r. split; [|split].
  - intros H. unfold name_part. rewrite H, py_str_str.
    destruct default; [contradiction|]. now apply strip_fixed.
  - intros s H.
    assert (T : trimmed s).
    { unfold r in H. rewrite build_row_get in H.
      destruct (last_under P o raw key) as [[k0 v]|]; [|discriminate].
      cbn in H. destruct v; try discriminate. cbn in H.
      injection H as <-. apply strip_trimmed. }
    unfold name_part. rewrite H, py_str_str.
    destruct s as [|c s].
    + destruct default; [contradiction|].
      rewrite (strip_fixed Ht). split; [reflexivity|discriminate].
    + rewrite (strip_fixed T). split; [reflexivity|discriminate].
  - intros H N. unfold name_part. now rewrite H, N.
Qed.



Lemma name_part_witness :
  let raw := [(Some (lit "Name"), VStr (lit " Ada "));
              (Some (lit "Surname"), VStr (lit "  "))] in
  let r := build_row cpython default_options raw in
  (dict_get r (lit "name") = None ->
   name_part cpython r (lit "name") (lit "noname") = lit "noname")
  /\ (forall s, dict_get r (lit "name") = Some (VStr s) ->
        name_part cpython r (lit "name") (lit "noname")
        = match s with [] => lit "noname" | _ :: _ => s end
        /\ name_part cpython r (lit "name") (lit "noname") <> [])
  /\ (dict_get r (lit "name") = Some VNone ->
      py_str cpython VNone = lit "None" ->
      name_part cpython r (lit "name") (lit "noname") = lit "None").
Proof.
  intros raw.
  apply (@name_part_of_a_canonical_record cpython default_options raw
           (lit "name") (lit "noname"));
    [discriminate|split; reflexivity].
Defined.

(** ** Substrings and replacement *)

Lemma starts_with_app : forall p t, starts_with p (p ++ t) = true.
Proof.
  induction p as [|c p IH]; intros t; simpl; [reflexivity|].
  now rewrite N.eqb_refl, IH.
Qed.

Lemma starts_with_split :
  forall p s, starts_with p s = true -> exists t, s = p ++ t.
Proof.
  induction p as [|c p IH]; intros s H; simpl in *; [now exists s|].
  destruct s as [|a s]; [discriminate|].
  apply andb_prop in H as [E H]. apply N.eqb_eq in E as <-.
  destruct (IH s H) as [t ->]. now exists t.
Qed.

Lemma starts_with_longer :
  forall p s y, starts_with p s = true -> starts_with p (s ++ y) = true.
Proof.
  intros p s y H. destruct (starts_with_split p s H) as [t ->].
  rewrite <- app_assoc. apply starts_with_app.
Qed.

Lemma contains_nil : forall s, contains [] s = true.
Proof. now destruct s. Qed.

Lemma contains_start :
  forall sub s, starts_with sub s = true -> contains sub s = true.
Proof.
  intros sub [|c s] H; simpl; [exact H|]. now rewrite H.
Qed.

Lemma contains_app_r :
  forall sub x s, contains sub s = true -> contains sub (x ++ s) = true.
Proof.
  intros sub. induction x as [|c x IH]; intros s H; simpl; [exact H|].
  rewrite (IH s H). apply orb_true_r.
Qed.

Lemma contains_app_l :
  forall sub s y, contains sub s = true -> contains sub (s ++ y) = true.
Proof.
  intros sub. induction s as [|c s IH]; intros y H.
  - simpl in H. destruct sub; [apply contains_nil|discriminate].
  - cbn [app contains] in *. apply orb_prop in H as [H|H].
    + pose proof (starts_with_longer _ _ y H) as H'. cbn [app] in H'.
      now rewrite H'.
    + rewrite (IH y H). apply orb_true_r.
Qed.

Lemma contains_head :
  forall c sub s, ~ In c s -> contains (c :: sub) s = false.
Proof.
  intros c sub. induction s as [|a s IH]; intros H; simpl; [reflexivity|].
  destruct (N.eqb_spec c a) as [->|_]; [elim H; now left|].
  cbn [andb orb]. apply IH. intros Hs. apply H. now right.
Qed.

Lemma replace_scan_skip :
  forall old new u t,
    replace_scan old new (List.length u) (u ++ t) = replace_scan old new 0 t.
Proof.
  intros old new. induction u as [|c u IH]; intros t; [reflexivity|].
  simpl. apply IH.
Qed.

Lemma replace_scan_match :
  forall old new t,
    old <> [] ->
    replace_scan old new 0 (old ++ t) = new ++ replace_scan old new 0 t.
Proof.
  intros [|c rest] new t H; [contradiction|].
  pose proof (starts_with_app (c :: rest) t) as S.
  cbn [app] in *. cbn [replace_scan]. rewrite S.
  replace (List.length (c :: rest) - 1) with (List.length rest)
    by (simpl; lia).
  now rewrite replace_scan_skip.
Qed.

Lemma replace_scan_other :
  forall old new c s,
    starts_with old (c :: s) = false ->
    replace_scan old new 0 (c :: s) = c :: replace_scan old new 0 s.
Proof. intros old new c s H. cbn [replace_scan]. now rewrite H. Qed.

Lemma replace_scan_absent :
  forall old new s, contains old s = false -> replace_scan old new 0 s = s.
Proof.
  intros old new. induction s as [|c s IH]; intros H; [reflexivity|].
  cbn [contains] in H. apply orb_false_elim in H as [H1 H2].
  rewrite replace_scan_other by exact H1. now rewrite IH.
Qed.

Lemma str_replace_scan :
  forall old new s, old <> [] -> str_replace old new s = replace_scan old new 0 s.
Proof. intros [|c old] new s H; [contradiction|reflexivity]. Qed.

(** What [replace] does, for a non-empty [old]. *)
Lemma str_replace_match :
  forall old new t,
    old <> [] -> str_replace old new (old ++ t) = new ++ str_replace old new t.
Proof.
  intros old new t H. rewrite !str_replace_scan by exact H.
  now apply replace_scan_match.
Qed.

Lemma str_replace_other :
  forall old new c s,
    old <> [] -> starts_with old (c :: s) = false ->
    str_replace old new (c :: s) = c :: str_replace old new s.
Proof.
  intros old new c s H S. rewrite !str_replace_scan by exact H.
  now apply replace_scan_other.
Qed.

Lemma str_replace_absent :
  forall old new s,
    old <> [] -> contains old s = false -> str_replace old new s = s.
Proof.
  intros old new s H C. rewrite str_replace_scan by exact H.
  now apply replace_scan_absent.
Qed.

Lemma str_replace_whole :
  forall old new, old <> [] -> str_replace old new old = new.
Proof.
  intros old new H. rewrite <- (app_nil_r old) at 2.
  rewrite str_replace_match by exact H.
  rewrite str_replace_scan by exact H. apply app_nil_r.
Qed.

(** Text before the first character that could open a match is copied. *)
Lemma str_replace_prefix :
  forall c rest new pre s,
    ~ In c pre ->
    str_replace (c :: rest) new (pre ++ s)
    = pre ++ str_replace (c :: rest) new s.
Proof.
  intros c rest new. induction pre as [|a pre IH]; intros s H; [reflexivity|].
  cbn [app]. rewrite str_replace_other; [|discriminate|].
  - rewrite IH; [reflexivity|]. intros Hp. apply H. now right.
  - cbn [starts_with].
    destruct (N.eqb_spec c a) as [->|_]; [elim H; now left|reflexivity].
Qed.

Lemma replace_scan_length :
  forall old new,
    old <> [] -> List.length new <= List.length old ->
    forall n s, List.length s <= n ->
      List.length (replace_scan old new 0 s) <= List.length s
      /\ (List.length new < List.length old -> contains old s = true ->
          List.length (replace_scan old new 0 s) < List.length s).
Proof.
  intros old new Ho Hl. induction n as [|n IH]; intros s Hs.
  - destruct s; [|simpl in Hs; lia]. split; [reflexivity|].
    intros _ C. simpl in C. destruct old; [contradiction|discriminate].
  - destruct s as [|c s]; [split; [reflexivity|]|].
    { intros _ C. simpl in C. destruct old; [contradiction|discriminate]. }
    destruct (starts_with old (c :: s)) eqn:S.
    + destruct (starts_with_split _ _ S) as [t E]. rewrite E.
      rewrite replace_scan_match by exact Ho.
      assert (Ht : List.length t <= n).
      { apply (f_equal (@List.length N)) in E. rewrite length_app in E.
        simpl in E, Hs. destruct old; [contradiction|]. simpl in E. lia. }
      destruct (IH t Ht) as [L _]. rewrite !length_app. split; lia.
    + rewrite replace_scan_other by exact S.
      assert (Ht : List.length s <= n) by (simpl in Hs; lia).
      destruct (IH s Ht) as [L1 L2]. cbn [List.length]. split; [lia|].
      intros Hn C. cbn [contains] in C. rewrite S in C. cbn [orb] in C.
      specialize (L2 Hn C). lia.
Qed.

Lemma starts_with_before :
  forall c p u t,
    ~ In c p -> starts_with p (u ++ c :: t) = starts_with p u.
Proof.
  intros c. induction p as [|x p IH]; intros u t H; [reflexivity|].
  destruct u as [|b u]; cbn [app starts_with].
  - destruct (N.eqb_spec x c) as [->|_]; [elim H; now left|reflexivity].
  - rewrite IH; [reflexivity|]. intros Hp. apply H. now right.
Qed.

(** A match cannot straddle the end of [s] when the first character of
    [old] does not come back in it. *)
Lemma replace_scan_end :
  forall c rest new,
    ~ In c rest ->
    forall s k, k <= List.length s ->
      replace_scan (c :: rest) new k (s ++ c :: rest)
      = replace_scan (c :: rest) new k s ++ new.
Proof.
  intros c rest new H. induction s as [|a s IH]; intros k Hk.
  - simpl in Hk. replace k with 0 by lia.
    assert (M := @replace_scan_match (c :: rest) new [] ltac:(discriminate)).
    rewrite app_nil_r in M. cbn [app]. rewrite M. cbn [replace_scan].
    now rewrite app_nil_r.
  - destruct k as [|k]; cbn [app replace_scan].
    + change (a :: s ++ c :: rest) with ((a :: s) ++ c :: rest).
      assert (S : starts_with (c :: rest) ((a :: s) ++ c :: rest)
                  = starts_with (c :: rest) (a :: s)).
      { cbn [app starts_with]. now rewrite starts_with_before. }
      rewrite S. destruct (starts_with (c :: rest) (a :: s)) eqn:W.
      * rewrite IH; [now rewrite app_assoc|].
        destruct (starts_with_split _ _ W) as [t E].
        injection E as _ E. rewrite E, length_app. simpl. lia.
      * rewrite IH by lia. reflexivity.
    + apply IH. simpl in Hk. lia.
Qed.

Lemma str_replace_end :
  forall c rest new s,
    ~ In c rest ->
    str_replace (c :: rest) new (s ++ c :: rest)
    = str_replace (c :: rest) new s ++ new.
Proof.
  intros c rest new s H. unfold str_replace.
  apply replace_scan_end; [exact H|lia].
Qed.

(** X26.  [fill_contract] derives the PDF path by replacing every
    [.docx] of the path, not only its suffix: for a path [s.docx] the
    result is [s.pdf] (and [s_with_logo.pdf] with a logo, when [s] holds
    no [.pdf]) exactly when [s] holds no [.docx] of its own. *)
Theorem pdf_path_replaces_every_docx (out_docx : path) (s : str) :
  path_str out_docx = s ++ lit ".docx" ->
  (contains (lit ".docx") s = false ->
     pdf_path out_docx = s ++ lit ".pdf"
     /\ (contains (lit ".pdf") s = false ->
         logo_pdf_path (pdf_path out_docx) = s ++ lit "_with_logo.pdf"))
  /\ (contains (lit ".docx") s = true -> pdf_path out_docx <> s ++ lit ".pdf").
Proof.
  intros E. unfold pdf_path, logo_pdf_path. rewrite E.
  change (lit ".docx") with (DOT :: lit "docx").
  change (lit ".pdf") with (DOT :: lit "pdf").
  assert (D1 : ~ In DOT (lit "docx")) by (simpl; intuition discriminate).
  assert (D2 : ~ In DOT (lit "pdf")) by (simpl; intuition discriminate).
  rewrite (@str_replace_end DOT (lit "docx") (DOT :: lit "pdf") s D1).
  split.
  - intros C. rewrite str_replace_absent by (discriminate || exact C).
    split; [reflexivity|]. intros C2.
    rewrite (@str_replace_end DOT (lit "pdf") (lit "_with_logo.pdf") s D2).
    now rewrite str_replace_absent by (discriminate || exact C2).
  - intros C H. apply app_inv_tail in H.
    destruct (@replace_scan_length (DOT :: lit "docx") (DOT :: lit "pdf")
                ltac:(discriminate) ltac:(simpl; lia) (List.length s) s
                (le_n _)) as [_ L].
    specialize (L ltac:(simpl; lia) C).
    unfold str_replace in H. rewrite H in L. lia.
Qed.

Lemma pdf_path_witness :
  let out_docx := build_filename cpython
                    [(lit "name", VStr (lit "Ada"));
                     (lit "surname", VStr (lit "Lovelace"))]
                    (lit "contract") in
  (contains (lit ".docx") (lit "contract/Ada_Lovelace") = false ->
     pdf_path out_docx = lit "contract/Ada_Lovelace" ++ lit ".pdf"
     /\ (contains (lit ".pdf") (lit "contract/Ada_Lovelace") = false ->
         logo_pdf_path (pdf_path out_docx)
         = lit "contract/Ada_Lovelace" ++ lit "_with_logo.pdf"))
  /\ (contains (lit ".docx") (lit "contract/Ada_Lovelace") = true ->
      pdf_path out_docx <> lit "contract/Ada_Lovelace" ++ lit ".pdf").
Proof.
  intros out_docx.
  apply (@pdf_path_replaces_every_docx out_docx (lit "contract/Ada_Lovelace")).
  reflexivity.
Defined.
(** ** Filling a template *)

Lemma each_length :
  forall (A B : Type) (f : A -> exn + B) l ys,
    each f l = inr ys -> List.length ys = List.length l.
Proof.
  intros A B f. induction l as [|x l IH]; intros ys H; simpl in H.
  - now injection H as <-.
  - destruct (f x) as [e|y]; [discriminate|].
    destruct (each f l) as [e|ys']; [discriminate|].
    injection H as <-. simpl. now rewrite (IH ys').
Qed.

Lemma each_fixed :
  forall (A : Type) (f : A -> exn + A) (Q : A -> Prop),
    (forall x, Q x -> f x = inr x) ->
    forall l, Forall Q l -> each f l = inr l.
Proof.
  intros A f Q H l F. induction F as [|x l Hx _ IH]; simpl; [reflexivity|].
  now rewrite (H x Hx), IH.
Qed.

Lemma each_app :
  forall (A B : Type) (f : A -> exn + B) l1 l2,
    each f (l1 ++ l2)
    = match each f l1 with
      | inl e => inl e
      | inr ys1 =>
          match each f l2 with
          | inl e => inl e
          | inr ys2 => inr (ys1 ++ ys2)
          end
      end.
Proof.
  intros A B f. induction l1 as [|x l1 IH]; intros l2; simpl.
  - now destruct (each f l2).
  - destruct (f x) as [e|y]; [reflexivity|]. rewrite IH.
    destruct (each f l1) as [e|ys1]; [reflexivity|].
    now destruct (each f l2).
Qed.

Section FillFacts.
Variable P : platform.

Lemma fill_item_length :
  forall p kv p',
    fill_item P p kv = inr p' -> List.length p' = List.length p.
Proof.
  intros p kv p'. unfold fill_item.
  destruct (contains _ (paragraph_text p)).
  - apply each_length.
  - intros H. now injection H as <-.
Qed.

Lemma fill_fold_failed :
  forall data e,
    fold_left
      (fun acc kv =>
         match acc with
         | inr p' => fill_item P p' kv
         | inl e' => inl e'
         end) data (inl e) = inl e.
Proof. induction data as [|kv data IH]; intros e; simpl; auto. Qed.

Lemma fill_paragraph_cons :
  forall kv data p,
    fill_paragraph P (kv :: data) p
    = match fill_item P p kv with
      | inr p' => fill_paragraph P data p'
      | inl e => inl e
      end.
Proof.
  intros kv data p. unfold fill_paragraph. cbn [fold_left].
  destruct (fill_item P p kv) as [e|p']; [apply fill_fold_failed|reflexivity].
Qed.

Lemma fill_paragraph_length :
  forall data p p',
    fill_paragraph P data p = inr p' -> List.length p' = List.length p.
Proof.
  induction data as [|kv data IH]; intros p p' H.
  - unfold fill_paragraph in H. simpl in H. now injection H as <-.
  - rewrite fill_paragraph_cons in H.
    destruct (fill_item P p kv) as [e|q] eqn:E; [discriminate|].
    rewrite (IH q p' H). now apply (fill_item_length p kv).
Qed.

Lemma fill_item_idle :
  forall p kv,
    (forall run, In run p -> contains (placeholder (fst kv)) run = false) ->
    fill_item P p kv = inr p.
Proof.
  intros p kv H. unfold fill_item.
  destruct (contains _ (paragraph_text p)); [|reflexivity].
  apply (@each_fixed _ _ (fun run => contains (placeholder (fst kv)) run = false)).
  - intros run Hr. unfold fill_run. now rewrite Hr.
  - now apply Forall_forall.
Qed.

Lemma fill_paragraph_idle :
  forall (data : row) (p : paragraph),
    (forall k v run,
        In (k, v) data -> In run p -> contains (placeholder k) run = false) ->
    fill_paragraph P data p = inr p.
Proof.
  induction data as [|[k v] data IH]; intros p H; [reflexivity|].
  rewrite fill_paragraph_cons, fill_item_idle.
  - apply IH. intros k' v' run Hd Hr. apply (H k' v' run); [now right|exact Hr].
  - intros run Hr. apply (H k v run); [now left|exact Hr].
Qed.

Lemma replace_scan_chars :
  forall (Q : N -> bool) old new,
    forallb Q new = true ->
    forall s skip,
      forallb Q s = true -> forallb Q (replace_scan old new skip s) = true.
Proof.
  intros Q old new Hn. induction s as [|c r IH]; intros skip Hs; [reflexivity|].
  cbn [forallb] in Hs. apply andb_true_iff in Hs as [Hc Hr].
  cbn [replace_scan]. destruct skip as [|k]; [|now apply IH].
  destruct (starts_with old (c :: r)).
  - rewrite forallb_app, Hn. now apply IH.
  - cbn [forallb]. rewrite Hc. now apply IH.
Qed.

Lemma stored_text_xml :
  forall text,
    forallb xml_char text = true -> forallb xml_char (stored_text text) = true.
Proof.
  induction text as [|c text IH]; intros H; [reflexivity|].
  cbn [forallb] in H. apply andb_true_iff in H as [Hc Ht].
  cbn [stored_text map forallb]. fold (stored_text text). rewrite (IH Ht).
  destruct (N.eqb c 13); [reflexivity|now rewrite Hc].
Qed.

Lemma fill_run_xml :
  forall k new run,
    forallb xml_char new = true ->
    forallb xml_char run = true ->
    exists run',
      fill_run (placeholder k) new run = inr run'
      /\ forallb xml_char run' = true.
Proof.
  intros k new run Hn Hr. unfold fill_run.
  destruct (contains (placeholder k) run); [|now exists run].
  assert (X : forallb xml_char (str_replace (placeholder k) new run) = true)
    by (unfold str_replace, placeholder; now apply replace_scan_chars).
  unfold set_run_text. rewrite X. eexists. split; [reflexivity|].
  now apply stored_text_xml.
Qed.

Lemma each_total :
  forall (A B : Type) (f : A -> exn + B) (Q : A -> Prop) (R : B -> Prop),
    (forall x, Q x -> exists y, f x = inr y /\ R y) ->
    forall l, Forall Q l -> exists ys, each f l = inr ys /\ Forall R ys.
Proof.
  intros A B f Q R H l F.
  induction F as [|x l Hx _ (ys & E & Hys)]; [now exists []|].
  destruct (H x Hx) as (y & Ey & Hy). exists (y :: ys).
  cbn [each]. rewrite Ey, E. split; [reflexivity|now constructor].
Qed.

(** Filling goes through when the template and the values hold only
    characters XML takes. *)
Lemma fill_paragraph_xml :
  forall (data : row) (p : paragraph),
    Forall (fun kv => forallb xml_char (py_str P (snd kv)) = true) data ->
    Forall (fun run => forallb xml_char run = true) p ->
    exists p',
      fill_paragraph P data p = inr p'
      /\ Forall (fun run => forallb xml_char run = true) p'.
Proof.
  induction data as [|kv data IH]; intros p Hd Hp; [now exists p|].
  inversion Hd as [|? ? Hkv Hd']; subst.
  rewrite fill_paragraph_cons.
  assert (I : exists q, fill_item P p kv = inr q
                        /\ Forall (fun run => forallb xml_char run = true) q).
  { unfold fill_item.
    destruct (contains _ (paragraph_text p)); [|now exists p].
    apply (@each_total _ _ _ (fun run => forallb xml_char run = true)
             (fun run => forallb xml_char run = true)); [|exact Hp].
    intros run Hr. now apply fill_run_xml. }
  destruct I as (q & -> & Hq). now apply IH.
Qed.

(** X27.  A placeholder is replaced only where one run holds it whole: a
    template in which no run holds the placeholder of any field is filled
    without an exception and left as it is, even where a paragraph's text
    spells a placeholder across two runs; and filling never changes the
    number of runs of a paragraph: it goes through when the runs and the
    values hold only characters XML takes, and a paragraph that was
    filled has the runs it had. *)
Theorem fill_document_needs_whole_placeholders (data : row) (doc : document) :
  (forall p p',
      fill_paragraph P data p = inr p' -> List.length p' = List.length p)
  /\ (forall p,
        Forall (fun kv => forallb xml_char (py_str P (snd kv)) = true) data ->
        Forall (fun run => forallb xml_char run = true) p ->
        exists p',
          fill_paragraph P data p = inr p'
          /\ List.length p' = List.length p)
  /\ (doc_all (fun p =>
                 forall k v run,
                   In (k, v) data -> In run p ->
                   contains (placeholder k) run = false) doc ->
      fill_document P data doc = inr doc).
Proof.
  split; [apply fill_paragraph_length|]. split.
  { intros p Hd Hp. destruct (fill_paragraph_xml Hd Hp) as (p' & E & _).
    exists p'. split; [exact E|]. now apply (fill_paragraph_length data). }
  intros [Hp Ht]. destruct doc as [ps ts]. unfold fill_document.
  cbn [doc_paragraphs doc_tables] in *.
  set (Q := fun p : paragraph =>
              forall k v run,
                In (k, v) data -> In run p ->
                contains (placeholder k) run = false) in *.
  assert (H1 : forall p, Q p -> fill_paragraph P data p = inr p)
    by (intros p Hq; now apply fill_paragraph_idle).
  rewrite (@each_fixed _ _ Q H1 ps Hp).
  assert (H2 : forall c, Forall Q c -> each (fill_paragraph P data) c = inr c)
    by (intros c; apply (@each_fixed _ _ Q H1)).
  assert (H3 : forall rw, Forall (Forall Q) rw ->
                 each (each (fill_paragraph P data)) rw = inr rw)
    by (intros rw; apply (@each_fixed _ _ (Forall Q) H2)).
  assert (H4 : forall t, Forall (Forall (Forall Q)) t ->
                 each (each (each (fill_paragraph P data))) t = inr t)
    by (intros t; apply (@each_fixed _ _ (Forall (Forall Q)) H3)).
  now rewrite (@each_fixed _ _ (Forall (Forall (Forall Q))) H4 ts Ht).
Qed.

Lemma placeholder_not_nil : forall k, placeholder k <> [].
Proof. intros k. discriminate. Qed.

Lemma placeholder_in_run :
  forall k pre post,
    contains (placeholder k) (pre ++ placeholder k ++ post) = true.
Proof.
  intros k pre post. apply contains_app_r, contains_start, starts_with_app.
Qed.

Lemma contains_concat :
  forall sub (before after : list str) run,
    contains sub run = true ->
    contains sub (List.concat (before ++ [run] ++ after)) = true.
Proof.
  intros sub before after run H. rewrite !concat_app. cbn [List.concat].
  rewrite app_nil_r. now apply contains_app_r, contains_app_l.
Qed.

Lemma str_replace_placeholder :
  forall k new pre post,
    ~ In LBRACE pre -> ~ In LBRACE post ->
    str_replace (placeholder k) new (pre ++ placeholder k ++ post)
    = pre ++ new ++ post.
Proof.
  intros k new pre post Hpre Hpost. unfold placeholder. cbn [app].
  rewrite str_replace_prefix by exact Hpre. f_equal.
  replace (LBRACE :: (k ++ [RBRACE]) ++ post)
    with ((LBRACE :: k ++ [RBRACE]) ++ post) by reflexivity.
  rewrite str_replace_match by discriminate. f_equal.
  apply str_replace_absent; [discriminate|]. now apply contains_head.
Qed.

(** X28.  In a run where the placeholder of a field stands between text
    free of opening braces, the placeholder is replaced by [str(value)]
    and the text around it is kept, a carriage return of the new text
    reading back as a line feed, provided the new text holds only
    characters XML takes; otherwise the assignment raises a [ValueError],
    and the paragraph is not filled.  Runs without the placeholder are
    left alone. *)
Theorem fill_item_replaces_the_placeholder
  (k : str) (v : value) (pre post : str) (before after : paragraph) :
  ~ In LBRACE pre -> ~ In LBRACE post ->
  (forall run, In run (before ++ after) ->
     contains (placeholder k) run = false) ->
  let text := pre ++ py_str P v ++ post in
  let filled :=
    fill_item P (before ++ [pre ++ placeholder k ++ post] ++ after) (k, v) in
  if forallb xml_char text
  then filled = inr (before ++ [stored_text text] ++ after)
  else exists msg, filled = inl (ValueError msg).
Proof.
  intros Hpre Hpost Hrest text filled.
  enough (E : filled
              = if forallb xml_char text
                then inr (before ++ [stored_text text] ++ after)
                else inl (ValueError NOT_XML))
    by (rewrite E; destruct (forallb xml_char text);
        [reflexivity|now eexists]).
  unfold filled, fill_item, paragraph_text.
  cbn [fst snd]. rewrite contains_concat by apply placeholder_in_run.
  assert (Idle : forall l : paragraph,
             (forall run, In run l -> contains (placeholder k) run = false) ->
             each (fill_run (placeholder k) (py_str P v)) l = inr l).
  { intros l H.
    apply (@each_fixed _ _ (fun run => contains (placeholder k) run = false)).
    - intros run Hr. unfold fill_run. now rewrite Hr.
    - now apply Forall_forall. }
  unfold paragraph, str in *. rewrite !each_app.
  rewrite (Idle before) by (intros run Hr; apply Hrest, in_or_app; now left).
  rewrite (Idle after) by (intros run Hr; apply Hrest, in_or_app; now right).
  cbn [each]. unfold fill_run at 1. rewrite placeholder_in_run.
  rewrite str_replace_placeholder by assumption. fold text.
  unfold set_run_text. now destruct (forallb xml_char text).
Qed.

Lemma fill_item_whole :
  forall k v,
    fill_item P [placeholder k] (k, v) = 
    match set_run_text (py_str P v) with
    | inr t => inr [t]
    | inl e => inl e
    end.
Proof.
  intros k v. unfold fill_item, paragraph_text.
  cbn [fst snd List.concat each]. rewrite app_nil_r.
  assert (C : contains (placeholder k) (placeholder k) = true).
  { pose proof (starts_with_app (placeholder k) []) as S.
    rewrite app_nil_r in S. now apply contains_start. }
  rewrite C. unfold fill_run. rewrite C.
  rewrite str_replace_whole by apply placeholder_not_nil.
  now destruct (set_run_text (py_str P v)).
Qed.

(** X29.  Fields are substituted one after the other, in the order of
    the record: where the texts assigned hold only characters XML takes
    and no carriage return, a value that spells the placeholder of a
    later field is itself replaced, and one that spells the placeholder
    of an earlier field is not. *)
Theorem fill_paragraph_is_sequential (k1 k2 : str) (v1 v2 : value) :
  py_str P v1 = placeholder k2 ->
  contains (placeholder k2) (placeholder k1) = false ->
  set_run_text (py_str P v1) = inr (py_str P v1) ->
  forallb xml_char (py_str P v2) = true ->
  fill_paragraph P [(k1, v1); (k2, v2)] [placeholder k1]
  = inr [stored_text (py_str P v2)]
  /\ fill_paragraph P [(k2, v2); (k1, v1)] [placeholder k1]
     = inr [placeholder k2].
Proof.
  intros Hv Hc S1 X2.
  pose proof (fill_item_whole k1 v1) as E1. rewrite S1, Hv in E1.
  pose proof (fill_item_whole k2 v2) as E2.
  unfold set_run_text in E2. rewrite X2 in E2.
  assert (E0 : fill_item P [placeholder k1] (k2, v2) = inr [placeholder k1]).
  { apply fill_item_idle. intros run [<-|[]]. exact Hc. }
  split.
  - rewrite fill_paragraph_cons.
    replace (fill_item P [placeholder k1] (k1, v1)) with
      (@inr exn paragraph [placeholder k2]) by (symmetry; exact E1).
    rewrite fill_paragraph_cons.
    replace (fill_item P [placeholder k2] (k2, v2)) with
      (@inr exn paragraph [stored_text (py_str P v2)])
      by (symmetry; exact E2).
    reflexivity.
  - rewrite fill_paragraph_cons.
    replace (fill_item P [placeholder k1] (k2, v2)) with
      (@inr exn paragraph [placeholder k1]) by (symmetry; exact E0).
    rewrite fill_paragraph_cons.
    replace (fill_item P [placeholder k1] (k1, v1)) with
      (@inr exn paragraph [placeholder k2]) by (symmetry; exact E1).
    reflexivity.
Qed.
End FillFacts.

Lemma fill_document_witness :
  let data := [(lit "name", VStr (lit "Ada"))] in
  let doc := mk_document [[lit "Dear {na"; lit "me},"]] [] in
  contains (placeholder (lit "name"))
    (paragraph_text [lit "Dear {na"; lit "me},"]) = true
  /\ fill_document cpython data doc = inr doc.
Proof.
  intros data doc. split; [reflexivity|].
  apply (proj2 (proj2 (fill_document_needs_whole_placeholders cpython data doc))).
  split; [|constructor]. constructor; [|constructor].
  intros k v run [E|[]] [<-|[<-|[]]]; injection E as <- _; reflexivity.
Defined.

Lemma fill_item_replaces_witness :
  fill_item cpython [lit "To "; lit "Dear {name},"; lit " welcome"]
    (lit "name", VStr (lit "Ada"))
  = inr [lit "To "; lit "Dear Ada,"; lit " welcome"]
  /\ (exists msg,
        fill_item cpython [lit "To "; lit "Dear {name},"; lit " welcome"]
          (lit "name", VStr [11%N])
        = inl (ValueError msg)).
Proof.
  split.
  - apply (@fill_item_replaces_the_placeholder cpython (lit "name")
             (VStr (lit "Ada")) (lit "Dear ") (lit ",") [lit "To "]
             [lit " welcome"]).
    + simpl. intuition discriminate.
    + simpl. intuition discriminate.
    + intros run [<-|[<-|[]]]; reflexivity.
  - apply (@fill_item_replaces_the_placeholder cpython (lit "name")
             (VStr [11%N]) (lit "Dear ") (lit ",") [lit "To "]
             [lit " welcome"]).
    + simpl. intuition discriminate.
    + simpl. intuition discriminate.
    + intros run [<-|[<-|[]]]; reflexivity.
Defined.

Lemma fill_paragraph_sequential_witness :
  let v1 := VStr (lit "{surname}") in
  let v2 := VStr (lit "Lovelace") in
  fill_paragraph cpython [(lit "name", v1); (lit "surname", v2)]
    [placeholder (lit "name")] = inr [lit "Lovelace"]
  /\ fill_paragraph cpython [(lit "surname", v2); (lit "name", v1)]
       [placeholder (lit "name")] = inr [placeholder (lit "surname")].
Proof.
  intros v1 v2.
  apply (@fill_paragraph_is_sequential cpython (lit "name") (lit "surname")
           v1 v2); reflexivity.
Defined.


(** ** Rows of a spreadsheet *)

Lemma dict_set_fresh :
  forall (V : Type) (d : dict V) k v,
    ~ In k (keys d) -> dict_set d k v = d ++ [(k, v)].
Proof.
  intros V. induction d as [|[k' v'] d IH]; intros k v H; simpl;
    [reflexivity|].
  destruct (str_eqb k' k) eqn:E.
  - apply str_eqb_eq in E. subst. elim H. now left.
  - rewrite IH; [reflexivity|]. intros Hd. apply H. now right.
Qed.

Lemma zip_fold_fresh :
  forall (l acc : dict value),
    NoDup (keys acc ++ keys l) ->
    fold_left (fun d kv => dict_set d (fst kv) (snd kv)) l acc = acc ++ l.
Proof.
  induction l as [|[k v] l IH]; intros acc H; simpl.
  - now rewrite app_nil_r.
  - cbn [keys map fst] in H.
    assert (Hk : ~ In k (keys acc)).
    { apply NoDup_remove_2 in H. intros Hin. apply H.
      apply in_or_app. now left. }
    rewrite (@dict_set_fresh _ acc k v Hk), IH.
    + now rewrite <- app_assoc.
    + unfold keys in *. rewrite map_app. cbn [map fst].
      rewrite <- app_assoc. exact H.
Qed.

(** X30.  With pairwise distinct headers, the raw record of a spreadsheet
    row pairs each header with the cell below it, in order, as far as the
    shorter of the two goes: cells beyond the last header are dropped,
    headers beyond the last cell get no key; and an empty header cell
    gives the empty header. *)
Theorem xlsx_row_is_zipped
  (P : platform) (cells vals : list value) :
  let headers := xlsx_headers P cells in
  (forall i, nth_error cells i = Some VNone -> nth_error headers i = Some [])
  /\ (NoDup headers ->
      zip_dict headers vals
      = map (fun kv => (Some (fst kv), snd kv)) (combine headers vals)
      /\ List.length (zip_dict headers vals)
         = Nat.min (List.length cells) (List.length vals)).
Proof.
  intros headers. split.
  - intros i H. unfold headers, xlsx_headers.
    now rewrite nth_error_map, H.
  - intros N.
    assert (Z : zip_dict headers vals
                = map (fun kv => (Some (fst kv), snd kv))
                    (combine headers vals)).
    { unfold zip_dict. rewrite zip_fold_fresh; [reflexivity|].
      unfold keys. simpl. revert vals.
      induction N as [|h hs Hh _ IH]; intros vals; [constructor|].
      destruct vals as [|v vals]; [constructor|]. simpl.
      constructor; [|apply IH].
      intros Hin. apply Hh. apply in_map_iff in Hin as [[k w] [<- Hin]].
      now apply in_combine_l in Hin. }
    split; [exact Z|].
    rewrite Z, length_map, length_combine. unfold headers, xlsx_headers.
    now rewrite length_map.
Qed.

Lemma xlsx_row_witness :
  let cells := [VStr (lit "Name"); VNone; VStr (lit "Born")] in
  let vals := [VStr (lit "Ada"); VInt 7; VStr (lit "1815"); VStr (lit "x")] in
  zip_dict (xlsx_headers cpython cells) vals
  = [(Some (lit "Name"), VStr (lit "Ada")); (Some [], VInt 7);
     (Some (lit "Born"), VStr (lit "1815"))]
  /\ List.length (zip_dict (xlsx_headers cpython cells) vals) = 3.
Proof.
  intros cells vals.
  apply (proj2 (xlsx_row_is_zipped cpython cells vals)).
  repeat constructor; simpl; intuition discriminate.
Defined.

(** ** What reaches the caller *)

Lemma objects_of_In :
  forall rows objs,
    objects_of rows = Some objs ->
    forall r, In r rows ->
      exists fields, fields_to_json r = Some fields /\ In (JObject fields) objs.
Proof.
  induction rows as [|r0 rows IH]; intros objs H r Hin; [contradiction|].
  cbn [objects_of] in H.
  destruct (fields_to_json r0) as [fields0|] eqn:F0; [|discriminate].
  destruct (objects_of rows) as [js|]; [|discriminate].
  injection H as <-. destruct Hin as [<-|Hin].
  - exists fields0. split; [exact F0|now left].
  - destruct (IH js eq_refl r Hin) as (fields & F & I).
    exists fields. split; [exact F|now right].
Qed.

Lemma objects_of_serialisable :
  forall rows,
    Forall (fun r => serialisable r = true) rows ->
    exists objs, objects_of rows = Some objs.
Proof.
  induction 1 as [|r rows Hs _ (objs & Ho)]; [now exists []|].
  unfold serialisable in Hs. cbn [objects_of].
  destruct (fields_to_json r) as [fields|]; [|discriminate].
  rewrite Ho. now eexists.
Qed.

Lemma sink_entry_serialisable :
  forall r reasons,
    serialisable r = true ->
    serialisable (dict_set r ERRORS_KEY (VList (map VStr reasons))) = true.
Proof.
  intros r reasons H. unfold serialisable in *.
  destruct (fields_to_json r) as [fields|] eqn:F; [|discriminate].
  now rewrite (fields_to_json_set r reasons F).
Qed.

(** An invariant of a loop that every item of the sequence keeps. *)
Lemma run_loop_invariant_in :
  forall (Inv : state -> Prop) (A : Type)
         (body : state -> A -> state * option row) (l : list A),
    (forall st x, In x l -> Inv st -> Inv (fst (body st x))) ->
    forall st, Inv st -> Inv (fst (run_loop body st l)).
Proof.
  intros Inv A body. induction l as [|x l IH]; intros Hb st H; [exact H|].
  cbn [run_loop]. pose proof (Hb st x (or_introl eq_refl) H) as H1.
  destruct (body st x) as [st1 y]. cbn [fst] in H1.
  assert (H2 : Inv (fst (run_loop body st1 l))).
  { apply IH; [|exact H1]. intros st' x' Hin. apply Hb. now right. }
  now destruct (run_loop body st1 l).
Qed.

Lemma process_writable :
  forall P o st raw,
    writable st ->
    serialisable (fst (normalize_row P o raw)) = true ->
    writable (fst (process P o st raw)).
Proof.
  intros P o st raw H S. unfold writable in *.
  destruct (valid P o (fst (normalize_row P o raw))) eqn:V.
  - rewrite (process_valid P o st raw V). unfold emit_row.
    now destruct (want_list o).
  - rewrite (process_invalid P o st raw V). cbn [fst invalid_rows].
    apply Forall_app. split; [exact H|].
    constructor; [|constructor]. now apply sink_entry_serialisable.
Qed.

Lemma run_loop_writable :
  forall P o (A : Type) body (reach : A -> option raw_record),
    (forall st x,
        writable st ->
        (forall raw, reach x = Some raw ->
           serialisable (fst (normalize_row P o raw)) = true) ->
        writable (fst (body st x))) ->
    forall l st,
      writable st ->
      Forall (fun r => serialisable r = true)
        (canonical P o (filter_map reach l)) ->
      writable (fst (run_loop body st l)).
Proof.
  intros P o A body reach Hb l st H S.
  apply (@run_loop_invariant_in writable A body l); [|exact H].
  intros st' x Hin H'. apply Hb; [exact H'|].
  intros raw R. rewrite Forall_forall in S. apply S.
  unfold canonical.
  apply (in_map (fun raw0 => fst (normalize_row P o raw0))).
  clear - Hin R. induction l as [|y l IH]; [contradiction|].
  cbn [filter_map]. destruct Hin as [->|Hin].
  - rewrite R. now left.
  - destruct (reach y); [right|]; now apply IH.
Qed.

Lemma reader_writable :
  forall P o E file_path f lg,
    Forall (fun r => serialisable r = true) (records_read P o E file_path f) ->
    Forall (fun r => serialisable r = true)
      (rejected (reader P o E file_path f (mk_state [] [] lg))).
Proof.
  intros P o E file_path f lg.
  assert (H0 : writable (mk_state [] [] lg)) by constructor.
  assert (Hsrc : forall (A : Type) body (reach : A -> option raw_record)
                        (src : source A),
             (forall st x,
                 writable st ->
                 (forall raw, reach x = Some raw ->
                    serialisable (fst (normalize_row P o raw)) = true) ->
                 writable (fst (body st x))) ->
             Forall (fun r => serialisable r = true)
               (canonical P o (filter_map reach (items src))) ->
             Forall (fun r => serialisable r = true)
               (rejected (run_source body (mk_state [] [] lg) src))).
  { intros A body reach src Hb S. unfold run_source, rejected.
    pose proof (@run_loop_writable P o A body reach Hb (items src) _ H0 S) as H.
    now destruct (run_loop body (mk_state [] [] lg) (items src)). }
  unfold records_read, raws_read. destruct f; cbn [reader].
  - unfold read_csv, csv_raws. intros S.
    apply (Hsrc _ _ (fun raw => if csv_blank raw then None else Some raw)).
    + intros st x H R. unfold csv_body.
      destruct (csv_blank x); [exact H|]. now apply process_writable, R.
    + now rewrite (filter_map_filter csv_blank (fun raw => raw)), map_id.
  - unfold read_xlsx.
    destruct (xlsx_open E (the_path file_path)) as [e|[cells rows]];
      [constructor|].
    intros S.
    apply (Hsrc _ _ (fun vals => if xlsx_blank vals then None
                                 else Some (zip_dict (xlsx_headers P cells) vals))).
    + intros st x H R. unfold xlsx_body.
      destruct (xlsx_blank x); [exact H|]. now apply process_writable, R.
    + now rewrite (filter_map_filter xlsx_blank
                     (zip_dict (xlsx_headers P cells))).
  - unfold read_json.
    destruct (json_open E (the_path file_path)) as [e|data]; [constructor|].
    intros S.
    apply (Hsrc _ _ json_raw).
    + intros st x H R. unfold json_body.
      destruct (truthy x) eqn:T; cbn [negb]; [|exact H].
      destruct x; try exact H.
      destruct (any_truthy (map snd d)) eqn:T'; cbn [negb]; [|exact H].
      apply process_writable; [exact H|]. apply R.
      unfold json_raw. now rewrite T, T'.
    + cbn [items]. now destruct data.
  - intros S. apply (Hsrc _ _ (jsonl_raw P)); [|exact S].
    intros st x H R. unfold jsonl_body.
    destruct (strip x) as [|c l] eqn:X; [exact H|].
    assert (W : forall reasons,
               writable (record_invalid_sink st [(RAW_KEY, VStr (c :: l))]
                           reasons)).
    { intros reasons. unfold writable, record_invalid_sink.
      cbn [invalid_rows]. apply Forall_app. split; [exact H|].
      constructor; [|constructor]. now apply sink_entry_serialisable. }
    destruct (json_loads P (c :: l)) as [e|v] eqn:L; [apply W|].
    destruct v; try apply W.
    apply process_writable; [exact H|]. apply R.
    unfold jsonl_raw. now rewrite X, L.
Qed.

(** The document a run leaves when its sink can be written. *)
Lemma read_data_body_written :
  forall P E file_path o st1 items ex sink objs,
    dispatch P E file_path o (start E o) = (st1, items, ex) ->
    invalid_rows st1 <> [] ->
    sink_path file_path o = inr sink ->
    mkdir_parent E sink = None ->
    write_text E sink = None ->
    objects_of (invalid_rows st1) = Some objs ->
    written (read_data_body P E file_path o) = Some (sink, JArray objs).
Proof.
  intros P E file_path o st1 items ex sink objs D Hne Hs Hm Hw Ho.
  unfold read_data_body. fold (start E o). rewrite D.
  assert (I : forall st2, invalid_rows st2 = invalid_rows st1 ->
            flush E file_path o st2
            = inr (add_logs st2
                     [LogInvalidSaved (List.length (invalid_rows st2)) sink],
                   Some (sink, JArray objs))).
  { intros st2 E2. unfold flush. rewrite E2.
    destruct (invalid_rows st1) as [|r rest] eqn:R; [contradiction|].
    rewrite Hs, Hm, json_dumps_objects, Ho, Hw. reflexivity. }
  rewrite I by now destruct ex.
  now destruct (finish E o _).
Qed.

(** C1 on the code.  Of the canonical records of a supported source, a
    streaming run yields exactly those in which every required name maps
    to a present, truthy value, in source order.  A materialising run
    yields none of them: the call is a generator all the same, the
    collection only rides on [StopIteration], and without pandas and
    without [as_list] it is replaced by an empty list.  A record that
    fails the test is never yielded, and when the sink can be written
    (its directory made, every record serialisable) the document written
    holds the record's fields with its reasons under [_errors]. *)
Theorem read_data_delivers_only_when_streaming
  (P : platform) (E : environment) (file_path : str) (o : options)
  (f : format) :
  format_of_suffix (suffix P file_path) = Some f ->
  let g := read_data_body P E file_path o in
  let recs := records_read P o E file_path f in
  let good := filter (fun r => fst (is_valid P o r)) recs in
  (want_list o = false ->
     yielded g = good
     /\ Forall (fun r => In r (yielded g) <-> required_present P o r) recs)
  /\ (want_list o = true ->
     yielded g = []
     /\ (raised g = None ->
         stop_value g
         = if return_dataframe o then
             match pandas_import E with
             | Some _ => RList (if as_list o then good else [])
             | None => RDataFrame good
             end
           else RList good))
  /\ Forall (fun r =>
       ~ required_present P o r ->
       ~ In r (yielded g)
       /\ forall sink,
            sink_path file_path o = inr sink ->
            mkdir_parent E sink = None ->
            write_text E sink = None ->
            Forall (fun r' => serialisable r' = true) recs ->
            exists objs fields,
              written g = Some (sink, JArray objs)
              /\ fields_to_json r = Some fields
              /\ In (sink_object fields
                       (missing_reasons (snd (is_valid P o r)))) objs) recs.
Proof.
  intros Hf g recs good.
  pose proof (dispatch_reader P E file_path o (start E o) Hf) as D.
  pose proof (reader_partition P o E file_path f
                (if progress o && negb (tqdm_available E)
                 then [LogTqdmMissing] else [])) as [A R].
  pose proof (@reader_writable P o E file_path f
                (if progress o && negb (tqdm_available E)
                 then [LogTqdmMissing] else [])) as S.
  fold (start E o) in A, R, S. fold recs in A, R, S.
  change (filter (valid P o) recs) with good in A.
  assert (Y : yielded g = if want_list o then [] else good).
  { destruct (want_list o) eqn:W.
    - destruct (read_data_always_generator P E file_path o) as (g' & G & Hy).
      injection G as <-. now apply Hy.
    - unfold g. now rewrite (read_data_streams_accepted P E file_path o Hf W). }
  assert (V : forall r, In r good <-> In r recs /\ required_present P o r).
  { intros r. unfold good. now rewrite filter_In, <- is_valid_ok. }
  split; [|split].
  - intros W. rewrite W in Y. split; [exact Y|].
    apply Forall_forall. intros r Hin. rewrite Y, V. tauto.
  - intros W. rewrite W in Y. split; [exact Y|]. intros Hr.
    destruct (reader P o E file_path f (start E o)) as [[st1 items] ex].
    unfold g. rewrite (read_data_body_stop_value P E file_path o D Hr).
    unfold accepted in A. rewrite W in A. unfold finish. cbn [out_rows snd].
    rewrite A. unfold want_list in W.
    destruct (return_dataframe o); [now destruct (pandas_import E)|].
    rewrite orb_false_r in W. now rewrite W.
  - apply Forall_forall. intros r Hin Hn. split.
    + rewrite Y. destruct (want_list o); [tauto|]. rewrite V. tauto.
    + intros sink Hs Hm Hw Hser.
      assert (Hv : valid P o r = false).
      { unfold valid. destruct (fst (is_valid P o r)) eqn:Vr; [|reflexivity].
        apply is_valid_ok in Vr. contradiction. }
      specialize (R r Hin Hv). specialize (S Hser).
      destruct (reader P o E file_path f (start E o)) as [[st1 items] ex].
      unfold rejected in R, S.
      destruct (objects_of_serialisable S) as (objs & Ho).
      destruct (objects_of_In _ Ho _ R) as (fields' & F' & I).
      assert (Hr : serialisable r = true)
        by (rewrite Forall_forall in Hser; now apply Hser).
      unfold serialisable in Hr.
      destruct (fields_to_json r) as [fields|] eqn:F; [|discriminate].
      exists objs, fields. split; [|split; [reflexivity|]].
      * unfold g. apply (@read_data_body_written P E file_path o st1 items ex
                           sink objs D); try assumption.
        intros N. rewrite N in R. contradiction.
      * unfold rejected_entry in F'.
        rewrite (fields_to_json_set r _ F) in F'. injection F' as <-.
        exact I.
Qed.

(** Two clients in a delimited file, the second without a surname: the
    streaming run yields the first, the materialising run yields nothing
    and carries her on [StopIteration], and both write the second to the
    sink. *)
Lemma read_data_delivers_witness :
  let client := [(lit "name", VStr AYSE); (lit "surname", VStr YILMAZ)] in
  let other := [(lit "name", VStr (lit "Ali")); (lit "surname", VStr [])] in
  let E := with_csv
             [[(Some (lit "Name"), VStr AYSE);
               (Some (lit "Surname"), VStr YILMAZ)];
              [(Some (lit "Name"), VStr (lit "Ali"));
               (Some (lit "Surname"), VStr [])]] in
  let o := requiring [lit "name"; lit "surname"] in
  let stream := read_data_body cpython E (lit "clients.csv") o in
  let list_run :=
    read_data_body cpython E (lit "clients.csv") (with_as_list true o) in
  yielded stream = [client]
  /\ (In other (yielded stream) <-> required_present cpython o other)
  /\ yielded list_run = []
  /\ stop_value list_run = RList [client]
  /\ (exists objs fields,
        written list_run
        = Some (Path (lit "Errors/errors.json"), JArray objs)
        /\ fields_to_json other = Some fields
        /\ In (sink_object fields [lit "missing: surname"]) objs).
Proof.
  intros client other E o stream list_run.
  pose proof (@read_data_delivers_only_when_streaming cpython E
                (lit "clients.csv") o Csv eq_refl) as (S & _ & _).
  pose proof (@read_data_delivers_only_when_streaming cpython E
                (lit "clients.csv") (with_as_list true o) Csv eq_refl)
    as (_ & L & R).
  cbv zeta in S, L, R.
  destruct (S eq_refl) as (Sy & Sall).
  destruct (L eq_refl) as (Ly & Lv).
  split; [exact Sy|].
  split; [exact (proj1 (Forall_forall _ _) Sall other
                   (or_intror (or_introl eq_refl)))|].
  split; [exact Ly|].
  split; [exact (Lv eq_refl)|].
  assert (N : ~ required_present cpython (with_as_list true o) other).
  { intros H. destruct (H (lit "surname") (or_intror (or_introl eq_refl)))
      as (v & G & T).
    vm_compute in G. injection G as <-. discriminate T. }
  destruct (proj1 (Forall_forall _ _) R other
              (or_intror (or_introl eq_refl)) N) as (_ & W).
  apply (W (Path (lit "Errors/errors.json")) eq_refl eq_refl eq_refl).
  repeat constructor.
Defined.
